(** * modesolverpy: the mode-solver front end ([mode_solver.py])

    A shallow embedding of the classes [_ModeSolver],
    [ModeSolverSemiVectorial] and [ModeSolverFullyVectorial], and the
    properties of the sweep, group-index, warm-start and classification
    code that the specification states.

    Conventions of the model.
    - numpy's [float64] and [complex128] are idealised as the real numbers
      [R] and pairs of reals; rounding error is outside the model.  Where the
      source divides by a value that can be zero ([_get_overlaps], and
      [solve_ng] with a step of zero) the quotient is an [npfloat] or an
      [npcomplex], which have numpy's [nan] and infinities; the engine's
      effective indices are numpy scalars, for which such a division
      raises nothing.
    - A Python exception is the outcome [Raise e]; the state reached when it
      was raised is kept, as in Python.
    - The numerical engine [_mode_solver_lib] is an interface
      ([ModeSolverLib]); every theorem holds for every implementation.
    - Output goes to explicit stores: the text files of effective indices
      and the gnuplot requests are part of the [World]; the directories,
      mode files and mode plots of [write_modes_to_file] are the [Disk].
      [os.mkdir] and [open] are taken to succeed; [os.path.splitext] is
      the one of [posixpath].  A mode file is kept as the array of the
      values on its lines.
    - The text of a float (['%.3f' % x]) and [anal.fit_gaussian] are an
      interface ([Collaborators]).
    - [ModeSolverFullyVectorial.write_modes_to_file] is not modelled: it
      pairs the fields with the overlap entries in the insertion order of
      the dict [mode.fields], which the engine decides. *)

From Stdlib Require Import Reals Lra Lia ZArith Ascii.
From stdpp Require Import base option list strings pretty gmap.

Local Open Scope R_scope.

(** ** Numbers *)

Module Cplx.

(** [complex128], idealised. *)
Record C := mk { re : R; im : R }.

Definition of_real (x : R) : C := mk x 0.

Definition sub (a b : C) : C := mk (re a - re b) (im a - im b).

Definition mul (a b : C) : C :=
  mk (re a * re b - im a * im b) (re a * im b + im a * re b).

Definition div (a b : C) : C :=
  let d := re b * re b + im b * im b in
  mk ((re a * re b + im a * im b) / d) ((im a * re b - re a * im b) / d).

(** [abs(z)], a real. *)
Definition abs (z : C) : R := sqrt (re z * re z + im z * im z).

Definition is_real (z : C) : Prop := im z = 0.

End Cplx.

Abbreviation C := Cplx.C.

(** A two-dimensional numpy array, tagged with its dtype. *)
Inductive ndarray :=
| RealArr (rows : list (list R))
| CplxArr (rows : list (list C)).

(** The values of [np.abs(a)]: element-wise magnitude. *)
Definition abs_rows (a : ndarray) : list (list R) :=
  match a with
  | RealArr rows => map (map Rabs) rows
  | CplxArr rows => map (map Cplx.abs) rows
  end.

(** [np.abs(a)]: a new float array. *)
Definition np_abs (a : ndarray) : ndarray := RealArr (abs_rows a).

Definition Rsum (l : list R) : R := fold_right Rplus 0 l.

(** [np.sum(np.abs(a)**2)]: [**2] squares each element of the float array
    that [np.abs] returned and [np.sum] adds all of them. *)
Definition np_square_rows (rows : list (list R)) : list (list R) :=
  map (map (fun x => x * x)) rows.

Definition np_sum_rows (rows : list (list R)) : R :=
  Rsum (map Rsum rows).

Definition energy (a : ndarray) : R :=
  np_sum_rows (np_square_rows (abs_rows a)).

(** A [float64] that may be non-finite. *)
Inductive npfloat :=
| Finite (r : R)
| PosInf
| NegInf
| NaN.

(** [x / y] on numpy floats with finite operands: no exception, [nan] for
    [0/0] and a signed infinity for [x/0]. *)
Definition np_divide (x y : R) : npfloat :=
  if Req_dec_T y 0 then
    if Req_dec_T x 0 then NaN
    else if Rlt_dec 0 x then PosInf else NegInf
  else Finite (x / y).

(** [a * k] for a finite positive constant [k]. *)
Definition np_scale (k : R) (a : npfloat) : npfloat :=
  match a with
  | Finite r => Finite (r * k)
  | PosInf => PosInf
  | NegInf => NegInf
  | NaN => NaN
  end.

(** A [complex128] whose parts may be non-finite. *)
Record npcomplex := { nc_re : npfloat; nc_im : npfloat }.

(** [z / y] for a complex scalar [z] and a float [y], both finite.  numpy
    raises no exception: when [y] is zero each part of [z] is divided by
    zero, which gives [nan] for a zero part and a signed infinity
    otherwise. *)
Definition np_cdivide (z : C) (y : R) : npcomplex :=
  if Req_dec_T y 0 then
    {| nc_re := np_divide (Cplx.re z) 0; nc_im := np_divide (Cplx.im z) 0 |}
  else
    let q := Cplx.div z (Cplx.of_real y) in
    {| nc_re := Finite (Cplx.re q); nc_im := Finite (Cplx.im q) |}.

(** [x - q] on floats, for a finite [x]. *)
Definition np_rsub (x : R) (q : npfloat) : npfloat :=
  match q with
  | Finite y => Finite (x - y)
  | PosInf => NegInf
  | NegInf => PosInf
  | NaN => NaN
  end.

(** [z - q] on complex scalars, for a finite [z]. *)
Definition np_csub (z : C) (q : npcomplex) : npcomplex :=
  {| nc_re := np_rsub (Cplx.re z) (nc_re q);
     nc_im := np_rsub (Cplx.im z) (nc_im q) |}.

Definition Rfloor (r : R) : Z := (up r - 1)%Z.

(** [np.rint]: nearest integer, ties to the even one. *)
Definition rint (r : R) : Z :=
  let f := Rfloor r in
  let d := r - IZR f in
  if Rlt_dec d (1 / 2) then f
  else if Rlt_dec (1 / 2) d then (f + 1)%Z
  else if Z.even f then f else (f + 1)%Z.

(** [np.round(x, 2)]: scale by [10**2], [rint], scale back. *)
Definition np_round2 (a : npfloat) : npfloat :=
  match a with
  | Finite r => Finite (IZR (rint (r * 100)) / 100)
  | other => other
  end.

(** [not (x <= m)] on floats: true when either side is [nan]. *)
Definition np_not_le (x m : npfloat) : bool :=
  match x, m with
  | NaN, _ | _, NaN => true
  | _, PosInf => false
  | PosInf, _ => true
  | NegInf, _ => false
  | Finite _, NegInf => true
  | Finite a, Finite b => if Rle_dec a b then false else true
  end.

Definition np_isnan (x : npfloat) : bool :=
  match x with NaN => true | _ => false end.

(** The scan of [np.argmax]: [best] is the running maximum [mp] at index
    [bi]; an element replaces it when [not (x <= mp)], and the scan stops
    at the first [nan]. *)
Fixpoint argmax_scan (best : npfloat) (bi i : nat) (l : list npfloat) : nat :=
  match l with
  | [] => bi
  | x :: rest =>
      if np_isnan best then bi
      else if np_not_le x best then argmax_scan x i (S i) rest
      else argmax_scan best bi (S i) rest
  end.

(** [np.argmax(l)]; [None] is the [ValueError] on an empty sequence. *)
Definition np_argmax (l : list npfloat) : option nat :=
  match l with
  | [] => None
  | x :: rest => Some (argmax_scan x 0%nat 1%nat rest)
  end.

(** An array all of whose elements are zero. *)
Definition all_zero (a : ndarray) : Prop :=
  Forall (Forall (fun x => x = 0)) (abs_rows a).

(** A float that is neither [nan] nor infinite. *)
Definition is_finite (x : npfloat) : Prop :=
  match x with Finite _ => True | _ => False end.

(** [np.argmax] of three finite values: the first index of the largest. *)
Definition first_max3 (a b c : R) (idx : nat) : Prop :=
  (idx = 0%nat /\ b <= a /\ c <= a) \/
  (idx = 1%nat /\ a < b /\ c <= b) \/
  (idx = 2%nat /\ a < c /\ b < c).

(** ** Exceptions and results *)

Inductive exn :=
| KeyError (key : string)
| IndexError
| AttributeError (attr : string)
| TypeError
| ValueError
| OtherError (name : string).

Inductive Outcome (A : Type) :=
| Return (a : A)
| Raise (e : exn).
Arguments Return {A} a.
Arguments Raise {A} e.

(** What the caller of a function gets back: nothing when it raised. *)
Definition returned {A} (o : Outcome A) : option A :=
  match o with Return a => Some a | Raise _ => None end.

(** ** Data of the solver *)

(** A mode of the fully-vectorial engine: [mode.fields] is a dict from the
    component name to its array. *)
Record VMode := { fields : gmap string ndarray }.

(** Address of a Python list object in the heap. *)
Definition loc := nat.

(** The [modes] attribute: a reference to the engine's list of arrays
    (semi-vectorial; that list is updated in place) or the list of mode
    objects (fully-vectorial; never updated). *)
Inductive ModesRef :=
| SVModes (l : loc)
| FVModes (ms : list VMode).

(** The dict [r] that [_solve] returns: key ['n_effs'] always, key
    ['modes'] when it was set. *)
Record Result := { r_n_effs : list C; r_modes : option ModesRef }.

Inductive Formulation :=
| SemiVectorial (semi_vectorial_method : string)
| FullyVectorial.

(** The engine object [self._ms]: its attributes [neff] and [modes] exist
    once its [solve] has set them. *)
Record MsObject := {
  ms_neff : option (list C);
  ms_modes : option ModesRef
}.

(** Arguments of the two engine [solve] calls, as [_solve] passes them: the
    constructor's ([wavelength], [structure], [boundary] and the method) and
    the method's own. *)
Record SVCall (Structure : Type) := {
  sv_wavelength : R;
  sv_structure : Structure;
  sv_boundary : string;
  sv_method : string;
  sv_n_eigs : Z;
  sv_tol : R;
  sv_mode_profiles : bool;
  sv_guess : option ndarray
}.
Arguments sv_wavelength {Structure} _.
Arguments sv_structure {Structure} _.
Arguments sv_boundary {Structure} _.
Arguments sv_method {Structure} _.
Arguments sv_n_eigs {Structure} _.
Arguments sv_tol {Structure} _.
Arguments sv_mode_profiles {Structure} _.
Arguments sv_guess {Structure} _.

Record FVCall (Structure : Type) := {
  fv_wavelength : R;
  fv_structure : Structure;
  fv_boundary : string;
  fv_n_eigs : Z;
  fv_tol : R;
  fv_n_eff_guess : option R;
  fv_guess : option ndarray
}.
Arguments fv_wavelength {Structure} _.
Arguments fv_structure {Structure} _.
Arguments fv_boundary {Structure} _.
Arguments fv_n_eigs {Structure} _.
Arguments fv_tol {Structure} _.
Arguments fv_n_eff_guess {Structure} _.
Arguments fv_guess {Structure} _.

Inductive Call (Structure : Type) :=
| CallSV (c : SVCall Structure)
| CallFV (c : FVCall Structure).
Arguments CallSV {Structure} c.
Arguments CallFV {Structure} c.

Definition call_guess {Structure} (c : Call Structure) : option ndarray :=
  match c with CallSV c => sv_guess c | CallFV c => fv_guess c end.


Definition call_wavelength {Structure} (c : Call Structure) : R :=
  match c with CallSV c => sv_wavelength c | CallFV c => fv_wavelength c end.

Definition call_structure {Structure} (c : Call Structure) : Structure :=
  match c with CallSV c => sv_structure c | CallFV c => fv_structure c end.

Definition call_n_eff_guess {Structure} (c : Call Structure) : option R :=
  match c with CallSV _ => None | CallFV c => fv_n_eff_guess c end.

(** The module [_mode_solver_lib], which the front end imports as [ms].
    - [ms_new_sv], [ms_new_fv]: the constructors [_ModeSolverSemiVectorial]
      and [_ModeSolverVectorial]; [Some e] when the constructor raises [e].
    - [ms_solve_sv], [ms_solve_fv]: the method [solve] of the object built;
      on success it sets [neff] and, when it builds profiles, [modes] (a
      list that this engine object has created). *)
Class ModeSolverLib (Structure : Type) := {
  ms_new_sv : R -> Structure -> string -> string -> option exn;
  ms_solve_sv : SVCall Structure -> exn + (list C * option (list ndarray));
  ms_new_fv : R -> Structure -> string -> option exn;
  ms_solve_fv : FVCall Structure -> exn + (list C * option (list VMode))
}.

(** A row [x,y] of the text file that [_write_n_effs_to_file] writes; [x]
    is printed with [%i] (a step number) or [%0.4f] (a value), [y] with
    [%.6f]. *)
Inductive XVal :=
| XIndex (i : nat)
| XFloat (x : R).

Record Row := { row_x : XVal; row_y : R }.

(** The arguments handed to gnuplot by [_plot_n_effs]. *)
Record PlotJob := {
  plot_script : string;
  plot_title : string;
  plot_xlabel : string;
  plot_ylabel : string;
  plot_filename_data : string
}.

Section FrontEnd.

Context {Structure : Type} {lib : ModeSolverLib Structure}.

(** The attributes of a solver object.  [_structure] and [_ms] do not
    exist before the first solve. *)
Record Solver := {
  kind : Formulation;
  _n_eigs : Z;
  _tol : R;
  _boundary : string;
  _mode_profiles : bool;
  _initial_mode_guess : option ndarray;
  _n_eff_guess : option R;
  n_effs : option (list C);
  modes : option ModesRef;
  mode_types : option (list (string * npfloat));
  overlaps : option (list (list npfloat));
  _structure : option Structure;
  _ms : option MsObject
}.

Definition set_initial_mode_guess (g : option ndarray) (s : Solver) : Solver :=
  {| kind := kind s; _n_eigs := _n_eigs s; _tol := _tol s;
     _boundary := _boundary s; _mode_profiles := _mode_profiles s;
     _initial_mode_guess := g; _n_eff_guess := _n_eff_guess s;
     n_effs := n_effs s; modes := modes s; mode_types := mode_types s;
     overlaps := overlaps s; _structure := _structure s; _ms := _ms s |}.

Definition set_n_effs (v : list C) (s : Solver) : Solver :=
  {| kind := kind s; _n_eigs := _n_eigs s; _tol := _tol s;
     _boundary := _boundary s; _mode_profiles := _mode_profiles s;
     _initial_mode_guess := _initial_mode_guess s;
     _n_eff_guess := _n_eff_guess s;
     n_effs := Some v; modes := modes s; mode_types := mode_types s;
     overlaps := overlaps s; _structure := _structure s; _ms := _ms s |}.

Definition set_modes (v : ModesRef) (s : Solver) : Solver :=
  {| kind := kind s; _n_eigs := _n_eigs s; _tol := _tol s;
     _boundary := _boundary s; _mode_profiles := _mode_profiles s;
     _initial_mode_guess := _initial_mode_guess s;
     _n_eff_guess := _n_eff_guess s;
     n_effs := n_effs s; modes := Some v; mode_types := mode_types s;
     overlaps := overlaps s; _structure := _structure s; _ms := _ms s |}.

Definition set_mode_types (v : list (string * npfloat)) (s : Solver) : Solver :=
  {| kind := kind s; _n_eigs := _n_eigs s; _tol := _tol s;
     _boundary := _boundary s; _mode_profiles := _mode_profiles s;
     _initial_mode_guess := _initial_mode_guess s;
     _n_eff_guess := _n_eff_guess s;
     n_effs := n_effs s; modes := modes s; mode_types := Some v;
     overlaps := overlaps s; _structure := _structure s; _ms := _ms s |}.

Definition set_overlaps (v : list (list npfloat)) (s : Solver) : Solver :=
  {| kind := kind s; _n_eigs := _n_eigs s; _tol := _tol s;
     _boundary := _boundary s; _mode_profiles := _mode_profiles s;
     _initial_mode_guess := _initial_mode_guess s;
     _n_eff_guess := _n_eff_guess s;
     n_effs := n_effs s; modes := modes s; mode_types := mode_types s;
     overlaps := Some v; _structure := _structure s; _ms := _ms s |}.

Definition set_structure (v : Structure) (s : Solver) : Solver :=
  {| kind := kind s; _n_eigs := _n_eigs s; _tol := _tol s;
     _boundary := _boundary s; _mode_profiles := _mode_profiles s;
     _initial_mode_guess := _initial_mode_guess s;
     _n_eff_guess := _n_eff_guess s;
     n_effs := n_effs s; modes := modes s; mode_types := mode_types s;
     overlaps := overlaps s; _structure := Some v; _ms := _ms s |}.

Definition set_ms (v : MsObject) (s : Solver) : Solver :=
  {| kind := kind s; _n_eigs := _n_eigs s; _tol := _tol s;
     _boundary := _boundary s; _mode_profiles := _mode_profiles s;
     _initial_mode_guess := _initial_mode_guess s;
     _n_eff_guess := _n_eff_guess s;
     n_effs := n_effs s; modes := modes s; mode_types := mode_types s;
     overlaps := overlaps s; _structure := _structure s; _ms := Some v |}.

(** *** The state of the program

    [self] is the solver object; [heap] holds the Python lists that are
    shared and updated in place (a [loc] is an index into it); [calls] is
    the sequence of engine [solve] calls made so far, oldest first;
    [files] and [plots] are the outputs. *)
Record World := {
  self : Solver;
  heap : list (list ndarray);
  calls : list (Call Structure);
  files : gmap string (list Row);
  plots : list PlotJob
}.

Definition with_self (f : Solver -> Solver) (w : World) : World :=
  {| self := f (self w); heap := heap w; calls := calls w;
     files := files w; plots := plots w |}.

Definition with_heap (h : list (list ndarray)) (w : World) : World :=
  {| self := self w; heap := h; calls := calls w;
     files := files w; plots := plots w |}.

Definition with_call (c : Call Structure) (w : World) : World :=
  {| self := self w; heap := heap w; calls := calls w ++ [c];
     files := files w; plots := plots w |}.

Definition with_files (f : gmap string (list Row)) (w : World) : World :=
  {| self := self w; heap := heap w; calls := calls w;
     files := f; plots := plots w |}.

Definition with_plot (p : PlotJob) (w : World) : World :=
  {| self := self w; heap := heap w; calls := calls w;
     files := files w; plots := plots w ++ [p] |}.

(** *** Computations: state and exceptions *)

Definition M (A : Type) : Type := World -> Outcome A * World.

Definition ret {A} (a : A) : M A := fun w => (Return a, w).

Definition raise {A} (e : exn) : M A := fun w => (Raise e, w).

Definition bind {A B} (c : M A) (k : A -> M B) : M B :=
  fun w =>
    match c w with
    | (Return a, w') => k a w'
    | (Raise e, w') => (Raise e, w')
    end.

Definition get : M World := fun w => (Return w, w).

Definition modify (f : World -> World) : M unit := fun w => (Return tt, f w).

(** An attribute or item that may be missing. *)
Definition expect {A} (e : exn) (o : option A) : M A :=
  match o with Some a => ret a | None => raise e end.

Definition lift {A} (o : exn + A) : M A :=
  match o with inl e => raise e | inr a => ret a end.

End FrontEnd.

Arguments Solver : clear implicits.
Arguments World : clear implicits.
Arguments M : clear implicits.

Notation "'let*' x ':=' c 'in' k" := (bind c (fun x => k))
  (at level 10, x name, c at level 100, k at level 200,
   format "'[v' 'let*'  x  ':='  c  'in' '/' k ']'").
Notation "c1 '>>' c2" := (bind c1 (fun _ => c2))
  (at level 100, c2 at level 200, right associativity,
   format "'[v' c1  '>>' '/' c2 ']'").

(** ** The front end *)

Section Code.

Context {Structure : Type} {lib : ModeSolverLib Structure}.

Local Abbreviation M := (M Structure).
Local Abbreviation Solver := (Solver Structure).
Local Abbreviation World := (World Structure).

(** [_ModeSolver.__init__]. *)
Definition _ModeSolver__init__ (k : Formulation) (n_eigs : Z) (tol : R)
    (boundary : string) (mode_profiles : bool)
    (initial_mode_guess : option ndarray) (n_eff_guess : option R) : Solver :=
  {| kind := k;
     _n_eigs := n_eigs;
     _tol := tol;
     _boundary := boundary;
     _mode_profiles := mode_profiles;
     _initial_mode_guess := initial_mode_guess;
     _n_eff_guess := n_eff_guess;
     n_effs := None;
     modes := None;
     mode_types := None;
     overlaps := None;
     _structure := None;
     _ms := None |}.

(** [ModeSolverSemiVectorial.__init__]: [n_eff_guess] keeps its default. *)
Definition ModeSolverSemiVectorial (n_eigs : Z) (tol : R) (boundary : string)
    (mode_profiles : bool) (initial_mode_guess : option ndarray)
    (semi_vectorial_method : string) : Solver :=
  _ModeSolver__init__ (SemiVectorial semi_vectorial_method) n_eigs tol
    boundary mode_profiles initial_mode_guess None.

(** [ModeSolverFullyVectorial.__init__]: [mode_profiles] is [False]. *)
Definition ModeSolverFullyVectorial (n_eigs : Z) (tol : R) (boundary : string)
    (initial_mode_guess : option ndarray) (n_eff_guess : option R) : Solver :=
  _ModeSolver__init__ FullyVectorial n_eigs tol boundary false
    initial_mode_guess n_eff_guess.

(** The program starts with an empty heap and no output. *)
Definition boot (s : Solver) : World :=
  {| self := s; heap := []; calls := []; files := ∅; plots := [] |}.

(** *** Heap access *)

(** A new list object holding [l]. *)
Definition alloc (l : list ndarray) : M loc :=
  fun w => (Return (length (heap w)), with_heap (heap w ++ [l]) w).

(** The list that a reference denotes. *)
Definition deref (h : list (list ndarray)) (l : loc) : list ndarray :=
  default [] (h !! l).

(** [lst[i]]. *)
Definition list_get (l : loc) (i : nat) : M ndarray :=
  let* w := get in expect IndexError (deref (heap w) l !! i).

(** [lst[i] = v]; the caller has read [lst[i]] before, so [i] is in
    range. *)
Definition list_set (l : loc) (i : nat) (v : ndarray) : M unit :=
  modify (fun w => with_heap (<[l := <[i := v]> (deref (heap w) l)]> (heap w)) w).

(** *** Attribute access *)

Definition get_self : M Solver := fun w => (Return (self w), w).

Definition set_self (f : Solver -> Solver) : M unit := modify (with_self f).

(** [self._ms.neff] and [self._ms.modes]. *)
Definition ms_get_neff : M (list C) :=
  let* s := get_self in
  let* ms := expect (AttributeError "_ms") (_ms s) in
  expect (AttributeError "neff") (ms_neff ms).

Definition ms_get_modes : M ModesRef :=
  let* s := get_self in
  let* ms := expect (AttributeError "_ms") (_ms s) in
  expect (AttributeError "modes") (ms_modes ms).

Definition sv_ref (m : ModesRef) : M loc :=
  match m with SVModes l => ret l | FVModes _ => raise TypeError end.

Definition fv_list (m : ModesRef) : M (list VMode) :=
  match m with FVModes ms => ret ms | SVModes _ => raise TypeError end.

(** *** The engine calls *)

(** [self._ms = ms._ModeSolverSemiVectorial(wavelength, structure,
    self._boundary, self._semi_vectorial_method)] followed by
    [self._ms.solve(self._n_eigs, self._tol, self._mode_profiles,
    initial_mode_guess=self._initial_mode_guess)]. *)
Definition run_engine_sv (method : string) (structure : Structure)
    (wavelength : R) : M unit :=
  let* s := get_self in
  match ms_new_sv wavelength structure (_boundary s) method with
  | Some e => raise e
  | None =>
      set_self (set_ms {| ms_neff := None; ms_modes := None |}) >>
      let c := {| sv_wavelength := wavelength; sv_structure := structure;
                  sv_boundary := _boundary s; sv_method := method;
                  sv_n_eigs := _n_eigs s; sv_tol := _tol s;
                  sv_mode_profiles := _mode_profiles s;
                  sv_guess := _initial_mode_guess s |} in
      modify (with_call (CallSV c)) >>
      let* out := lift (ms_solve_sv c) in
      match snd out with
      | Some l =>
          let* a := alloc l in
          set_self (set_ms {| ms_neff := Some (fst out);
                              ms_modes := Some (SVModes a) |})
      | None =>
          set_self (set_ms {| ms_neff := Some (fst out); ms_modes := None |})
      end
  end.

(** [self._ms = ms._ModeSolverVectorial(wavelength, structure,
    self._boundary)] followed by [self._ms.solve(self._n_eigs, self._tol,
    self._n_eff_guess, initial_mode_guess=self._initial_mode_guess)]. *)
Definition run_engine_fv (structure : Structure) (wavelength : R) : M unit :=
  let* s := get_self in
  match ms_new_fv wavelength structure (_boundary s) with
  | Some e => raise e
  | None =>
      set_self (set_ms {| ms_neff := None; ms_modes := None |}) >>
      let c := {| fv_wavelength := wavelength; fv_structure := structure;
                  fv_boundary := _boundary s;
                  fv_n_eigs := _n_eigs s; fv_tol := _tol s;
                  fv_n_eff_guess := _n_eff_guess s;
                  fv_guess := _initial_mode_guess s |} in
      modify (with_call (CallFV c)) >>
      let* out := lift (ms_solve_fv c) in
      set_self (set_ms {| ms_neff := Some (fst out);
                          ms_modes := FVModes <$> snd out |})
  end.

(** *** Classification: [_get_overlaps] and [_get_mode_types] *)

(** [acc = []; for x in l: acc.append(f(x))], giving [acc]. *)
Fixpoint for_each {A B} (f : A -> M B) (l : list A) : M (list B) :=
  match l with
  | [] => ret []
  | x :: rest =>
      let* y := f x in
      let* ys := for_each f rest in
      ret (y :: ys)
  end.

(** [mode.fields[name]]. *)
Definition field (mode : VMode) (name : string) : M ndarray :=
  expect (KeyError name) (fields mode !! name).

(** [areas = [np.sum(np.abs(e)**2) for e in fs]; areas /= np.sum(areas);
    areas *= 100]. *)
Definition areas (fs : list ndarray) : list npfloat :=
  let a := map energy fs in
  let total := Rsum a in
  map (np_scale 100) (map (fun x => np_divide x total) a).

(** The body of the loop of [_get_overlaps]. *)
Definition mode_areas (mode : VMode) : M (list npfloat) :=
  let* ex := field mode "Ex" in
  let* ey := field mode "Ey" in
  let* ez := field mode "Ez" in
  let* hx := field mode "Hx" in
  let* hy := field mode "Hy" in
  let* hz := field mode "Hz" in
  let areas_e := areas [ex; ey; ez] in
  let areas_h := areas [hx; hy; hz] in
  ret (areas_e ++ areas_h).

(** [_get_overlaps(self, fields)]: the argument is not used; the loop runs
    over [self._ms.modes]. *)
Definition _get_overlaps (_fields : ModesRef) : M (list (list npfloat)) :=
  let* m := ms_get_modes in
  let* ms := fv_list m in
  for_each mode_areas ms.

Definition labels : gmap nat string :=
  {[ 0%nat := "qTE"; 1%nat := "qTM"; 2%nat := "qTE/qTM" ]}.

(** The body of the loop of [_get_mode_types]. *)
Definition mode_type (overlap : list npfloat) : M (string * npfloat) :=
  let* idx := expect ValueError (np_argmax (take 3 overlap)) in
  let* label := expect (KeyError (pretty idx)) (labels !! idx) in
  let* v := expect IndexError (overlap !! idx) in
  ret (label, np_round2 v).

Definition _get_mode_types : M (list (string * npfloat)) :=
  let* s := get_self in
  let* ovs := expect TypeError (overlaps s) in
  for_each mode_type ovs.

(** *** [_solve] *)

(** [ModeSolverSemiVectorial._solve]. *)
Definition _solve_semi_vectorial (method : string) (structure : Structure)
    (wavelength : R) : M Result :=
  set_self (set_structure structure) >>
  run_engine_sv method structure wavelength >>
  let* neff := ms_get_neff in
  set_self (set_n_effs neff) >>
  let* s := get_self in
  let* r_modes :=
    (if _mode_profiles s then
       let* m := ms_get_modes in
       let* l := sv_ref m in
       let* m0 := list_get l 0 in
       list_set l 0 (np_abs m0) >>
       let* m0' := list_get l 0 in
       set_self (set_initial_mode_guess (Some (np_abs m0'))) >>
       ret (Some m)
     else ret None) in
  let* m := ms_get_modes in
  set_self (set_modes m) >>
  ret {| r_n_effs := neff; r_modes := r_modes |}.

(** [ModeSolverFullyVectorial._solve]. *)
Definition _solve_fully_vectorial (structure : Structure) (wavelength : R)
    : M Result :=
  set_self (set_structure structure) >>
  run_engine_fv structure wavelength >>
  let* neff := ms_get_neff in
  set_self (set_n_effs neff) >>
  let* m := ms_get_modes in
  set_self (set_modes m) >>
  let* ovs := _get_overlaps m in
  set_self (set_overlaps ovs) >>
  let* mts := _get_mode_types in
  set_self (set_mode_types mts) >>
  set_self (set_initial_mode_guess None) >>
  ret {| r_n_effs := neff; r_modes := Some m |}.

(** The abstract method [_solve], dispatched on the class of [self]. *)
Definition _solve (structure : Structure) (wavelength : R) : M Result :=
  let* s := get_self in
  match kind s with
  | SemiVectorial method => _solve_semi_vectorial method structure wavelength
  | FullyVectorial => _solve_fully_vectorial structure wavelength
  end.

Definition solve (structure : Structure) (wavelength : R) : M Result :=
  _solve structure wavelength.

(** *** Output *)

(** [if filename:] *)
Definition truthy (filename : string) : bool :=
  match filename with EmptyString => false | _ => true end.

Definition write_row (filename : string) (row : Row) : M unit :=
  modify (fun w =>
    with_files (<[filename := default [] (files w !! filename) ++ [row]]> (files w)) w).

(** The loop of [_write_n_effs_to_file]; [i] is the counter of
    [enumerate]. *)
Fixpoint write_rows (filename : string) (x_vals : option (list R)) (i : nat)
    (infos : list Result) : M unit :=
  match infos with
  | [] => ret tt
  | info :: rest =>
      let n_effs := r_n_effs info in
      let* x :=
        match x_vals with
        | Some xs => let* x := expect IndexError (xs !! i) in ret (XFloat x)
        | None => ret (XIndex i)
        end in
      let* n0 := expect IndexError (n_effs !! 0%nat) in
      write_row filename {| row_x := x; row_y := Cplx.re n0 |} >>
      write_rows filename x_vals (S i) rest
  end.

(** [_write_n_effs_to_file]; [open(filename, 'w')] leaves an empty file.
    Both callers discard the value returned. *)
Definition _write_n_effs_to_file (n_effs : list Result) (filename : string)
    (x_vals : option (list R)) : M unit :=
  modify (fun w => with_files (<[filename := []]> (files w)) w) >>
  write_rows filename x_vals 0 n_effs.

(** [_plot_n_effs]: the request handed to gnuplot. *)
Definition _plot_n_effs (filename_n_effs xlabel title : string) : M unit :=
  modify (with_plot {| plot_script := "n_effs.gpi";
                       plot_title := title;
                       plot_xlabel := xlabel;
                       plot_ylabel := "n_{eff}";
                       plot_filename_data := filename_n_effs |}).

(** *** Sweeps *)

Definition solve_sweep_structure (structures : list Structure) (wavelength : R)
    (filename : string) (plot : bool) : M (list Result) :=
  let* n_effs := for_each (fun s => solve s wavelength) structures in
  (if truthy filename then
     _write_n_effs_to_file n_effs filename None >>
     if plot then
       _plot_n_effs filename "Structure number" "n_{effs} vs structure"
     else ret tt
   else ret tt) >>
  ret n_effs.

Definition solve_sweep_wavelength (structure : Structure) (wavelengths : list R)
    (filename : string) (plot : bool) : M (list Result) :=
  let* n_effs := for_each (fun w => solve structure w) wavelengths in
  (if truthy filename then
     _write_n_effs_to_file n_effs filename (Some wavelengths) >>
     if plot then
       _plot_n_effs filename "Wavelength" "n_{effs} vs wavelength"
     else ret tt
   else ret tt) >>
  ret n_effs.

(** *** Group index *)

(** [zip(a, b, c)]. *)
Fixpoint zip3 {A} (a b c : list A) : list (A * A * A) :=
  match a, b, c with
  | x :: a', y :: b', z :: c' => (x, y, z) :: zip3 a' b' c'
  | _, _, _ => []
  end.

(** [n_ctr - wavelength*(n_frw-n_bck)/(2*wavelength_step)] on the complex
    scalars of the engine's [neff]: the product is divided by the float
    [2*wavelength_step], which may be zero. *)
Definition group_index (wavelength wavelength_step : R) (n_ctr n_bck n_frw : C)
    : npcomplex :=
  np_csub n_ctr
    (np_cdivide (Cplx.mul (Cplx.of_real wavelength) (Cplx.sub n_frw n_bck))
                (2 * wavelength_step)).

(** [self.n_effs], read for iteration. *)
Definition get_n_effs : M (list C) :=
  let* s := get_self in expect TypeError (n_effs s).

Definition solve_ng (structure_ctr structure_bck structure_frw : Structure)
    (wavelength wavelength_step : R) : M (list npcomplex) :=
  solve structure_ctr wavelength >>
  let* n_ctrs := get_n_effs in
  solve structure_bck (wavelength - wavelength_step) >>
  let* n_bcks := get_n_effs in
  solve structure_frw (wavelength + wavelength_step) >>
  let* n_frws := get_n_effs in
  ret (map (fun '(n_ctr, n_bck, n_frw) =>
              group_index wavelength wavelength_step n_ctr n_bck n_frw)
           (zip3 n_ctrs n_bcks n_frws)).

(** *** Vocabulary of the properties *)

(** The attributes that no method assigns after construction. *)
Definition same_config (s s' : Solver) : Prop :=
  kind s' = kind s /\ _n_eigs s' = _n_eigs s /\ _tol s' = _tol s /\
  _boundary s' = _boundary s /\ _mode_profiles s' = _mode_profiles s /\
  _n_eff_guess s' = _n_eff_guess s.

(** The engine call that a semi-vectorial solve makes from state [w]. *)
Definition sv_call (w : World) (method : string) (structure : Structure)
    (wavelength : R) : SVCall Structure :=
  {| sv_wavelength := wavelength; sv_structure := structure;
     sv_boundary := _boundary (self w); sv_method := method;
     sv_n_eigs := _n_eigs (self w); sv_tol := _tol (self w);
     sv_mode_profiles := _mode_profiles (self w);
     sv_guess := _initial_mode_guess (self w) |}.

(** The engine call that a fully-vectorial solve makes from state [w]. *)
Definition fv_call (w : World) (structure : Structure) (wavelength : R)
    : FVCall Structure :=
  {| fv_wavelength := wavelength; fv_structure := structure;
     fv_boundary := _boundary (self w);
     fv_n_eigs := _n_eigs (self w); fv_tol := _tol (self w);
     fv_n_eff_guess := _n_eff_guess (self w);
     fv_guess := _initial_mode_guess (self w) |}.

(** The six field arrays of a mode. *)
Definition has_fields (mode : VMode) (ex ey ez hx hy hz : ndarray) : Prop :=
  fields mode !! "Ex" = Some ex /\ fields mode !! "Ey" = Some ey /\
  fields mode !! "Ez" = Some ez /\ fields mode !! "Hx" = Some hx /\
  fields mode !! "Hy" = Some hy /\ fields mode !! "Hz" = Some hz.

(** A mode that has all six fields. *)
Definition six_fields (mode : VMode) : Prop :=
  exists ex ey ez hx hy hz, has_fields mode ex ey ez hx hy hz.

(** What [_get_overlaps] computes for one mode. *)
Definition overlap_of (mode : VMode) (ov : list npfloat) : Prop :=
  exists ex ey ez hx hy hz,
    has_fields mode ex ey ez hx hy hz /\
    ov = areas [ex; ey; ez] ++ areas [hx; hy; hz].

(** What [_get_mode_types] computes for one overlap vector. *)
Definition mode_type_of (ov : list npfloat) (mt : string * npfloat) : Prop :=
  exists idx label v,
    np_argmax (take 3 ov) = Some idx /\ labels !! idx = Some label /\
    ov !! idx = Some v /\ mt = (label, np_round2 v).

(** The constructor call and the [solve] call that a solve from [w] makes
    on the engine. *)
Definition engine_new (w : World) (structure : Structure) (wavelength : R)
    : option exn :=
  match kind (self w) with
  | SemiVectorial method =>
      ms_new_sv wavelength structure (_boundary (self w)) method
  | FullyVectorial => ms_new_fv wavelength structure (_boundary (self w))
  end.

(** The arguments of that [solve] call. *)
Definition next_call (w : World) (structure : Structure) (wavelength : R)
    : Call Structure :=
  match kind (self w) with
  | SemiVectorial method => CallSV (sv_call w method structure wavelength)
  | FullyVectorial => CallFV (fv_call w structure wavelength)
  end.

(** The exception, if any, with which the engine's [solve] answers. *)
Definition engine_error (c : Call Structure) : option exn :=
  match c with
  | CallSV c => match ms_solve_sv c with inl e => Some e | inr _ => None end
  | CallFV c => match ms_solve_fv c with inl e => Some e | inr _ => None end
  end.

(** Every list of [w] is at the same address in [w']; [w'] may hold more
    lists. *)
Definition heap_grows (w w' : World) : Prop :=
  exists ext, heap w' = heap w ++ ext.

(** Two states with the same solver object, heap and engine calls; they
    may differ in the files and plots. *)
Definition same_core (w w' : World) : Prop :=
  self w' = self w /\ heap w' = heap w /\ calls w' = calls w.

(** The list that [solve_ng] builds from three sequences. *)
Definition group_indices (wavelength wavelength_step : R)
    (n_ctrs n_bcks n_frws : list C) : list npcomplex :=
  map (fun '(n_ctr, n_bck, n_frw) =>
         group_index wavelength wavelength_step n_ctr n_bck n_frw)
      (zip3 n_ctrs n_bcks n_frws).

(** One later operation on the solver, whatever its outcome. *)
Inductive operation : World -> World -> Prop :=
| op_solve structure wavelength w o w' :
    solve structure wavelength w = (o, w') -> operation w w'
| op_sweep_structure structures wavelength filename plot w o w' :
    solve_sweep_structure structures wavelength filename plot w = (o, w') ->
    operation w w'
| op_sweep_wavelength structure wavelengths filename plot w o w' :
    solve_sweep_wavelength structure wavelengths filename plot w = (o, w') ->
    operation w w'
| op_solve_ng ctr bck frw wavelength step w o w' :
    solve_ng ctr bck frw wavelength step w = (o, w') -> operation w w'.

(** The engine calls of a warm-started run: the first call gets the guess
    [g]; each later call gets the magnitude of the first mode that the
    engine returned for the call before it. *)
Fixpoint warm_chain (g : option ndarray) (cs : list (Call Structure)) : Prop :=
  match cs with
  | [] => True
  | c :: rest =>
      call_guess c = g /\
      match rest with
      | [] => True
      | _ :: _ =>
          exists c0 neff m0 ms,
            c = CallSV c0 /\
            ms_solve_sv c0 = inr (neff, Some (m0 :: ms)) /\
            warm_chain (Some (np_abs m0)) rest
      end
  end.

(** The engine calls of a run that carries no field forward: the first call
    gets the guess [g], the later ones none; all get [n_eff_guess]. *)
Definition cold_chain (g : option ndarray) (n_eff_guess : option R)
    (cs : list (Call Structure)) : Prop :=
  Forall (fun c => call_n_eff_guess c = n_eff_guess) cs /\
  match cs with
  | [] => True
  | c :: rest =>
      call_guess c = g /\ Forall (fun c => call_guess c = None) rest
  end.

(** The effective indices with which the engine's [solve] answers a
    call. *)
Definition engine_neff (c : Call Structure) : option (list C) :=
  match c with
  | CallSV c =>
      match ms_solve_sv c with inr out => Some out.1 | inl _ => None end
  | CallFV c =>
      match ms_solve_fv c with inr out => Some out.1 | inl _ => None end
  end.

(** The row that the loop of [_write_n_effs_to_file] writes for the result
    [info] at position [i]; there is none when [x_vals[i]] or
    [info['n_effs'][0]] does not exist. *)
Definition row_of (x_vals : option (list R)) (i : nat) (info : Result)
    : option Row :=
  match x_vals with
  | Some xs =>
      match xs !! i, r_n_effs info !! 0%nat with
      | Some x, Some n0 => Some {| row_x := XFloat x; row_y := Cplx.re n0 |}
      | _, _ => None
      end
  | None =>
      match r_n_effs info !! 0%nat with
      | Some n0 => Some {| row_x := XIndex i; row_y := Cplx.re n0 |}
      | None => None
      end
  end.

End Code.

(** ** Paths, mode files and mode plots *)

(** [s.rfind(c)]: the last position of the character [c]; [None] is
    Python's [-1]. *)
Fixpoint rfind (c : Ascii.ascii) (s : string) : option nat :=
  match s with
  | EmptyString => None
  | String a s' =>
      match rfind c s' with
      | Some i => Some (S i)
      | None => if Ascii.eqb a c then Some 0%nat else None
      end
  end.

Definition index_Z (i : option nat) : Z :=
  match i with Some i => Z.of_nat i | None => (-1)%Z end.

(** [s[:n]] and [s[n:]]. *)
Fixpoint str_take (n : nat) (s : string) : string :=
  match n, s with
  | S n', String a s' => String a (str_take n' s')
  | _, _ => EmptyString
  end.

Fixpoint str_drop (n : nat) (s : string) : string :=
  match n, s with
  | S n', String _ s' => str_drop n' s'
  | _, _ => s
  end.

(** The loop of [os.path.splitext] that skips leading dots: from
    [filenameIndex], for [steps] positions, is there a character that is not
    a dot? *)
Fixpoint skip_leading_dots (p : string) (filenameIndex steps : nat) : bool :=
  match steps with
  | O => false
  | S k =>
      match String.get filenameIndex p with
      | Some "."%char => skip_leading_dots p (S filenameIndex) k
      | _ => true
      end
  end.

(** [os.path.splitext(p)] of [posixpath]: the extension starts at the last
    dot, when that dot comes after the last slash and after a character of
    the file name that is not a dot. *)
Definition splitext (p : string) : string * string :=
  let sepIndex := index_Z (rfind "/" p) in
  let dotIndex := index_Z (rfind "." p) in
  if (sepIndex <? dotIndex)%Z then
    let filenameIndex := Z.to_nat (sepIndex + 1) in
    if skip_leading_dots p filenameIndex (Z.to_nat dotIndex - filenameIndex)
    then (str_take (Z.to_nat dotIndex) p, str_drop (Z.to_nat dotIndex) p)
    else (p, EmptyString)
  else (p, EmptyString).

(** [_ModeSolver._get_mode_filename]; [str(mode_number)] is the decimal
    numeral. *)
Definition _get_mode_filename (field_name : string) (mode_number : nat)
    (filename : string) : string :=
  let filename_prefix := (splitext filename).1 in
  let filename_ext := (splitext filename).2 in
  filename_prefix +:+ "_" +:+ field_name +:+ "_" +:+ pretty mode_number
    +:+ filename_ext.

(** The arguments that [_plot_mode] hands to gnuplot. *)
Record ModePlot (Structure : Type) := {
  mp_title : string;
  mp_structure : Structure;
  mp_filename_data : string;
  mp_filename_image : string;
  mp_e2_x : R;
  mp_e2_y : R;
  mp_ctr_x : R;
  mp_ctr_y : R
}.
Arguments mp_title {Structure} _.
Arguments mp_structure {Structure} _.
Arguments mp_filename_data {Structure} _.
Arguments mp_filename_image {Structure} _.
Arguments mp_e2_x {Structure} _.
Arguments mp_e2_y {Structure} _.
Arguments mp_ctr_x {Structure} _.
Arguments mp_ctr_y {Structure} _.

(** The directories, the mode files and the mode plots.  A mode file is kept
    as the array of the values on its lines, first line first; the text of a
    value is [str(v)]. *)
Record Disk (Structure : Type) := {
  dirs : gset string;
  mode_files : gmap string ndarray;
  mode_plots : list (ModePlot Structure)
}.
Arguments dirs {Structure} _.
Arguments mode_files {Structure} _.
Arguments mode_plots {Structure} _.

(** The result of [anal.fit_gaussian]: [A], [centre] and [sigma_2]. *)
Record GaussFit := {
  fit_A : R;
  fit_centre : R * R;
  fit_sigma_2 : R * R
}.

(** What the front end takes from Python and from [_analyse]:
    [format_float d x] is the text of [x] with [d] decimals (['%.3f' % x],
    ['{:.1f}'.format(x)]), and [fit_gaussian s a] is
    [anal.fit_gaussian(s.xc, s.yc, a)]. *)
Class Collaborators (Structure : Type) := {
  format_float : nat -> npfloat -> string;
  fit_gaussian : Structure -> ndarray -> GaussFit
}.

Section Output.

Context {Structure : Type} {tools : Collaborators Structure}.

Local Abbreviation World := (World Structure).
Local Abbreviation Disk := (Disk Structure).

(** Computations that read the solver and write to the disk. *)
Definition D (A : Type) : Type := World -> Disk -> Outcome A * Disk.

Definition retD {A} (a : A) : D A := fun _ d => (Return a, d).

Definition raiseD {A} (e : exn) : D A := fun _ d => (Raise e, d).

Definition bindD {A B} (c : D A) (k : A -> D B) : D B :=
  fun w d =>
    match c w d with
    | (Return a, d') => k a w d'
    | (Raise e, d') => (Raise e, d')
    end.

Definition expectD {A} (e : exn) (o : option A) : D A :=
  match o with Some a => retD a | None => raiseD e end.

Definition selfD : D (Solver Structure) := fun w d => (Return (self w), d).

Definition heapD : D (list (list ndarray)) := fun w d => (Return (heap w), d).

End Output.

Arguments D : clear implicits.

Notation "'let+' x ':=' c 'in' k" := (bindD c (fun x => k))
  (at level 10, x name, c at level 100, k at level 200,
   format "'[v' 'let+'  x  ':='  c  'in' '/' k ']'").
Notation "c1 '>>+' c2" := (bindD c1 (fun _ => c2))
  (at level 100, c2 at level 200, right associativity,
   format "'[v' c1  '>>+' '/' c2 ']'").

Section OutputCode.

Context {Structure : Type} {tools : Collaborators Structure}.

Local Abbreviation World := (World Structure).
Local Abbreviation Disk := (Disk Structure).
Local Abbreviation D := (D Structure).

(** [mode[::-1]]: the rows, last row first. *)
Definition flip_rows (mode : ndarray) : ndarray :=
  match mode with
  | RealArr rows => RealArr (reverse rows)
  | CplxArr rows => CplxArr (reverse rows)
  end.

(** [_write_mode_to_file]: one line per row of [mode[::-1]]; the value
    returned is [mode]. *)
Definition _write_mode_to_file (mode : ndarray) (filename : string) : D ndarray :=
  fun _ d =>
    (Return mode,
     {| dirs := dirs d;
        mode_files := <[filename := flip_rows mode]> (mode_files d);
        mode_plots := mode_plots d |}).

(** [if x:] on a complex number, on a float and on a string. *)
Definition truthy_complex (z : C) : bool :=
  if Req_dec_T (Cplx.re z) 0 then
    if Req_dec_T (Cplx.im z) 0 then false else true
  else true.

Definition truthy_float (x : npfloat) : bool :=
  match x with
  | Finite r => if Req_dec_T r 0 then false else true
  | _ => true
  end.

(** The title that [_plot_mode] builds; [None] for [n_eff] and [area] is
    Python's [None]. *)
Definition plot_mode_title (field_name : string) (mode_number : nat)
    (n_eff : option C) (subtitle : string) (area : option npfloat)
    : exn + string :=
  match field_name with
  | EmptyString => inl IndexError
  | String c0 tail =>
      let fn := String c0 "_{" +:+ tail +:+ "}" in
      let title := "Mode " +:+ pretty mode_number +:+ " |" +:+ fn
                   +:+ "| Profile" in
      let title :=
        match n_eff with
        | Some z =>
            if truthy_complex z
            then title +:+ ", n_{eff}: "
                 +:+ format_float 3 (Finite (Cplx.re z))
            else title
        | None => title
        end in
      let title_area :=
        match area with
        | Some a =>
            if truthy_float a then
              match tail with
              | EmptyString => inl IndexError
              | String c1 _ =>
                  inr (title +:+ ", A_" +:+ String c1 ": "
                       +:+ format_float 1 a +:+ "\%")
              end
            else inr title
        | None => inr title
        end in
      match title_area with
      | inl e => inl e
      | inr title =>
          inr (if truthy subtitle
               then title +:+ String (ascii_of_nat 10) "{/*0.7 "
                    +:+ subtitle +:+ "}"
               else title)
      end
  end.

(** [_plot_mode]. *)
Definition _plot_mode (field_name : string) (mode_number : nat)
    (filename_mode : string) (n_eff : option C) (subtitle : string)
    (e2_x e2_y ctr_x ctr_y : R) (area : option npfloat) : D unit :=
  let+ title := (match plot_mode_title field_name mode_number n_eff
                         subtitle area with
                 | inl e => raiseD e
                 | inr t => retD t
                 end) in
  let+ s := selfD in
  let+ structure := expectD (AttributeError "_structure") (_structure s) in
  let filename_image := (splitext filename_mode).1 +:+ ".png" in
  fun _ d =>
    (Return tt,
     {| dirs := dirs d;
        mode_files := mode_files d;
        mode_plots := mode_plots d ++
          [{| mp_title := title; mp_structure := structure;
              mp_filename_data := filename_mode;
              mp_filename_image := filename_image;
              mp_e2_x := e2_x; mp_e2_y := e2_y;
              mp_ctr_x := ctr_x; mp_ctr_y := ctr_y |}] |}).

(** [if not os.path.isdir(dir): os.mkdir(dir)]. *)
Definition ensure_dir (dir : string) : D unit :=
  fun _ d =>
    (Return tt,
     {| dirs := {[ dir ]} ∪ dirs d;
        mode_files := mode_files d;
        mode_plots := mode_plots d |}).

(** The subtitle of the first mode's plot in
    [ModeSolverSemiVectorial.write_modes_to_file]. *)
Definition fit_subtitle (fit : GaussFit) : string :=
  "E_{max} = " +:+ format_float 3 (Finite (fit_A fit))
  +:+ ", (x_{max}, y_{max}) = ("
  +:+ format_float 3 (Finite (fit_centre fit).1) +:+ ", "
  +:+ format_float 3 (Finite (fit_centre fit).2) +:+ "), MFD_{x} = "
  +:+ format_float 3 (Finite (fit_sigma_2 fit).1) +:+ ", MFD_{y} = "
  +:+ format_float 3 (Finite (fit_sigma_2 fit).2).

(** [self.n_effs[i]]. *)
Definition n_eff_at (i : nat) : D C :=
  let+ s := selfD in
  let+ n := expectD TypeError (n_effs s) in
  expectD IndexError (n !! i).

(** The loop of [ModeSolverSemiVectorial.write_modes_to_file]; [i] is the
    counter of [enumerate]. *)
Fixpoint write_modes_loop (method filename : string) (plot analyse : bool)
    (i : nat) (modes : list ndarray) : D unit :=
  match modes with
  | [] => retD tt
  | mode :: rest =>
      let filename_mode := _get_mode_filename method i filename in
      _write_mode_to_file (np_abs mode) filename_mode >>+
      (if plot then
         if Nat.eqb i 0 && analyse then
           let+ s := selfD in
           let+ structure :=
             expectD (AttributeError "_structure") (_structure s) in
           let fit := fit_gaussian structure (np_abs mode) in
           let subtitle := fit_subtitle fit in
           let+ n_eff := n_eff_at i in
           _plot_mode method i filename_mode (Some n_eff) subtitle
             (fit_sigma_2 fit).1 (fit_sigma_2 fit).2
             (fit_centre fit).1 (fit_centre fit).2 None
         else
           let+ n_eff := n_eff_at i in
           _plot_mode method i filename_mode (Some n_eff) EmptyString
             0 0 0 0 None
       else retD tt) >>+
      write_modes_loop method filename plot analyse (S i) rest
  end.

(** [ModeSolverSemiVectorial.write_modes_to_file]. *)
Definition write_modes_to_file (filename : string) (plot analyse : bool)
    : D (option ModesRef) :=
  let modes_directory := "./modes_semi_vec/" in
  ensure_dir modes_directory >>+
  let filename := modes_directory +:+ filename in
  let+ s := selfD in
  let+ ms := expectD (AttributeError "_ms") (_ms s) in
  let+ m := expectD (AttributeError "modes") (ms_modes ms) in
  let+ l := (match m with
             | SVModes l => retD l
             | FVModes _ => raiseD TypeError
             end) in
  let+ h := heapD in
  let+ method := (match kind s with
                  | SemiVectorial method => retD method
                  | FullyVectorial =>
                      raiseD (AttributeError "_semi_vectorial_method")
                  end) in
  write_modes_loop method filename plot analyse 0 (deref h l) >>+
  retD (modes s).

End OutputCode.

(** ** A small engine *)

Module Demo.

(** Structures are numbered.  The engine finds one mode; its effective
    index is [3 - wavelength]; on structure 13 it does not converge.  The
    semi-vectorial engine returns the field [m0]; the fully-vectorial one
    returns a mode without any field on structure 0, and a mode with more
    energy in [Ex] than in [Ey] otherwise. *)
Definition zero_field : ndarray := RealArr [[0]].

Definition mode_of (ex ey ez hx hy hz : ndarray) : VMode :=
  {| fields := <["Ex" := ex]> (<["Ey" := ey]> (<["Ez" := ez]>
                 (<["Hx" := hx]> (<["Hy" := hy]> (<["Hz" := hz]> ∅))))) |}.

Definition zero_mode : VMode :=
  mode_of zero_field zero_field zero_field zero_field zero_field zero_field.

Definition te_mode : VMode :=
  mode_of (RealArr [[3]]) (RealArr [[1]]) zero_field
          zero_field (RealArr [[2]]) zero_field.

Definition lib (m0 : ndarray) : ModeSolverLib nat :=
  {| ms_new_sv := fun _ _ _ _ => None;
     ms_solve_sv := fun c =>
       if Nat.eqb (sv_structure c) 13
       then inl (OtherError "NonConvergenceError")
       else inr ([Cplx.of_real (3 - sv_wavelength c)], Some [m0]);
     ms_new_fv := fun _ _ _ => None;
     ms_solve_fv := fun c =>
       if Nat.eqb (fv_structure c) 13
       then inl (OtherError "NonConvergenceError")
       else inr ([Cplx.of_real (3 - fv_wavelength c)],
                 Some [if Nat.eqb (fv_structure c) 0
                       then zero_mode else te_mode]) |}.

Definition field_3_4i : ndarray := CplxArr [[Cplx.mk 3 4]].

Definition sv : Solver nat :=
  ModeSolverSemiVectorial 1 0 "0000" true None "Ex".

Definition fv : Solver nat :=
  ModeSolverFullyVectorial 1 (1 / 1000) "0000" None (Some (3 / 2)).

(** A second engine, for the edge cases.  Its constructor raises on
    structure 24.  The semi-vectorial [solve] finds no effective index on
    structure 20, sets no [modes] on structure 21, sets an empty list of
    modes on structure 22 and two modes for one effective index on
    structure 23.  The fully-vectorial [solve] returns a mode that has the
    fields [Ex] and [Ey] only. *)
Definition no_ez_mode : VMode :=
  {| fields := <["Ex" := zero_field]> (<["Ey" := zero_field]> ∅) |}.

Definition edge_lib : ModeSolverLib nat :=
  {| ms_new_sv := fun _ s _ _ =>
       if Nat.eqb s 24 then Some ValueError else None;
     ms_solve_sv := fun c =>
       if Nat.eqb (sv_structure c) 20 then inr ([], Some [zero_field])
       else if Nat.eqb (sv_structure c) 21 then inr ([Cplx.of_real 3], None)
       else if Nat.eqb (sv_structure c) 22 then inr ([Cplx.of_real 3], Some [])
       else if Nat.eqb (sv_structure c) 23
            then inr ([Cplx.of_real 3], Some [field_3_4i; zero_field])
       else inr ([Cplx.of_real 3], Some [field_3_4i]);
     ms_new_fv := fun _ s _ =>
       if Nat.eqb s 24 then Some ValueError else None;
     ms_solve_fv := fun c => inr ([Cplx.of_real 3], Some [no_ez_mode]) |}.

(** A third engine, for a lossy waveguide: the effective index of its one
    mode is [3 - wavelength + 1j]. *)
Definition lossy_lib : ModeSolverLib nat :=
  {| ms_new_sv := fun _ _ _ _ => None;
     ms_solve_sv := fun c =>
       inr ([Cplx.mk (3 - sv_wavelength c) 1], Some [zero_field]);
     ms_new_fv := fun _ _ _ => None;
     ms_solve_fv := fun c =>
       inr ([Cplx.mk (3 - fv_wavelength c) 1], Some [te_mode]) |}.

(** Stand-ins for the number formatting and for [anal.fit_gaussian]. *)
Definition tools : Collaborators nat :=
  {| format_float := fun _ _ => "0";
     fit_gaussian := fun _ _ =>
       {| fit_A := 1; fit_centre := (0, 0); fit_sigma_2 := (1, 1) |} |}.

(** A disk without directories, files and plots. *)
Definition empty_disk : Disk nat :=
  {| dirs := ∅; mode_files := ∅; mode_plots := [] |}.

End Demo.

(** * Properties *)

(** ** Arrays and numbers *)

Lemma abs_rows_idem (a : ndarray) : abs_rows (np_abs a) = abs_rows a.
Proof.
  destruct a as [rows|rows]; simpl; rewrite map_map;
    apply map_ext; intros row; rewrite map_map; apply map_ext; intros x.
  - apply Rabs_Rabsolu.
  - apply Rabs_pos_eq, sqrt_pos.
Qed.

Lemma np_abs_idem (a : ndarray) : np_abs (np_abs a) = np_abs a.
Proof. unfold np_abs at 1 3. f_equal. apply abs_rows_idem. Qed.

Lemma Rsum_nonneg (l : list R) : Forall (fun x => 0 <= x) l -> 0 <= Rsum l.
Proof. induction 1; simpl; lra. Qed.

Lemma Rsum_zero (l : list R) :
  Forall (fun x => 0 <= x) l -> Rsum l = 0 -> Forall (fun x => x = 0) l.
Proof.
  induction 1 as [|x l Hx Hl IH]; simpl; intros H; constructor.
  - pose proof (Rsum_nonneg l Hl). lra.
  - apply IH. pose proof (Rsum_nonneg l Hl). lra.
Qed.

Lemma Rsum_all_zero (l : list R) : Forall (fun x => x = 0) l -> Rsum l = 0.
Proof. induction 1; simpl; lra. Qed.

Lemma squares_nonneg (row : list R) :
  Forall (fun x => 0 <= x) (map (fun x => x * x) row).
Proof. induction row; simpl; constructor; [nra|done]. Qed.

Lemma row_sums_nonneg (rows : list (list R)) :
  Forall (fun x => 0 <= x) (map Rsum (np_square_rows rows)).
Proof.
  induction rows as [|row rows IH]; simpl; constructor; [|done].
  apply Rsum_nonneg, squares_nonneg.
Qed.

Lemma energy_nonneg (a : ndarray) : 0 <= energy a.
Proof. apply Rsum_nonneg, row_sums_nonneg. Qed.

(** The energy vanishes exactly for the zero field. *)
Lemma energy_zero_iff (a : ndarray) : energy a = 0 <-> all_zero a.
Proof.
  unfold energy, all_zero, np_sum_rows. generalize (abs_rows a) as rows.
  intros rows. split.
  - intros H. apply Rsum_zero in H; [|apply row_sums_nonneg].
    induction rows as [|row rows IH]; simpl in *; [constructor|].
    inversion H as [|? ? Hrow Hrows]; subst.
    constructor; [|by apply IH].
    apply Rsum_zero in Hrow; [|apply squares_nonneg].
    clear -Hrow. induction row as [|x row IH]; [constructor|].
    inversion Hrow; subst. constructor; [nra|by apply IH].
  - intros H. apply Rsum_all_zero.
    induction H as [|row rows Hrow Hrows IH]; simpl; constructor; [|done].
    apply Rsum_all_zero.
    clear -Hrow. induction Hrow; simpl; constructor; [subst; lra|done].
Qed.

Lemma np_divide_nonzero (x y : R) : y <> 0 -> np_divide x y = Finite (x / y).
Proof. intros Hy. unfold np_divide. by destruct (Req_dec_T y 0). Qed.

Lemma np_divide_zero_zero : np_divide 0 0 = NaN.
Proof.
  unfold np_divide.
  destruct (Req_dec_T 0 0) as [_|Hn]; [|by destruct Hn].
  destruct (Req_dec_T 0 0) as [_|Hn]; [done|by destruct Hn].
Qed.

(** The three percentages of one triplet of fields. *)
Lemma areas_positive (a b c : ndarray) :
  let total := energy a + energy b + energy c in
  0 < total ->
  areas [a; b; c] =
    [Finite (energy a / total * 100); Finite (energy b / total * 100);
     Finite (energy c / total * 100)].
Proof.
  intros total Ht. unfold areas. simpl.
  replace (energy a + (energy b + (energy c + 0))) with total
    by (unfold total; lra).
  rewrite !np_divide_nonzero by lra. done.
Qed.

Lemma areas_zero (a b c : ndarray) :
  energy a + energy b + energy c = 0 -> areas [a; b; c] = [NaN; NaN; NaN].
Proof.
  intros Ht. unfold areas. simpl.
  pose proof (energy_nonneg a). pose proof (energy_nonneg b).
  pose proof (energy_nonneg c).
  replace (energy a + (energy b + (energy c + 0))) with 0 by lra.
  replace (energy a) with 0 by lra. replace (energy b) with 0 by lra.
  replace (energy c) with 0 by lra.
  rewrite np_divide_zero_zero. done.
Qed.

Lemma np_argmax_finite3 (a b c : R) :
  exists idx,
    np_argmax [Finite a; Finite b; Finite c] = Some idx /\ first_max3 a b c idx.
Proof.
  unfold np_argmax, first_max3. simpl.
  destruct (Rle_dec b a); simpl.
  - destruct (Rle_dec c a); simpl; eexists; (split; [reflexivity|]).
    + left. repeat split; lra.
    + right; right. repeat split; lra.
  - destruct (Rle_dec c b); simpl; eexists; (split; [reflexivity|]).
    + right; left. repeat split; lra.
    + right; right. repeat split; lra.
Qed.

Lemma argmax_scan_bound (l : list npfloat) (best : npfloat) (bi i : nat) :
  (bi < i)%nat -> (argmax_scan best bi i l < i + length l)%nat.
Proof.
  revert best bi i. induction l as [|x l IH]; intros best bi i Hb; simpl.
  - lia.
  - destruct (np_isnan best); [lia|].
    destruct (np_not_le x best).
    + specialize (IH x i (S i)). lia.
    + specialize (IH best bi (S i)). lia.
Qed.

Lemma np_argmax_bound (l : list npfloat) (idx : nat) :
  np_argmax l = Some idx -> (idx < length l)%nat.
Proof.
  destruct l as [|x l]; simpl; intros H; simplify_eq.
  pose proof (argmax_scan_bound l x 0 1). lia.
Qed.

Lemma labels_lookup (idx : nat) :
  (idx < 3)%nat ->
  labels !! idx = ["qTE"; "qTM"; "qTE/qTM"] !! idx.
Proof.
  intros H. destruct idx as [|[|[|?]]]; [reflexivity..|lia].
Qed.

(** ** The heap *)

Lemma deref_alloc (h : list (list ndarray)) (l : list ndarray) :
  deref (h ++ [l]) (length h) = l.
Proof. unfold deref. by rewrite list_lookup_middle. Qed.

Lemma deref_old (h : list (list ndarray)) (l : list ndarray) (a : loc) :
  (a < length h)%nat -> deref (h ++ [l]) a = deref h a.
Proof. intros Ha. unfold deref. by rewrite lookup_app_l. Qed.

Lemma store_alloc (h : list (list ndarray)) (l l' : list ndarray) :
  <[length h := l']> (h ++ [l]) = h ++ [l'].
Proof.
  rewrite insert_app_r_alt by lia. by rewrite Nat.sub_diag.
Qed.

(** ** One solve *)

Section SolveFacts.

Context {Structure : Type} {lib : ModeSolverLib Structure}.

Local Abbreviation World := (World Structure).

Lemma solve_sv_returns (w w' : World) method structure wavelength r :
  kind (self w) = SemiVectorial method ->
  solve structure wavelength w = (Return r, w') ->
  exists neff ms,
    ms_new_sv wavelength structure (_boundary (self w)) method = None /\
    ms_solve_sv (sv_call w method structure wavelength) = inr (neff, Some ms) /\
    calls w' = calls w ++ [CallSV (sv_call w method structure wavelength)] /\
    same_config (self w) (self w') /\
    r_n_effs r = neff /\ n_effs (self w') = Some neff /\
    modes (self w') = Some (SVModes (length (heap w))) /\
    files w' = files w /\ plots w' = plots w /\
    if _mode_profiles (self w) then
      exists m0 rest,
        ms = m0 :: rest /\
        heap w' = heap w ++ [np_abs m0 :: rest] /\
        r_modes r = Some (SVModes (length (heap w))) /\
        _initial_mode_guess (self w') = Some (np_abs m0)
    else
      heap w' = heap w ++ [ms] /\ r_modes r = None /\
      _initial_mode_guess (self w') = _initial_mode_guess (self w).
Proof.
  intros Hk H.
  unfold solve, _solve, bind, get_self in H. rewrite Hk in H.
  unfold _solve_semi_vectorial, run_engine_sv, bind, set_self, modify,
    get_self, ms_get_neff, ms_get_modes, expect, lift, with_self in H.
  simpl in H.
  destruct (ms_new_sv wavelength structure (_boundary (self w)) method)
    eqn:Hnew; [unfold raise in H; simplify_eq|].
  fold (sv_call w method structure wavelength) in H.
  destruct (ms_solve_sv (sv_call w method structure wavelength))
    as [e|[neff oms]] eqn:Hsolve; simpl in H; [simplify_eq|].
  destruct oms as [ms|]; simpl in H.
  2:{ destruct (_mode_profiles (self w)); simpl in H; simplify_eq. }
  exists neff, ms.
  destruct (_mode_profiles (self w)) eqn:Hmp; simpl in H.
  - unfold list_get, bind, get, expect in H. simpl in H.
    rewrite deref_alloc in H.
    destruct ms as [|m0 rest]; simpl in H; [simplify_eq|].
    rewrite deref_alloc, store_alloc, deref_alloc in H. simpl in H.
    unfold ret in H. simplify_eq. simpl.
    rewrite np_abs_idem. unfold same_config. simpl. eauto 20.
  - unfold ret in H. simplify_eq. unfold same_config. simpl. eauto 20.
Qed.

(** A loop whose body leaves the state alone. *)
Lemma for_each_returns {A B} (f : A -> M Structure B) (P : A -> B -> Prop)
    (l : list A) (w w' : World) (ys : list B) :
  (forall x w y w', f x w = (Return y, w') -> w' = w /\ P x y) ->
  for_each f l w = (Return ys, w') ->
  w' = w /\ Forall2 P l ys.
Proof.
  intros Hf. revert ys w'.
  induction l as [|x l IH]; intros ys w' H; simpl in H.
  - unfold ret in H. simplify_eq. auto.
  - unfold bind in H.
    destruct (f x w) as [[y|e] w1] eqn:Hx; [|simplify_eq].
    apply Hf in Hx as [-> Hy].
    destruct (for_each f l w) as [[ys'|e] w2] eqn:Hl; [|simplify_eq].
    destruct (IH _ _ eq_refl) as [-> Hys].
    unfold ret in H. simplify_eq. auto.
Qed.

Lemma mode_areas_returns (mode : VMode) (w : World) (ov : list npfloat)
    (w' : World) :
  mode_areas mode w = (Return ov, w') -> w' = w /\ overlap_of mode ov.
Proof.
  unfold mode_areas, field, bind, expect, overlap_of, has_fields. intros H.
  destruct (fields mode !! "Ex") as [ex|]; [|by simplify_eq].
  destruct (fields mode !! "Ey") as [ey|]; [|by simplify_eq].
  destruct (fields mode !! "Ez") as [ez|]; [|by simplify_eq].
  destruct (fields mode !! "Hx") as [hx|]; [|by simplify_eq].
  destruct (fields mode !! "Hy") as [hy|]; [|by simplify_eq].
  destruct (fields mode !! "Hz") as [hz|]; [|by simplify_eq].
  unfold ret in H. simplify_eq. split; [done|].
  exists ex, ey, ez, hx, hy, hz. auto 10.
Qed.

Lemma mode_type_returns (ov : list npfloat) (w : World) mt (w' : World) :
  mode_type ov w = (Return mt, w') -> w' = w /\ mode_type_of ov mt.
Proof.
  unfold mode_type, bind, expect, mode_type_of. intros H.
  destruct (np_argmax (take 3 ov)) as [idx|] eqn:Hidx; [|by simplify_eq].
  simpl in H.
  destruct (labels !! idx) as [label|] eqn:Hl; [|by simplify_eq].
  destruct (ov !! idx) as [v|] eqn:Hv; [|by simplify_eq].
  unfold ret in H. simplify_eq. split; [done|].
  exists idx, label, v. auto.
Qed.

Lemma solve_fv_returns (w w' : World) structure wavelength r :
  kind (self w) = FullyVectorial ->
  solve structure wavelength w = (Return r, w') ->
  exists neff ms ovs mts,
    ms_new_fv wavelength structure (_boundary (self w)) = None /\
    ms_solve_fv (fv_call w structure wavelength) = inr (neff, Some ms) /\
    calls w' = calls w ++ [CallFV (fv_call w structure wavelength)] /\
    same_config (self w) (self w') /\
    r = {| r_n_effs := neff; r_modes := Some (FVModes ms) |} /\
    n_effs (self w') = Some neff /\
    modes (self w') = Some (FVModes ms) /\
    overlaps (self w') = Some ovs /\
    mode_types (self w') = Some mts /\
    _initial_mode_guess (self w') = None /\
    heap w' = heap w /\ files w' = files w /\ plots w' = plots w /\
    Forall2 overlap_of ms ovs /\ Forall2 mode_type_of ovs mts.
Proof.
  intros Hk H.
  unfold solve, _solve, bind, get_self in H. rewrite Hk in H.
  unfold _solve_fully_vectorial, run_engine_fv, bind, set_self, modify,
    get_self, ms_get_neff, ms_get_modes, expect, lift, with_self in H.
  simpl in H.
  destruct (ms_new_fv wavelength structure (_boundary (self w)))
    eqn:Hnew; [unfold raise in H; simplify_eq|].
  fold (fv_call w structure wavelength) in H.
  destruct (ms_solve_fv (fv_call w structure wavelength))
    as [e|[neff oms]] eqn:Hsolve; simpl in H; [simplify_eq|].
  destruct oms as [ms|]; simpl in H; [|simplify_eq].
  unfold _get_overlaps, ms_get_modes, fv_list, bind, get_self, expect in H.
  simpl in H.
  match type of H with
  | context [for_each mode_areas ms ?w0] =>
      destruct (for_each mode_areas ms w0) as [[ovs|e] w1] eqn:Hov;
        [|simplify_eq]
  end.
  apply (for_each_returns _ overlap_of) in Hov as [-> Hov];
    [|apply mode_areas_returns].
  unfold _get_mode_types, bind, get_self, expect in H. simpl in H.
  match type of H with
  | context [for_each mode_type ovs ?w0] =>
      destruct (for_each mode_type ovs w0) as [[mts|e] w1] eqn:Hmt;
        [|simplify_eq]
  end.
  apply (for_each_returns _ mode_type_of) in Hmt as [-> Hmt];
    [|apply mode_type_returns].
  unfold ret in H. simplify_eq. simpl.
  exists neff, ms, ovs, mts. unfold same_config. simpl. eauto 30.
Qed.

(** *** Any outcome *)

Lemma for_each_frame {A B} (f : A -> M Structure B) (l : list A) (w : World) :
  (forall x w, (f x w).2 = w) -> (for_each f l w).2 = w.
Proof.
  intros Hf. induction l as [|x l IH]; simpl; [done|].
  unfold bind. specialize (Hf x w).
  destruct (f x w) as [[y|e] w1]; simpl in Hf; subst; [|done].
  destruct (for_each f l w) as [[ys|e] w2]; simpl in IH; subst; done.
Qed.

Lemma mode_areas_frame (mode : VMode) (w : World) : (mode_areas mode w).2 = w.
Proof.
  unfold mode_areas, field, bind, expect.
  repeat match goal with
         | |- context [fields mode !! ?k] => destruct (fields mode !! k)
         end; done.
Qed.

Lemma mode_type_frame (ov : list npfloat) (w : World) : (mode_type ov w).2 = w.
Proof.
  unfold mode_type, bind, expect.
  destruct (np_argmax (take 3 ov)) as [idx|]; [|done]. simpl.
  destruct (labels !! idx); [|done]. simpl.
  destruct (ov !! idx); done.
Qed.

Lemma solve_frame (w w' : World) structure wavelength o :
  solve structure wavelength w = (o, w') ->
  same_config (self w) (self w') /\ files w' = files w /\ plots w' = plots w /\
  match engine_new w structure wavelength with
  | Some e => o = Raise e /\ calls w' = calls w /\ heap w' = heap w
  | None =>
      calls w' = calls w ++ [next_call w structure wavelength] /\
      (heap w' = heap w \/ exists l, heap w' = heap w ++ [l]) /\
      match engine_error (next_call w structure wavelength) with
      | Some e => o = Raise e /\ heap w' = heap w
      | None => True
      end
  end.
Proof.
  intros H. unfold engine_new, next_call, engine_error.
  unfold solve, _solve, bind, get_self in H.
  destruct (kind (self w)) as [method|] eqn:Hk.
  - unfold _solve_semi_vectorial, run_engine_sv, bind, set_self, modify,
      get_self, ms_get_neff, ms_get_modes, expect, lift, with_self in H.
    simpl in H.
    destruct (ms_new_sv wavelength structure (_boundary (self w)) method)
      eqn:Hnew; [unfold raise in H; simplify_eq; by unfold same_config|].
    fold (sv_call w method structure wavelength) in H.
    destruct (ms_solve_sv (sv_call w method structure wavelength))
      as [e|[neff oms]] eqn:Hsolve; simpl in H;
      [simplify_eq; unfold same_config; simpl; eauto 20|].
    destruct oms as [ms|]; simpl in H.
    2:{ destruct (_mode_profiles (self w)); simpl in H; simplify_eq;
        unfold same_config; simpl; eauto 20. }
    destruct (_mode_profiles (self w)) eqn:Hmp; simpl in H.
    + unfold list_get, bind, get, expect in H. simpl in H.
      rewrite deref_alloc in H.
      destruct ms as [|m0 rest]; simpl in H;
        [simplify_eq; unfold same_config; simpl; eauto 20|].
      rewrite deref_alloc, store_alloc, deref_alloc in H. simpl in H.
      unfold ret in H. simplify_eq. unfold same_config; simpl. eauto 20.
    + unfold ret in H. simplify_eq. unfold same_config; simpl. eauto 20.
  - unfold _solve_fully_vectorial, run_engine_fv, bind, set_self, modify,
      get_self, ms_get_neff, ms_get_modes, expect, lift, with_self in H.
    simpl in H.
    destruct (ms_new_fv wavelength structure (_boundary (self w)))
      eqn:Hnew; [unfold raise in H; simplify_eq; by unfold same_config|].
    fold (fv_call w structure wavelength) in H.
    destruct (ms_solve_fv (fv_call w structure wavelength))
      as [e|[neff oms]] eqn:Hsolve; simpl in H;
      [simplify_eq; unfold same_config; simpl; eauto 20|].
    destruct oms as [ms|]; simpl in H;
      [|simplify_eq; unfold same_config; simpl; eauto 20].
    unfold _get_overlaps, ms_get_modes, fv_list, bind, get_self, expect in H.
    simpl in H.
    match type of H with
    | context [for_each mode_areas ms ?w0] =>
        pose proof (for_each_frame mode_areas ms w0 mode_areas_frame) as Hov;
        destruct (for_each mode_areas ms w0) as [[ovs|e] w1]
    end; simpl in Hov; subst w1;
      [|simplify_eq; unfold same_config; simpl; eauto 20].
    unfold _get_mode_types, bind, get_self, expect in H. simpl in H.
    match type of H with
    | context [for_each mode_type ovs ?w0] =>
        pose proof (for_each_frame mode_type ovs w0 mode_type_frame) as Hmt;
        destruct (for_each mode_type ovs w0) as [[mts|e] w1]
    end; simpl in Hmt; subst w1;
      [|simplify_eq; unfold same_config; simpl; eauto 20].
    unfold ret in H. simplify_eq. unfold same_config; simpl. eauto 20.
Qed.

(** *** Solves that return *)

Lemma for_each_ok {A B} (f : A -> M Structure B) (P : B -> Prop) (l : list A) :
  Forall (fun x => exists y, P y /\ forall w, f x w = (Return y, w)) l ->
  exists ys, Forall P ys /\ forall w, for_each f l w = (Return ys, w).
Proof.
  induction 1 as [|x l (y & Hy & Hx) Hl (ys & Hys & IH)].
  - exists []. split; [constructor|done].
  - exists (y :: ys). split; [by constructor|].
    intros w. simpl. unfold bind. rewrite Hx, IH. done.
Qed.

Lemma mode_areas_ok (mode : VMode) :
  six_fields mode ->
  exists ov, length ov = 6%nat /\ forall w : World, mode_areas mode w = (Return ov, w).
Proof.
  intros (ex & ey & ez & hx & hy & hz & H1 & H2 & H3 & H4 & H5 & H6).
  eexists. split; [|intros w; unfold mode_areas, field, bind, expect;
    rewrite H1, H2, H3, H4, H5, H6; reflexivity].
  reflexivity.
Qed.

Lemma mode_type_ok (ov : list npfloat) :
  length ov = 6%nat ->
  exists mt, True /\ forall w : World, mode_type ov w = (Return mt, w).
Proof.
  intros Hlen.
  destruct ov as [|a [|b [|c ov]]]; simpl in Hlen; try lia.
  destruct (np_argmax [a; b; c]) as [idx|] eqn:Hidx; [|done].
  pose proof (np_argmax_bound _ _ Hidx) as Hb. simpl in Hb.
  destruct (lookup_lt_is_Some_2 ["qTE"; "qTM"; "qTE/qTM"] idx Hb)
    as [label Hlabel].
  rewrite <- labels_lookup in Hlabel by done.
  destruct (lookup_lt_is_Some_2 (a :: b :: c :: ov) idx) as [v Hv];
    [simpl; lia|].
  exists (label, np_round2 v). split; [done|]. intros w.
  unfold mode_type, bind, expect.
  change (take 3 (a :: b :: c :: ov)) with [a; b; c]. rewrite Hidx. simpl.
  rewrite Hlabel. simpl. rewrite Hv. done.
Qed.

Lemma solve_sv_ok (w : World) method structure wavelength neff m0 rest :
  kind (self w) = SemiVectorial method ->
  ms_new_sv wavelength structure (_boundary (self w)) method = None ->
  ms_solve_sv (sv_call w method structure wavelength)
    = inr (neff, Some (m0 :: rest)) ->
  exists r w', solve structure wavelength w = (Return r, w').
Proof.
  intros Hk Hnew Hsolve.
  unfold solve, _solve, bind, get_self. rewrite Hk.
  unfold _solve_semi_vectorial, run_engine_sv, bind, set_self, modify,
    get_self, ms_get_neff, ms_get_modes, expect, lift, with_self.
  simpl. rewrite Hnew.
  fold (sv_call w method structure wavelength). rewrite Hsolve. simpl.
  destruct (_mode_profiles (self w)); simpl; [|by eauto].
  unfold list_get, bind, get, expect. simpl.
  rewrite deref_alloc. simpl.
  rewrite deref_alloc, store_alloc, deref_alloc. simpl. by eauto.
Qed.

Lemma solve_fv_ok (w : World) structure wavelength neff ms :
  kind (self w) = FullyVectorial ->
  ms_new_fv wavelength structure (_boundary (self w)) = None ->
  ms_solve_fv (fv_call w structure wavelength) = inr (neff, Some ms) ->
  Forall six_fields ms ->
  exists r w', solve structure wavelength w = (Return r, w').
Proof.
  intros Hk Hnew Hsolve Hms.
  destruct (for_each_ok mode_areas (fun ov => length ov = 6%nat) ms)
    as (ovs & Hlen & Hov).
  { eapply Forall_impl; [exact Hms|]. intros m Hm. by apply mode_areas_ok. }
  destruct (for_each_ok mode_type (fun _ => True) ovs) as (mts & _ & Hmt).
  { eapply Forall_impl; [exact Hlen|]. intros ov Hl. by apply mode_type_ok. }
  unfold solve, _solve, bind, get_self. rewrite Hk.
  unfold _solve_fully_vectorial, run_engine_fv, bind, set_self, modify,
    get_self, ms_get_neff, ms_get_modes, expect, lift, with_self.
  simpl. rewrite Hnew.
  fold (fv_call w structure wavelength). rewrite Hsolve. simpl.
  unfold _get_overlaps, ms_get_modes, fv_list, bind, get_self, expect.
  simpl. rewrite Hov.
  unfold _get_mode_types, bind, get_self, expect. simpl. rewrite Hmt.
  by eauto.
Qed.

(** A solve that returns has set [self.n_effs] to the sequence in its
    result. *)
Lemma solve_returns_n_effs (w w' : World) structure wavelength r :
  solve structure wavelength w = (Return r, w') ->
  n_effs (self w') = Some (r_n_effs r).
Proof.
  intros H. destruct (kind (self w)) as [method|] eqn:Hk.
  - destruct (solve_sv_returns _ _ _ _ _ _ Hk H)
      as (neff & ms & _ & _ & _ & _ & <- & Hn & _). done.
  - destruct (solve_fv_returns _ _ _ _ _ Hk H)
      as (neff & ms & ovs & mts & _ & _ & _ & _ & -> & Hn & _). done.
Qed.

(** ** Loops and sweeps *)

(** A loop stops at the first step that raises: the exception and the state
    of that step are those of the loop. *)
Lemma for_each_abort {A B} (f : A -> M Structure B) (pre : list A) (x : A)
    (post : list A) (w wk w' : World) (rs : list B) (e : exn) :
  for_each f pre w = (Return rs, wk) ->
  f x wk = (Raise e, w') ->
  for_each f (pre ++ x :: post) w = (Raise e, w').
Proof.
  revert w rs. induction pre as [|y pre IH]; intros w rs Hpre Hx; simpl in *.
  - unfold ret in Hpre. simplify_eq. unfold bind. by rewrite Hx.
  - unfold bind in *.
    destruct (f y w) as [[b|e1] w1]; [|simplify_eq].
    destruct (for_each f pre w1) as [[bs|e1] w2] eqn:Hrest; [|simplify_eq].
    unfold ret in Hpre. simplify_eq.
    by rewrite (IH _ _ Hrest Hx).
Qed.

Lemma write_rows_core filename x_vals (infos : list Result) (i : nat) (w : World) :
  same_core w (write_rows filename x_vals i infos w).2.
Proof.
  revert i w. induction infos as [|info infos IH]; intros i w; simpl.
  - done.
  - unfold bind, expect.
    destruct x_vals as [xs|].
    + unfold bind. destruct (xs !! i); simpl; [|done].
      destruct (r_n_effs info !! 0%nat); simpl; [|done].
      unfold write_row, modify. simpl.
      match goal with |- same_core _ (write_rows _ _ _ _ ?w0).2 =>
        destruct (IH (S i) w0) as (Hs & Hh & Hc) end.
      unfold same_core. rewrite Hs, Hh, Hc. done.
    + simpl. destruct (r_n_effs info !! 0%nat); simpl; [|done].
      unfold write_row, modify. simpl.
      match goal with |- same_core _ (write_rows _ _ _ _ ?w0).2 =>
        destruct (IH (S i) w0) as (Hs & Hh & Hc) end.
      unfold same_core. rewrite Hs, Hh, Hc. done.
Qed.

Lemma report_core (filename : string) (plot : bool) (x_vals : option (list R))
    (xlabel title : string) (n_effs : list Result) (w : World) :
  same_core w
    ((if truthy filename
      then (_write_n_effs_to_file n_effs filename x_vals >>
            if plot then _plot_n_effs filename xlabel title else ret tt)
      else ret tt : M Structure unit) w).2.
Proof.
  destruct (truthy filename); [|done].
  unfold _write_n_effs_to_file, bind, modify. simpl.
  match goal with |- context [write_rows ?f ?x ?i ?l ?w0] =>
    pose proof (write_rows_core f x l i w0) as (Hs & Hh & Hc);
    destruct (write_rows f x i l w0) as [[[]|e] w1]
  end; simpl in *; [|done].
  destruct plot; simpl; done.
Qed.

(** A sweep is its loop followed by the output part. *)
Lemma sweep_structure_loop (structures : list Structure) wavelength filename
    plot (w w' : World) o :
  solve_sweep_structure structures wavelength filename plot w = (o, w') ->
  exists o1 w1,
    for_each (fun s => solve s wavelength) structures w = (o1, w1) /\
    same_core w1 w' /\
    (forall e, o1 = Raise e -> o = Raise e /\ w' = w1) /\
    (forall rs, o = Return rs -> o1 = Return rs).
Proof.
  unfold solve_sweep_structure. unfold bind at 1. intros H.
  destruct (for_each (fun s => solve s wavelength) structures w)
    as [[rs|e] w1]; [|simplify_eq; exists (Raise e), w'; by eauto 10].
  exists (Return rs), w1. split; [done|].
  unfold bind at 1 in H.
  pose proof (report_core filename plot None "Structure number"
                "n_{effs} vs structure" rs w1) as Hc.
  match type of Hc with same_core _ (?c w1).2 =>
    destruct (c w1) as [[[]|e] w2]
  end; simpl in Hc; unfold ret in H; simplify_eq; split_and!; done.
Qed.

Lemma sweep_wavelength_loop (structure : Structure) wavelengths filename
    plot (w w' : World) o :
  solve_sweep_wavelength structure wavelengths filename plot w = (o, w') ->
  exists o1 w1,
    for_each (fun wl => solve structure wl) wavelengths w = (o1, w1) /\
    same_core w1 w' /\
    (forall e, o1 = Raise e -> o = Raise e /\ w' = w1) /\
    (forall rs, o = Return rs -> o1 = Return rs).
Proof.
  unfold solve_sweep_wavelength. unfold bind at 1. intros H.
  destruct (for_each (fun wl => solve structure wl) wavelengths w)
    as [[rs|e] w1]; [|simplify_eq; exists (Raise e), w'; by eauto 10].
  exists (Return rs), w1. split; [done|].
  unfold bind at 1 in H.
  pose proof (report_core filename plot (Some wavelengths) "Wavelength"
                "n_{effs} vs wavelength" rs w1) as Hc.
  match type of Hc with same_core _ (?c w1).2 =>
    destruct (c w1) as [[[]|e] w2]
  end; simpl in Hc; unfold ret in H; simplify_eq; split_and!; done.
Qed.

(** ** The group-index call *)

Lemma zip3_lookup {A} (a b c : list A) (i : nat) (x y z : A) :
  zip3 a b c !! i = Some (x, y, z) <->
  a !! i = Some x /\ b !! i = Some y /\ c !! i = Some z.
Proof.
  revert b c i. induction a as [|x0 a IH]; intros [|y0 b] [|z0 c] i; simpl;
    try (split; [done|intros (? & ? & ?); done]).
  destruct i as [|i]; simpl.
  - split; [intros ?; by simplify_eq|intros (? & ? & ?); by simplify_eq].
  - apply IH.
Qed.

Lemma zip3_length {A} (a b c : list A) :
  length (zip3 a b c) = (length a `min` (length b `min` length c))%nat.
Proof.
  revert b c. induction a as [|x0 a IH]; intros [|y0 b] [|z0 c]; simpl;
    try done.
  by rewrite IH.
Qed.

Lemma get_n_effs_after (w w' : World) structure wavelength r :
  solve structure wavelength w = (Return r, w') ->
  get_n_effs w' = (Return (r_n_effs r), w').
Proof.
  intros H. apply solve_returns_n_effs in H.
  unfold get_n_effs, bind, get_self, expect. by rewrite H.
Qed.

Lemma solve_ng_run (w w1 w2 w3 : World) ctr bck frw wavelength step r1 r2 r3 :
  solve ctr wavelength w = (Return r1, w1) ->
  solve bck (wavelength - step) w1 = (Return r2, w2) ->
  solve frw (wavelength + step) w2 = (Return r3, w3) ->
  solve_ng ctr bck frw wavelength step w =
    (Return (group_indices wavelength step
               (r_n_effs r1) (r_n_effs r2) (r_n_effs r3)), w3).
Proof.
  intros H1 H2 H3. unfold solve_ng.
  unfold bind at 1. rewrite H1.
  unfold bind at 1. rewrite (get_n_effs_after _ _ _ _ _ H1).
  unfold bind at 1. rewrite H2.
  unfold bind at 1. rewrite (get_n_effs_after _ _ _ _ _ H2).
  unfold bind at 1. rewrite H3.
  unfold bind at 1. rewrite (get_n_effs_after _ _ _ _ _ H3).
  done.
Qed.

Lemma solve_ng_returns (w w' : World) ctr bck frw wavelength step n_gs :
  solve_ng ctr bck frw wavelength step w = (Return n_gs, w') ->
  exists r1 w1 r2 w2 r3,
    solve ctr wavelength w = (Return r1, w1) /\
    solve bck (wavelength - step) w1 = (Return r2, w2) /\
    solve frw (wavelength + step) w2 = (Return r3, w') /\
    n_gs = group_indices wavelength step
             (r_n_effs r1) (r_n_effs r2) (r_n_effs r3).
Proof.
  intros H. unfold solve_ng in H.
  unfold bind at 1 in H.
  destruct (solve ctr wavelength w) as [[r1|e] w1] eqn:H1; [|simplify_eq].
  unfold bind at 1 in H. rewrite (get_n_effs_after _ _ _ _ _ H1) in H.
  unfold bind at 1 in H.
  destruct (solve bck (wavelength - step) w1) as [[r2|e] w2] eqn:H2;
    [|simplify_eq].
  unfold bind at 1 in H. rewrite (get_n_effs_after _ _ _ _ _ H2) in H.
  unfold bind at 1 in H.
  destruct (solve frw (wavelength + step) w2) as [[r3|e] w3] eqn:H3;
    [|simplify_eq].
  unfold bind at 1 in H. rewrite (get_n_effs_after _ _ _ _ _ H3) in H.
  unfold ret in H. simplify_eq.
  exists r1, w1, r2, w2, r3. done.
Qed.

(** ** The heap only grows *)

Lemma heap_grows_refl (w : World) : heap_grows w w.
Proof. exists []. by rewrite app_nil_r. Qed.

Lemma heap_grows_trans (w1 w2 w3 : World) :
  heap_grows w1 w2 -> heap_grows w2 w3 -> heap_grows w1 w3.
Proof.
  intros [e1 H1] [e2 H2]. exists (e1 ++ e2). by rewrite H2, H1, app_assoc.
Qed.

Lemma heap_grows_keeps (w w' : World) (a : loc) :
  heap_grows w w' -> (a < length (heap w))%nat ->
  deref (heap w') a = deref (heap w) a.
Proof.
  intros [ext H] Ha. unfold deref. by rewrite H, lookup_app_l.
Qed.

Lemma solve_heap_grows (w w' : World) structure wavelength o :
  solve structure wavelength w = (o, w') -> heap_grows w w'.
Proof.
  intros H. apply solve_frame in H as (_ & _ & _ & H).
  destruct (engine_new w structure wavelength).
  - destruct H as (_ & _ & Hh). exists []. by rewrite Hh, app_nil_r.
  - destruct H as (_ & [Hh|[l Hh]] & _).
    + exists []. by rewrite Hh, app_nil_r.
    + by exists [l].
Qed.

Lemma loop_heap_grows {X} (st : X -> Structure) (wl : X -> R) (xs : list X)
    (w w' : World) o :
  for_each (fun x => solve (st x) (wl x)) xs w = (o, w') -> heap_grows w w'.
Proof.
  revert w o w'. induction xs as [|x xs IH]; intros w o w' H; simpl in H.
  - unfold ret in H. simplify_eq. apply heap_grows_refl.
  - unfold bind at 1 in H.
    destruct (solve (st x) (wl x) w) as [[r|e] w1] eqn:Hx.
    + apply solve_heap_grows in Hx.
      unfold bind at 1 in H.
      destruct (for_each (fun x => solve (st x) (wl x)) xs w1)
        as [[rs|e] w2] eqn:Hxs; apply IH in Hxs;
        unfold ret in H; simplify_eq; by eapply heap_grows_trans.
    + simplify_eq. by apply solve_heap_grows in Hx.
Qed.

Lemma solve_ng_heap_grows (w w' : World) ctr bck frw wavelength step o :
  solve_ng ctr bck frw wavelength step w = (o, w') -> heap_grows w w'.
Proof.
  intros H. unfold solve_ng in H.
  unfold bind at 1 in H.
  destruct (solve ctr wavelength w) as [[r1|e] w1] eqn:H1;
    [|simplify_eq; by apply solve_heap_grows in H1].
  unfold bind at 1 in H. rewrite (get_n_effs_after _ _ _ _ _ H1) in H.
  unfold bind at 1 in H.
  destruct (solve bck (wavelength - step) w1) as [[r2|e] w2] eqn:H2;
    [|simplify_eq; apply solve_heap_grows in H1, H2;
      by eapply heap_grows_trans].
  unfold bind at 1 in H. rewrite (get_n_effs_after _ _ _ _ _ H2) in H.
  unfold bind at 1 in H.
  destruct (solve frw (wavelength + step) w2) as [[r3|e] w3] eqn:H3;
    [|simplify_eq; apply solve_heap_grows in H1, H2, H3;
      eapply heap_grows_trans; [done|]; by eapply heap_grows_trans].
  unfold bind at 1 in H. rewrite (get_n_effs_after _ _ _ _ _ H3) in H.
  unfold ret in H. simplify_eq.
  apply solve_heap_grows in H1, H2, H3.
  eapply heap_grows_trans; [done|]. by eapply heap_grows_trans.
Qed.

Lemma operation_heap_grows (w w' : World) : operation w w' -> heap_grows w w'.
Proof.
  destruct 1 as [? ? ? ? ? H|? ? ? ? ? ? ? H|? ? ? ? ? ? ? H|? ? ? ? ? ? ? ? H].
  - by eapply solve_heap_grows.
  - apply sweep_structure_loop in H as (o1 & w1 & Hl & (_ & Hh & _) & _).
    apply (loop_heap_grows (fun s => s) (fun _ => wavelength)) in Hl.
    destruct Hl as [ext Hl]. exists ext. by rewrite Hh.
  - apply sweep_wavelength_loop in H as (o1 & w1 & Hl & (_ & Hh & _) & _).
    apply (loop_heap_grows (fun _ => structure) (fun wl => wl)) in Hl.
    destruct Hl as [ext Hl]. exists ext. by rewrite Hh.
  - by eapply solve_ng_heap_grows.
Qed.

Lemma operations_heap_grow (w w' : World) : rtc operation w w' -> heap_grows w w'.
Proof.
  induction 1 as [|w1 w2 w3 H _ IH]; [apply heap_grows_refl|].
  eapply heap_grows_trans; [|exact IH]. by apply operation_heap_grows.
Qed.

End SolveFacts.

(** * The claims of the specification *)

Section Claims.

Context {Structure : Type} {lib : ModeSolverLib Structure}.

Local Abbreviation World := (World Structure).

Lemma group_index_parts (wavelength step : R) (n_ctr n_bck n_frw : C) :
  step <> 0 ->
  nc_re (group_index wavelength step n_ctr n_bck n_frw) =
    Finite (Cplx.re n_ctr
            - wavelength * (Cplx.re n_frw - Cplx.re n_bck) / (2 * step)) /\
  nc_im (group_index wavelength step n_ctr n_bck n_frw) =
    Finite (Cplx.im n_ctr
            - wavelength * (Cplx.im n_frw - Cplx.im n_bck) / (2 * step)).
Proof.
  intros Hs. unfold group_index, np_csub, np_cdivide.
  destruct (Req_dec_T (2 * step) 0) as [H0|_]; [lra|].
  simpl. split; f_equal; field; lra.
Qed.

Lemma np_divide_by_zero (x : R) : ~ is_finite (np_divide x 0).
Proof.
  unfold np_divide. destruct (Req_dec_T 0 0) as [_|H]; [|lra].
  destruct (Req_dec_T x 0); [tauto|]. destruct (Rlt_dec 0 x); tauto.
Qed.

Lemma np_rsub_finite (x : R) (q : npfloat) :
  is_finite (np_rsub x q) -> is_finite q.
Proof. by destruct q. Qed.

Lemma group_index_step_zero (wavelength : R) (n_ctr n_bck n_frw : C) :
  ~ is_finite (nc_re (group_index wavelength 0 n_ctr n_bck n_frw)) /\
  ~ is_finite (nc_im (group_index wavelength 0 n_ctr n_bck n_frw)).
Proof.
  unfold group_index, np_csub, np_cdivide.
  destruct (Req_dec_T (2 * 0) 0) as [_|H]; [|lra]. simpl.
  split; intros Hf; apply np_rsub_finite in Hf;
    by apply np_divide_by_zero in Hf.
Qed.

(** C1.  [solve_ng] solves at [wavelength], [wavelength - wavelength_step]
    and [wavelength + wavelength_step], in that order, and when the three
    solves return it returns, over the indices that the three
    effective-index sequences share, the sequence whose i-th entry is
    [n_ctr[i] - wavelength * (n_frw[i] - n_bck[i]) / (2 * wavelength_step)]
    in complex arithmetic.  For a step other than zero the real and the
    imaginary part of the entry are that formula on the real and on the
    imaginary parts of the effective indices: the entry is real exactly
    when the formula gives zero on the imaginary parts, as it does when the
    three effective indices are real.  For a step of zero nothing is
    raised, and neither part of any entry is a finite number. *)
Theorem solve_ng_central_difference (w w1 w2 w3 : World)
    (ctr bck frw : Structure) (wavelength step : R) (r1 r2 r3 : Result) :
  solve ctr wavelength w = (Return r1, w1) ->
  solve bck (wavelength - step) w1 = (Return r2, w2) ->
  solve frw (wavelength + step) w2 = (Return r3, w3) ->
  exists n_gs,
    solve_ng ctr bck frw wavelength step w = (Return n_gs, w3) /\
    length n_gs =
      (length (r_n_effs r1) `min`
         (length (r_n_effs r2) `min` length (r_n_effs r3)))%nat /\
    (forall i, (i < length n_gs)%nat ->
       exists n_g n_ctr n_bck n_frw,
         n_gs !! i = Some n_g /\
         r_n_effs r1 !! i = Some n_ctr /\
         r_n_effs r2 !! i = Some n_bck /\
         r_n_effs r3 !! i = Some n_frw /\
         (step <> 0 ->
          nc_re n_g =
            Finite (Cplx.re n_ctr
                    - wavelength * (Cplx.re n_frw - Cplx.re n_bck)
                      / (2 * step)) /\
          nc_im n_g =
            Finite (Cplx.im n_ctr
                    - wavelength * (Cplx.im n_frw - Cplx.im n_bck)
                      / (2 * step)) /\
          (nc_im n_g = Finite 0 <->
           Cplx.im n_ctr
             = wavelength * (Cplx.im n_frw - Cplx.im n_bck) / (2 * step))) /\
         (step = 0 ->
          ~ is_finite (nc_re n_g) /\ ~ is_finite (nc_im n_g))) /\
    (step <> 0 ->
     Forall Cplx.is_real (r_n_effs r1) ->
     Forall Cplx.is_real (r_n_effs r2) ->
     Forall Cplx.is_real (r_n_effs r3) ->
     Forall (fun n_g => nc_im n_g = Finite 0) n_gs).
Proof.
  intros H1 H2 H3. eexists.
  split; [exact (solve_ng_run _ _ _ _ _ _ _ _ _ _ _ _ H1 H2 H3)|].
  unfold group_indices.
  assert (Hentry : forall i n_g,
    map (fun '(n_ctr, n_bck, n_frw) =>
           group_index wavelength step n_ctr n_bck n_frw)
        (zip3 (r_n_effs r1) (r_n_effs r2) (r_n_effs r3)) !! i = Some n_g ->
    exists n_ctr n_bck n_frw,
      r_n_effs r1 !! i = Some n_ctr /\ r_n_effs r2 !! i = Some n_bck /\
      r_n_effs r3 !! i = Some n_frw /\
      n_g = group_index wavelength step n_ctr n_bck n_frw).
  { intros i n_g Hi. rewrite list_lookup_fmap in Hi.
    destruct (zip3 (r_n_effs r1) (r_n_effs r2) (r_n_effs r3) !! i)
      as [[[a b] c]|] eqn:Hz; simpl in Hi; [|done].
    apply zip3_lookup in Hz as (Ha & Hb & Hc). simplify_eq.
    exists a, b, c. done. }
  split; [by rewrite length_map, zip3_length|]. split.
  - intros i Hi. destruct (lookup_lt_is_Some_2 _ _ Hi) as [n_g Hg].
    destruct (Hentry _ _ Hg) as (a & b & c & Ha & Hb & Hc & ->).
    exists (group_index wavelength step a b c), a, b, c.
    split_and!; try done.
    + intros Hs.
      destruct (group_index_parts wavelength step a b c Hs) as [Hre Him].
      split_and!; try done. rewrite Him. split.
      * intros [= Hz]. lra.
      * intros Heq. f_equal. lra.
    + intros ->. apply group_index_step_zero.
  - intros Hs R1 R2 R3. apply Forall_lookup_2. intros i n_g Hg.
    destruct (Hentry _ _ Hg) as (a & b & c & Ha & Hb & Hc & ->).
    destruct (group_index_parts wavelength step a b c Hs) as [_ Him].
    rewrite Him. f_equal.
    pose proof (Forall_lookup_1 _ _ _ _ R1 Ha) as Z1.
    pose proof (Forall_lookup_1 _ _ _ _ R2 Hb) as Z2.
    pose proof (Forall_lookup_1 _ _ _ _ R3 Hc) as Z3.
    unfold Cplx.is_real in *. rewrite Z1, Z2, Z3. field. lra.
Qed.

Lemma loop_calls_sv {X} (st : X -> Structure) (wl : X -> R) (xs : list X)
    (w w' : World) method o :
  kind (self w) = SemiVectorial method ->
  _mode_profiles (self w) = true ->
  for_each (fun x => solve (st x) (wl x)) xs w = (o, w') ->
  exists cs,
    calls w' = calls w ++ cs /\
    warm_chain (_initial_mode_guess (self w)) cs /\
    (forall rs, o = Return rs -> length cs = length xs).
Proof.
  revert w o w'. induction xs as [|x xs IH]; intros w o w' Hk Hmp H;
    simpl in H.
  - unfold ret in H. simplify_eq. exists []. by rewrite app_nil_r.
  - unfold bind at 1 in H.
    destruct (solve (st x) (wl x) w) as [[r|e] w1] eqn:Hx.
    + destruct (solve_sv_returns _ _ _ _ _ _ Hk Hx)
        as (neff & ms & Hnew & Hsol & Hcalls & Hcfg & _ & _ & _ & _ & _ & Hp).
      rewrite Hmp in Hp. destruct Hp as (m0 & rest & -> & _ & _ & Hg).
      destruct Hcfg as (Hk1 & _ & _ & _ & Hmp1 & _).
      rewrite Hk in Hk1. rewrite Hmp in Hmp1.
      unfold bind at 1 in H.
      assert (Hstep : forall cs,
        warm_chain (_initial_mode_guess (self w1)) cs ->
        warm_chain (_initial_mode_guess (self w))
          (CallSV (sv_call w method (st x) (wl x)) :: cs)).
      { intros cs Hchain. split; [done|]. rewrite Hg in Hchain.
        destruct cs as [|c cs]; [done|]. eauto 10. }
      destruct (for_each (fun x => solve (st x) (wl x)) xs w1)
        as [[rs|e] w2] eqn:Hxs;
        destruct (IH _ _ _ Hk1 Hmp1 Hxs) as (cs & Hcs & Hchain & Hlen);
        unfold ret in H; simplify_eq;
        exists (CallSV (sv_call w method (st x) (wl x)) :: cs).
      * split; [by rewrite Hcs, Hcalls, <- app_assoc|].
        split; [by apply Hstep|].
        intros rs' ?; simplify_eq; simpl. by erewrite Hlen.
      * split; [by rewrite Hcs, Hcalls, <- app_assoc|].
        split; [by apply Hstep|]. done.
    + simplify_eq.
      apply solve_frame in Hx as (_ & _ & _ & Hx).
      unfold engine_new, next_call in Hx. rewrite Hk in Hx.
      destruct (ms_new_sv (wl x) (st x) (_boundary (self w)) method).
      * destruct Hx as (_ & -> & _). exists []. by rewrite app_nil_r.
      * destruct Hx as (-> & _). eexists. split; [done|]. by split.
Qed.

Lemma loop_calls_fv {X} (st : X -> Structure) (wl : X -> R) (xs : list X)
    (w w' : World) o :
  kind (self w) = FullyVectorial ->
  for_each (fun x => solve (st x) (wl x)) xs w = (o, w') ->
  exists cs,
    calls w' = calls w ++ cs /\
    cold_chain (_initial_mode_guess (self w)) (_n_eff_guess (self w)) cs /\
    _n_eff_guess (self w') = _n_eff_guess (self w) /\
    (forall rs, o = Return rs -> length cs = length xs).
Proof.
  revert w o w'. induction xs as [|x xs IH]; intros w o w' Hk H; simpl in H.
  - unfold ret in H. simplify_eq. exists []. rewrite app_nil_r.
    split_and!; try done; by split.
  - unfold bind at 1 in H.
    destruct (solve (st x) (wl x) w) as [[r|e] w1] eqn:Hx.
    + destruct (solve_fv_returns _ _ _ _ _ Hk Hx)
        as (neff & ms & ovs & mts & Hnew & Hsol & Hcalls & Hcfg & _ & _ & _
            & _ & _ & Hg & _).
      destruct Hcfg as (Hk1 & _ & _ & _ & _ & Hn).
      rewrite Hk in Hk1.
      unfold bind at 1 in H.
      assert (Hstep : forall cs,
        cold_chain (_initial_mode_guess (self w1)) (_n_eff_guess (self w1)) cs ->
        cold_chain (_initial_mode_guess (self w)) (_n_eff_guess (self w))
          (CallFV (fv_call w (st x) (wl x)) :: cs)).
      { intros cs [Hall Hchain]. rewrite Hn in Hall. rewrite Hg in Hchain.
        split; [by constructor|]. split; [done|].
        destruct cs as [|c cs]; [done|]. destruct Hchain. by constructor. }
      destruct (for_each (fun x => solve (st x) (wl x)) xs w1)
        as [[rs|e] w2] eqn:Hxs;
        destruct (IH _ _ _ Hk1 Hxs) as (cs & Hcs & Hchain & Hn' & Hlen);
        unfold ret in H; simplify_eq;
        exists (CallFV (fv_call w (st x) (wl x)) :: cs).
      * split; [by rewrite Hcs, Hcalls, <- app_assoc|].
        split; [by apply Hstep|]. split; [congruence|].
        intros rs' ?; simplify_eq; simpl. by erewrite Hlen.
      * split; [by rewrite Hcs, Hcalls, <- app_assoc|].
        split; [by apply Hstep|]. split; [congruence|]. done.
    + simplify_eq.
      apply solve_frame in Hx as ((_ & _ & _ & _ & _ & Hn) & _ & _ & Hx).
      unfold engine_new, next_call in Hx. rewrite Hk in Hx.
      destruct (ms_new_fv (wl x) (st x) (_boundary (self w))).
      * destruct Hx as (_ & -> & _). exists []. rewrite app_nil_r.
        split_and!; try done; by split.
      * destruct Hx as (-> & _). eexists. split; [done|].
        split_and!; try done. split; [by repeat constructor|]. by split.
Qed.

(** C4.  A semi-vectorial solve with mode profiles that returns leaves in
    [_initial_mode_guess] the element-wise magnitude of the first mode that
    the engine returned, and the next solve hands that array to the engine;
    so in a sweep every engine call after the first receives the magnitude
    of the first mode of the step before it. *)
Theorem semi_vectorial_guess_is_magnitude (w : World) (method : string) :
  kind (self w) = SemiVectorial method ->
  _mode_profiles (self w) = true ->
  (forall structure wavelength r w',
     solve structure wavelength w = (Return r, w') ->
     exists neff m0 rest,
       ms_solve_sv (sv_call w method structure wavelength)
         = inr (neff, Some (m0 :: rest)) /\
       _initial_mode_guess (self w') = Some (np_abs m0) /\
       forall structure' wavelength',
         call_guess (next_call w' structure' wavelength') = Some (np_abs m0)) /\
  (forall structures wavelength filename plot o w',
     solve_sweep_structure structures wavelength filename plot w = (o, w') ->
     exists cs,
       calls w' = calls w ++ cs /\
       warm_chain (_initial_mode_guess (self w)) cs /\
       (forall rs, o = Return rs -> length cs = length structures)) /\
  (forall structure wavelengths filename plot o w',
     solve_sweep_wavelength structure wavelengths filename plot w = (o, w') ->
     exists cs,
       calls w' = calls w ++ cs /\
       warm_chain (_initial_mode_guess (self w)) cs /\
       (forall rs, o = Return rs -> length cs = length wavelengths)).
Proof.
  intros Hk Hmp. split_and!.
  - intros structure wavelength r w' H.
    destruct (solve_sv_returns _ _ _ _ _ _ Hk H)
      as (neff & ms & _ & Hsol & _ & Hcfg & _ & _ & _ & _ & _ & Hp).
    rewrite Hmp in Hp. destruct Hp as (m0 & rest & -> & _ & _ & Hg).
    exists neff, m0, rest. split_and!; try done.
    intros s' wl'. unfold next_call.
    destruct Hcfg as (Hk1 & _). rewrite Hk1, Hk. done.
  - intros structures wavelength filename plot o w' H.
    apply sweep_structure_loop in H as (o1 & w1 & Hl & (_ & _ & Hc) & _ & Hr).
    destruct (loop_calls_sv (fun s => s) (fun _ => wavelength) _ _ _ _ _
                Hk Hmp Hl) as (cs & Hcs & Hchain & Hlen).
    exists cs. rewrite Hc. split_and!; try done.
    intros rs ->. by eapply Hlen, Hr.
  - intros structure wavelengths filename plot o w' H.
    apply sweep_wavelength_loop in H as (o1 & w1 & Hl & (_ & _ & Hc) & _ & Hr).
    destruct (loop_calls_sv (fun _ => structure) (fun wl => wl) _ _ _ _ _
                Hk Hmp Hl) as (cs & Hcs & Hchain & Hlen).
    exists cs. rewrite Hc. split_and!; try done.
    intros rs ->. by eapply Hlen, Hr.
Qed.

(** C5.  A fully-vectorial solve that returns has reset
    [_initial_mode_guess] to [None] and has left [_n_eff_guess] as it was;
    so in a sweep no engine call after the first receives a field as its
    guess, and every engine call receives the solver's [n_eff_guess]. *)
Theorem fully_vectorial_guess_reset (w : World) :
  kind (self w) = FullyVectorial ->
  (forall structure wavelength r w',
     solve structure wavelength w = (Return r, w') ->
     _initial_mode_guess (self w') = None /\
     _n_eff_guess (self w') = _n_eff_guess (self w)) /\
  (forall structures wavelength filename plot o w',
     solve_sweep_structure structures wavelength filename plot w = (o, w') ->
     exists cs,
       calls w' = calls w ++ cs /\
       cold_chain (_initial_mode_guess (self w)) (_n_eff_guess (self w)) cs /\
       _n_eff_guess (self w') = _n_eff_guess (self w)) /\
  (forall structure wavelengths filename plot o w',
     solve_sweep_wavelength structure wavelengths filename plot w = (o, w') ->
     exists cs,
       calls w' = calls w ++ cs /\
       cold_chain (_initial_mode_guess (self w)) (_n_eff_guess (self w)) cs /\
       _n_eff_guess (self w') = _n_eff_guess (self w)).
Proof.
  intros Hk. split_and!.
  - intros structure wavelength r w' H.
    destruct (solve_fv_returns _ _ _ _ _ Hk H)
      as (neff & ms & ovs & mts & _ & _ & _ & Hcfg & _ & _ & _ & _ & _ & Hg & _).
    destruct Hcfg as (_ & _ & _ & _ & _ & Hn). done.
  - intros structures wavelength filename plot o w' H.
    apply sweep_structure_loop in H as (o1 & w1 & Hl & (Hs & _ & Hc) & _).
    destruct (loop_calls_fv (fun s => s) (fun _ => wavelength) _ _ _ _ Hk Hl)
      as (cs & Hcs & Hchain & Hn & _).
    exists cs. rewrite Hc, Hs. done.
  - intros structure wavelengths filename plot o w' H.
    apply sweep_wavelength_loop in H as (o1 & w1 & Hl & (Hs & _ & Hc) & _).
    destruct (loop_calls_fv (fun _ => structure) (fun wl => wl) _ _ _ _ Hk Hl)
      as (cs & Hcs & Hchain & Hn & _).
    exists cs. rewrite Hc, Hs. done.
Qed.

(** C2, as the code has it.  The three solves of [solve_ng] go through the
    same solver object.  The centre solve receives the solver's guess.  With a
    fully-vectorial solver the backward and the forward solve receive no
    field; with a semi-vectorial solver without mode profiles they receive
    the solver's guess again; with a semi-vectorial solver with mode profiles
    the backward solve receives the magnitude of the first mode of the centre
    solve, and the forward solve that of the backward solve. *)
Theorem solve_ng_guess_chain (w w' : World) (ctr bck frw : Structure)
    (wavelength step : R) (n_gs : list npcomplex) :
  solve_ng ctr bck frw wavelength step w = (Return n_gs, w') ->
  exists c1 c2 c3,
    calls w' = calls w ++ [c1; c2; c3] /\
    call_guess c1 = _initial_mode_guess (self w) /\
    match kind (self w) with
    | FullyVectorial => call_guess c2 = None /\ call_guess c3 = None
    | SemiVectorial _ =>
        if _mode_profiles (self w) then
          exists s1 s2 neff1 m1 rest1 neff2 m2 rest2,
            c1 = CallSV s1 /\ c2 = CallSV s2 /\
            ms_solve_sv s1 = inr (neff1, Some (m1 :: rest1)) /\
            call_guess c2 = Some (np_abs m1) /\
            ms_solve_sv s2 = inr (neff2, Some (m2 :: rest2)) /\
            call_guess c3 = Some (np_abs m2)
        else
          call_guess c2 = _initial_mode_guess (self w) /\
          call_guess c3 = _initial_mode_guess (self w)
    end.
Proof.
  intros H.
  apply solve_ng_returns in H as (r1 & w1 & r2 & w2 & r3 & H1 & H2 & H3 & _).
  destruct (kind (self w)) as [method|] eqn:Hk.
  - destruct (solve_sv_returns _ _ _ _ _ _ Hk H1)
      as (neff1 & ms1 & _ & Hs1 & Hc1 & Hcfg1 & _ & _ & _ & _ & _ & Hp1).
    destruct Hcfg1 as (Hk1 & _ & _ & _ & Hmp1 & _). rewrite Hk in Hk1.
    destruct (solve_sv_returns _ _ _ _ _ _ Hk1 H2)
      as (neff2 & ms2 & _ & Hs2 & Hc2 & Hcfg2 & _ & _ & _ & _ & _ & Hp2).
    destruct Hcfg2 as (Hk2 & _ & _ & _ & Hmp2 & _). rewrite Hk1 in Hk2.
    destruct (solve_sv_returns _ _ _ _ _ _ Hk2 H3)
      as (neff3 & ms3 & _ & Hs3 & Hc3 & _).
    eexists _, _, _. split; [by rewrite Hc3, Hc2, Hc1, <- !app_assoc|].
    split; [done|].
    rewrite Hmp1 in Hp2.
    destruct (_mode_profiles (self w)).
    + destruct Hp1 as (m1 & rest1 & -> & _ & _ & Hg1).
      destruct Hp2 as (m2 & rest2 & -> & _ & _ & Hg2).
      eexists _, _, neff1, m1, rest1, neff2, m2, rest2. split_and!; done.
    + destruct Hp1 as (_ & _ & Hg1). destruct Hp2 as (_ & _ & Hg2).
      simpl. rewrite Hg2, Hg1. done.
  - destruct (solve_fv_returns _ _ _ _ _ Hk H1)
      as (? & ? & ? & ? & _ & _ & Hc1 & Hcfg1 & _ & _ & _ & _ & _ & Hg1 & _).
    destruct Hcfg1 as (Hk1 & _). rewrite Hk in Hk1.
    destruct (solve_fv_returns _ _ _ _ _ Hk1 H2)
      as (? & ? & ? & ? & _ & _ & Hc2 & Hcfg2 & _ & _ & _ & _ & _ & Hg2 & _).
    destruct Hcfg2 as (Hk2 & _). rewrite Hk1 in Hk2.
    destruct (solve_fv_returns _ _ _ _ _ Hk2 H3)
      as (? & ? & ? & ? & _ & _ & Hc3 & _).
    eexists _, _, _. split; [by rewrite Hc3, Hc2, Hc1, <- !app_assoc|].
    done.
Qed.

Lemma sweep_structure_abort (w wk w' : World) (rs : list Result) (e : exn)
    (filename : string) (plot : bool) pre s post wavelength :
  for_each (fun s => solve s wavelength) pre w = (Return rs, wk) ->
  solve s wavelength wk = (Raise e, w') ->
  solve_sweep_structure (pre ++ s :: post) wavelength filename plot w
    = (Raise e, w').
Proof.
  intros Hpre Hs.
  pose proof (for_each_abort (fun s => solve s wavelength)
                pre s post w wk w' rs e Hpre Hs) as Hl.
  unfold solve_sweep_structure. unfold bind at 1. by rewrite Hl.
Qed.

Lemma sweep_wavelength_abort (w wk w' : World) (rs : list Result) (e : exn)
    (filename : string) (plot : bool) structure pre wl post :
  for_each (fun wl => solve structure wl) pre w = (Return rs, wk) ->
  solve structure wl wk = (Raise e, w') ->
  solve_sweep_wavelength structure (pre ++ wl :: post) filename plot w
    = (Raise e, w').
Proof.
  intros Hpre Hs.
  pose proof (for_each_abort (fun wl => solve structure wl)
                pre wl post w wk w' rs e Hpre Hs) as Hl.
  unfold solve_sweep_wavelength. unfold bind at 1. by rewrite Hl.
Qed.

(** C3, as the code has it.  When the solves of the first [k] elements of a
    sweep return and the solve of the next element raises [e], the sweep
    raises [e]: it ends in the state in which that solve raised, so no later
    element is solved and nothing is written or plotted, and the caller
    receives no value, so the results of the first [k] steps are not handed
    back. *)
Theorem sweep_aborts_with_exception (w wk w' : World) (rs : list Result)
    (e : exn) (filename : string) (plot : bool) :
  (forall pre s post wavelength,
     for_each (fun s => solve s wavelength) pre w = (Return rs, wk) ->
     solve s wavelength wk = (Raise e, w') ->
     solve_sweep_structure (pre ++ s :: post) wavelength filename plot w
       = (Raise e, w') /\
     returned
       (solve_sweep_structure (pre ++ s :: post) wavelength filename plot w).1
       = None) /\
  (forall structure pre wl post,
     for_each (fun wl => solve structure wl) pre w = (Return rs, wk) ->
     solve structure wl wk = (Raise e, w') ->
     solve_sweep_wavelength structure (pre ++ wl :: post) filename plot w
       = (Raise e, w') /\
     returned
       (solve_sweep_wavelength structure (pre ++ wl :: post) filename plot w).1
       = None).
Proof.
  split.
  - intros pre s post wavelength Hpre Hs.
    by rewrite (sweep_structure_abort _ _ _ _ _ filename plot _ _ post _
                  Hpre Hs).
  - intros structure pre wl post Hpre Hs.
    by rewrite (sweep_wavelength_abort _ _ _ _ _ filename plot _ _ _ post
                  Hpre Hs).
Qed.

(** C6, as the code has it.  The list that a semi-vectorial solve with mode
    profiles returns under ['modes'] is the engine's list with its first
    entry replaced by the magnitude of that entry; the other entries are
    the engine's arrays.  No later solve, sweep or group-index call changes
    that list.  A fully-vectorial solve returns the engine's modes as they
    are. *)
Theorem returned_modes_after_solve (w w' : World) (structure : Structure)
    (wavelength : R) (r : Result) :
  solve structure wavelength w = (Return r, w') ->
  match kind (self w) with
  | SemiVectorial method =>
      exists neff ms,
        ms_solve_sv (sv_call w method structure wavelength)
          = inr (neff, Some ms) /\
        if _mode_profiles (self w) then
          exists m0 rest l,
            ms = m0 :: rest /\
            r_modes r = Some (SVModes l) /\
            deref (heap w') l = np_abs m0 :: rest /\
            forall w'', rtc operation w' w'' ->
                        deref (heap w'') l = np_abs m0 :: rest
        else r_modes r = None
  | FullyVectorial =>
      exists neff ms,
        ms_solve_fv (fv_call w structure wavelength) = inr (neff, Some ms) /\
        r_modes r = Some (FVModes ms)
  end.
Proof.
  intros H. destruct (kind (self w)) as [method|] eqn:Hk.
  - destruct (solve_sv_returns _ _ _ _ _ _ Hk H)
      as (neff & ms & _ & Hs & _ & _ & _ & _ & _ & _ & _ & Hp).
    exists neff, ms. split; [done|].
    destruct (_mode_profiles (self w)); [|by destruct Hp as (_ & ? & _)].
    destruct Hp as (m0 & rest & -> & Hh & Hr & _).
    exists m0, rest, (length (heap w)).
    assert (Hd : deref (heap w') (length (heap w)) = np_abs m0 :: rest)
      by (by rewrite Hh, deref_alloc).
    split_and!; try done.
    intros w'' Hops. apply operations_heap_grow in Hops.
    rewrite (heap_grows_keeps _ _ _ Hops); [done|].
    rewrite Hh, length_app. simpl. lia.
  - destruct (solve_fv_returns _ _ _ _ _ Hk H)
      as (neff & ms & ? & ? & _ & Hs & _ & _ & -> & _).
    by exists neff, ms.
Qed.

(** C7, as the code has it.  For every mode of a fully-vectorial solve
    whose three E-components have positive total energy, the first three
    entries of the overlap vector are the component energies divided by
    that total, times 100, and they add up to 100; the same holds for the
    last three entries and the H-components. *)
Theorem overlaps_sum_to_100 (w w' : World) (structure : Structure)
    (wavelength : R) (r : Result) :
  kind (self w) = FullyVectorial ->
  solve structure wavelength w = (Return r, w') ->
  exists ms ovs,
    r_modes r = Some (FVModes ms) /\
    overlaps (self w') = Some ovs /\
    Forall2 (fun mode ov =>
      exists ex ey ez hx hy hz,
        has_fields mode ex ey ez hx hy hz /\
        length ov = 6%nat /\
        (let total := energy ex + energy ey + energy ez in
         0 < total ->
         exists a b c,
           take 3 ov = [Finite a; Finite b; Finite c] /\
           a = energy ex / total * 100 /\ b = energy ey / total * 100 /\
           c = energy ez / total * 100 /\ a + b + c = 100) /\
        (let total := energy hx + energy hy + energy hz in
         0 < total ->
         exists a b c,
           drop 3 ov = [Finite a; Finite b; Finite c] /\
           a = energy hx / total * 100 /\ b = energy hy / total * 100 /\
           c = energy hz / total * 100 /\ a + b + c = 100)) ms ovs.
Proof.
  intros Hk H.
  destruct (solve_fv_returns _ _ _ _ _ Hk H)
    as (neff & ms & ovs & mts & _ & _ & _ & _ & -> & _ & _ & Ho & _ & _ & _
        & _ & _ & Hov & _).
  exists ms, ovs. split_and!; try done.
  eapply Forall2_impl; [exact Hov|].
  intros mode ov (ex & ey & ez & hx & hy & hz & Hf & ->).
  exists ex, ey, ez, hx, hy, hz. split_and!; try done.
  - intros total Ht. rewrite (areas_positive ex ey ez Ht).
    exists (energy ex / total * 100), (energy ey / total * 100),
      (energy ez / total * 100).
    split_and!; try done. unfold total. field. fold total. lra.
  - intros total Ht. rewrite (areas_positive hx hy hz Ht).
    exists (energy hx / total * 100), (energy hy / total * 100),
      (energy hz / total * 100).
    split_and!; try done. unfold total. field. fold total. lra.
Qed.

Lemma Rfloor_bounds (r : R) : IZR (Rfloor r) <= r < IZR (Rfloor r) + 1.
Proof.
  unfold Rfloor. destruct (archimed r) as [H1 H2].
  rewrite minus_IZR. lra.
Qed.

(** [np.rint] is within one half of its argument. *)
Lemma rint_near (r : R) : - (1 / 2) <= IZR (rint r) - r <= 1 / 2.
Proof.
  pose proof (Rfloor_bounds r) as [H1 H2]. unfold rint.
  destruct (Rlt_dec (r - IZR (Rfloor r)) (1 / 2)); [lra|].
  destruct (Rlt_dec (1 / 2) (r - IZR (Rfloor r)));
    [rewrite plus_IZR; lra|].
  destruct (Z.even (Rfloor r)); [|rewrite plus_IZR]; lra.
Qed.

(** [np.round(x, 2)] of a finite value is a multiple of one hundredth within
    half a hundredth of it. *)
Lemma np_round2_finite (x : R) :
  exists k : Z,
    np_round2 (Finite x) = Finite (IZR k / 100) /\
    Rabs (IZR k / 100 - x) <= 1 / 200.
Proof.
  exists (rint (x * 100)). split; [done|].
  pose proof (rint_near (x * 100)) as H.
  apply Rabs_le. lra.
Qed.

(** C8.  For every mode of a fully-vectorial solve the mode type is the pair
    of a label and a confidence: the label is the entry of
    [qTE, qTM, qTE/qTM] at the index that [np.argmax] gives for the first
    three overlap entries, and the confidence is the overlap entry at that
    index rounded to two decimals.  When those three entries are finite the
    index is the first one that holds their largest value. *)
Theorem mode_type_from_largest_overlap (w w' : World) (structure : Structure)
    (wavelength : R) (r : Result) :
  kind (self w) = FullyVectorial ->
  solve structure wavelength w = (Return r, w') ->
  exists ms ovs mts,
    r_modes r = Some (FVModes ms) /\
    overlaps (self w') = Some ovs /\
    mode_types (self w') = Some mts /\
    length ovs = length ms /\
    Forall2 (fun ov mt =>
      exists idx label v,
        np_argmax (take 3 ov) = Some idx /\
        ["qTE"; "qTM"; "qTE/qTM"] !! idx = Some label /\
        ov !! idx = Some v /\
        mt = (label, np_round2 v) /\
        (forall a b c,
           take 3 ov = [Finite a; Finite b; Finite c] ->
           first_max3 a b c idx /\
           exists (x : R) (k : Z),
             [a; b; c] !! idx = Some x /\
             a <= x /\ b <= x /\ c <= x /\
             mt.2 = Finite (IZR k / 100) /\
             Rabs (IZR k / 100 - x) <= 1 / 200)) ovs mts.
Proof.
  intros Hk H.
  destruct (solve_fv_returns _ _ _ _ _ Hk H)
    as (neff & ms & ovs & mts & _ & _ & _ & _ & -> & _ & _ & Ho & Hm & _ & _
        & _ & _ & Hov & Hmt).
  exists ms, ovs, mts. split_and!; try done.
  { symmetry. by eapply Forall2_length. }
  eapply Forall2_impl; [exact Hmt|].
  intros ov mt (idx & label & v & Hidx & Hl & Hv & ->).
  pose proof (np_argmax_bound _ _ Hidx) as Hb.
  rewrite length_take in Hb.
  rewrite labels_lookup in Hl by lia.
  exists idx, label, v. split_and!; try done.
  intros a b c Hfin. rewrite Hfin in Hidx.
  destruct (np_argmax_finite3 a b c) as (idx' & Hidx' & Hmax).
  rewrite Hidx in Hidx'. simplify_eq. split; [done|].
  assert (Hv' : [Finite a; Finite b; Finite c] !! idx' = Some v).
  { rewrite <- Hfin. rewrite lookup_take_lt by lia. done. }
  assert (exists x, [a; b; c] !! idx' = Some x /\ v = Finite x /\
                    a <= x /\ b <= x /\ c <= x) as (x & Hx & -> & Hle).
  { unfold first_max3 in Hmax.
    destruct Hmax as [(-> & ? & ?)|[(-> & ? & ?)|(-> & ? & ?)]]; simpl in Hv';
      simplify_eq; eexists; (split; [reflexivity|]); split_and!;
      try done; lra. }
  destruct (np_round2_finite x) as (k & Hk1 & Hk2).
  exists x, k. split_and!; try done; tauto.
Qed.


(** C10.  [_get_overlaps] divides the energies of each triplet by their sum
    with no test for zero.  For every mode of a fully-vectorial solve the
    two sums are non-negative, the overlap vector is finite exactly when
    both are positive, and when the three E-components (or the three
    H-components) are zero everywhere the division is [0/0] and the three
    entries are [nan]. *)
Theorem overlaps_defined_iff_positive_energy (w w' : World)
    (structure : Structure) (wavelength : R) (r : Result) :
  kind (self w) = FullyVectorial ->
  solve structure wavelength w = (Return r, w') ->
  exists ms ovs,
    r_modes r = Some (FVModes ms) /\
    overlaps (self w') = Some ovs /\
    Forall2 (fun mode ov =>
      exists ex ey ez hx hy hz,
        has_fields mode ex ey ez hx hy hz /\
        let total_e := energy ex + energy ey + energy ez in
        let total_h := energy hx + energy hy + energy hz in
        ov = map (fun x => np_scale 100 (np_divide (energy x) total_e))
                 [ex; ey; ez]
             ++ map (fun x => np_scale 100 (np_divide (energy x) total_h))
                    [hx; hy; hz] /\
        0 <= total_e /\ 0 <= total_h /\
        (Forall is_finite ov <-> 0 < total_e /\ 0 < total_h) /\
        (all_zero ex /\ all_zero ey /\ all_zero ez <-> total_e = 0) /\
        (all_zero hx /\ all_zero hy /\ all_zero hz <-> total_h = 0) /\
        (total_e = 0 -> take 3 ov = [NaN; NaN; NaN]) /\
        (total_h = 0 -> drop 3 ov = [NaN; NaN; NaN])) ms ovs.
Proof.
  intros Hk H.
  destruct (solve_fv_returns _ _ _ _ _ Hk H)
    as (neff & ms & ovs & mts & _ & _ & _ & _ & -> & _ & _ & Ho & _ & _ & _
        & _ & _ & Hov & _).
  exists ms, ovs. split_and!; try done.
  eapply Forall2_impl; [exact Hov|].
  intros mode ov (ex & ey & ez & hx & hy & hz & Hf & ->).
  exists ex, ey, ez, hx, hy, hz. split; [done|]. intros total_e total_h.
  pose proof (energy_nonneg ex). pose proof (energy_nonneg ey).
  pose proof (energy_nonneg ez). pose proof (energy_nonneg hx).
  pose proof (energy_nonneg hy). pose proof (energy_nonneg hz).
  assert (Hzero : forall a b c,
            all_zero a /\ all_zero b /\ all_zero c <->
            energy a + energy b + energy c = 0).
  { intros a b c. rewrite <- !energy_zero_iff.
    pose proof (energy_nonneg a). pose proof (energy_nonneg b).
    pose proof (energy_nonneg c). split; [intros (? & ? & ?)|intros ?]; 
      [|split_and!]; lra. }
  split_and!.
  - unfold areas. simpl.
    replace (energy ex + (energy ey + (energy ez + 0))) with total_e
      by (unfold total_e; lra).
    replace (energy hx + (energy hy + (energy hz + 0))) with total_h
      by (unfold total_h; lra).
    done.
  - unfold total_e. lra.
  - unfold total_h. lra.
  - split.
    + intros Hfin.
      destruct (Req_dec_T total_e 0) as [He|He].
      { rewrite (areas_zero ex ey ez He) in Hfin.
        by apply Forall_cons_1 in Hfin as [[] _]. }
      destruct (Req_dec_T total_h 0) as [Hh|Hh].
      { rewrite (areas_zero hx hy hz Hh) in Hfin.
        apply Forall_app in Hfin as [_ Hfin].
        by apply Forall_cons_1 in Hfin as [[] _]. }
      unfold total_e, total_h in *. lra.
    + intros [He Hh].
      rewrite (areas_positive ex ey ez He), (areas_positive hx hy hz Hh).
      repeat constructor.
  - apply Hzero.
  - apply Hzero.
  - intros He. by rewrite (areas_zero ex ey ez He).
  - intros Hh. by rewrite (areas_zero hx hy hz Hh).
Qed.

End Claims.

(** * Further properties of the front end *)

Section MoreFacts.

Context {Structure : Type} {lib : ModeSolverLib Structure}.

Local Abbreviation World := (World Structure).

(** ** What a returning solve has done *)

Lemma solve_returns_call (w w' : World) structure wavelength r :
  solve structure wavelength w = (Return r, w') ->
  calls w' = calls w ++ [next_call w structure wavelength] /\
  call_structure (next_call w structure wavelength) = structure /\
  call_wavelength (next_call w structure wavelength) = wavelength /\
  engine_neff (next_call w structure wavelength) = Some (r_n_effs r) /\
  files w' = files w /\ plots w' = plots w.
Proof.
  intros H. unfold next_call.
  destruct (kind (self w)) as [method|] eqn:Hk.
  - destruct (solve_sv_returns _ _ _ _ _ _ Hk H)
      as (neff & ms & _ & Hs & Hc & _ & Hr & _ & _ & Hf & Hp & _).
    simpl. rewrite Hs. simpl. split_and!; congruence.
  - destruct (solve_fv_returns _ _ _ _ _ Hk H)
      as (neff & ms & ovs & mts & _ & Hs & Hc & _ & -> & _ & _ & _ & _ & _
          & _ & Hf & Hp & _).
    simpl. rewrite Hs. simpl. split_and!; congruence.
Qed.

(** The results of a loop of solves that returns, and the engine calls it
    has made. *)
Lemma loop_results {X} (st : X -> Structure) (wl : X -> R) (xs : list X)
    (w w' : World) (rs : list Result) :
  for_each (fun x => solve (st x) (wl x)) xs w = (Return rs, w') ->
  exists cs,
    calls w' = calls w ++ cs /\
    Forall2 (fun x c => call_structure c = st x /\ call_wavelength c = wl x)
      xs cs /\
    Forall2 (fun c r => engine_neff c = Some (r_n_effs r)) cs rs /\
    files w' = files w /\ plots w' = plots w.
Proof.
  revert w rs w'. induction xs as [|x xs IH]; intros w rs w' H; simpl in H.
  - unfold ret in H. simplify_eq. exists []. rewrite app_nil_r.
    split_and!; done.
  - unfold bind at 1 in H.
    destruct (solve (st x) (wl x) w) as [[r|e] w1] eqn:Hx; [|simplify_eq].
    unfold bind at 1 in H.
    destruct (for_each (fun x => solve (st x) (wl x)) xs w1)
      as [[rs'|e] w2] eqn:Hxs; [|simplify_eq].
    unfold ret in H. simplify_eq.
    apply solve_returns_call in Hx as (Hc & Hs & Hw & Hn & Hf & Hp).
    destruct (IH _ _ _ Hxs) as (cs & Hcs & Hxc & Hcr & Hf' & Hp').
    exists (next_call w (st x) (wl x) :: cs).
    split_and!; try congruence.
    + by rewrite Hcs, Hc, <- app_assoc.
    + by constructor.
    + by constructor.
Qed.

(** ** Sweeps that return *)

(** X1.  A sweep that returns hands back one result per element, in the
    order of the elements: the engine has been called once per element, with
    that element (and the fixed wavelength or structure), and result [i]
    carries the effective indices that the engine returned for call [i]. *)
Theorem sweep_results_in_order (w : World) :
  (forall structures wavelength filename plot rs w',
     solve_sweep_structure structures wavelength filename plot w
       = (Return rs, w') ->
     exists cs,
       calls w' = calls w ++ cs /\
       length rs = length structures /\
       Forall2 (fun s c => call_structure c = s /\
                           call_wavelength c = wavelength) structures cs /\
       Forall2 (fun c r => engine_neff c = Some (r_n_effs r)) cs rs) /\
  (forall structure wavelengths filename plot rs w',
     solve_sweep_wavelength structure wavelengths filename plot w
       = (Return rs, w') ->
     exists cs,
       calls w' = calls w ++ cs /\
       length rs = length wavelengths /\
       Forall2 (fun wl c => call_structure c = structure /\
                            call_wavelength c = wl) wavelengths cs /\
       Forall2 (fun c r => engine_neff c = Some (r_n_effs r)) cs rs).
Proof.
  split.
  - intros structures wavelength filename plot rs w' H.
    apply sweep_structure_loop in H as (o1 & w1 & Hl & (_ & _ & Hc) & _ & Hr).
    rewrite (Hr _ eq_refl) in Hl.
    apply (loop_results (fun s => s) (fun _ => wavelength)) in Hl
      as (cs & Hcs & Hxc & Hcr & _).
    exists cs. rewrite Hc. split_and!; try done.
    rewrite <- (Forall2_length _ _ _ Hcr). symmetry.
    by eapply Forall2_length.
  - intros structure wavelengths filename plot rs w' H.
    apply sweep_wavelength_loop in H as (o1 & w1 & Hl & (_ & _ & Hc) & _ & Hr).
    rewrite (Hr _ eq_refl) in Hl.
    apply (loop_results (fun _ => structure) (fun wl => wl)) in Hl
      as (cs & Hcs & Hxc & Hcr & _).
    exists cs. rewrite Hc. split_and!; try done.
    rewrite <- (Forall2_length _ _ _ Hcr). symmetry.
    by eapply Forall2_length.
Qed.

(** ** The text file of effective indices *)

Lemma write_rows_ok (filename : string) (x_vals : option (list R))
    (infos : list Result) (i : nat) (w : World) (old : list Row) :
  files w !! filename = Some old ->
  (forall j info, infos !! j = Some info ->
                  is_Some (row_of x_vals (i + j) info)) ->
  exists rows,
    write_rows filename x_vals i infos w
      = (Return tt, with_files (<[filename := old ++ rows]> (files w)) w) /\
    length rows = length infos /\
    (forall j info, infos !! j = Some info ->
                    rows !! j = row_of x_vals (i + j) info).
Proof.
  revert i w old. induction infos as [|info infos IH]; intros i w old Hold Hok.
  - exists []. simpl. rewrite app_nil_r, insert_id by done.
    split_and!; try done. by destruct w.
  - destruct (Hok 0%nat info eq_refl) as [row Hrow].
    rewrite Nat.add_0_r in Hrow.
    set (w1 := with_files (<[filename := old ++ [row]]> (files w)) w).
    destruct (IH (S i) w1 (old ++ [row])) as (rows & Hrun & Hlen & Hrows).
    { unfold w1. simpl. by rewrite lookup_insert_eq. }
    { intros j info' Hj. rewrite Nat.add_succ_l, <- Nat.add_succ_r.
      by apply (Hok (S j)). }
    exists (row :: rows). split_and!.
    + simpl. unfold row_of in Hrow. unfold bind, expect.
      destruct x_vals as [xs|].
      * unfold bind. destruct (xs !! i) as [x|]; [|done]. simpl.
        destruct (r_n_effs info !! 0%nat) as [n0|]; [|done]. simpl.
        simplify_eq. unfold write_row, modify. rewrite Hold. simpl.
        fold w1. rewrite Hrun. unfold w1, with_files. simpl.
        by rewrite insert_insert_eq, <- app_assoc.
      * simpl. destruct (r_n_effs info !! 0%nat) as [n0|]; [|done]. simpl.
        simplify_eq. unfold write_row, modify. rewrite Hold. simpl.
        fold w1. rewrite Hrun. unfold w1, with_files. simpl.
        by rewrite insert_insert_eq, <- app_assoc.
    + simpl. by rewrite Hlen.
    + intros [|j] info' Hj; simpl in *.
      * simplify_eq. by rewrite Nat.add_0_r.
      * rewrite (Hrows _ _ Hj). f_equal. lia.
Qed.

Lemma write_rows_fail (filename : string) (x_vals : option (list R))
    (pre : list Result) (bad : Result) (post : list Result) (i : nat)
    (w : World) (old : list Row) :
  files w !! filename = Some old ->
  (forall j info, pre !! j = Some info ->
                  is_Some (row_of x_vals (i + j) info)) ->
  row_of x_vals (i + length pre) bad = None ->
  exists rows,
    write_rows filename x_vals i (pre ++ bad :: post) w
      = (Raise IndexError,
         with_files (<[filename := old ++ rows]> (files w)) w) /\
    length rows = length pre /\
    (forall j info, pre !! j = Some info ->
                    rows !! j = row_of x_vals (i + j) info).
Proof.
  revert i w old. induction pre as [|info pre IH]; intros i w old Hold Hok Hbad.
  - exists []. simpl in *. rewrite Nat.add_0_r in Hbad.
    rewrite app_nil_r, insert_id by done.
    split_and!; try done.
    unfold row_of in Hbad. unfold bind, expect.
    destruct x_vals as [xs|].
    + unfold bind. destruct (xs !! i) as [x|]; [|by destruct w]. simpl.
      destruct (r_n_effs bad !! 0%nat) as [n0|]; [done|by destruct w].
    + simpl. destruct (r_n_effs bad !! 0%nat) as [n0|]; [done|by destruct w].
  - destruct (Hok 0%nat info eq_refl) as [row Hrow].
    rewrite Nat.add_0_r in Hrow.
    set (w1 := with_files (<[filename := old ++ [row]]> (files w)) w).
    destruct (IH (S i) w1 (old ++ [row])) as (rows & Hrun & Hlen & Hrows).
    { unfold w1. simpl. by rewrite lookup_insert_eq. }
    { intros j info' Hj. rewrite Nat.add_succ_l, <- Nat.add_succ_r.
      by apply (Hok (S j)). }
    { simpl in Hbad. by rewrite Nat.add_succ_l, <- Nat.add_succ_r. }
    exists (row :: rows). split_and!.
    + simpl. unfold row_of in Hrow. unfold bind, expect.
      destruct x_vals as [xs|].
      * unfold bind. destruct (xs !! i) as [x|]; [|done]. simpl.
        destruct (r_n_effs info !! 0%nat) as [n0|]; [|done]. simpl.
        simplify_eq. unfold write_row, modify. rewrite Hold. simpl.
        fold w1. rewrite Hrun. unfold w1, with_files. simpl.
        by rewrite insert_insert_eq, <- app_assoc.
      * simpl. destruct (r_n_effs info !! 0%nat) as [n0|]; [|done]. simpl.
        simplify_eq. unfold write_row, modify. rewrite Hold. simpl.
        fold w1. rewrite Hrun. unfold w1, with_files. simpl.
        by rewrite insert_insert_eq, <- app_assoc.
    + simpl. by rewrite Hlen.
    + intros [|j] info' Hj; simpl in *.
      * simplify_eq. by rewrite Nat.add_0_r.
      * rewrite (Hrows _ _ Hj). f_equal. lia.
Qed.

Lemma row_of_is_Some (x_vals : option (list R)) (i : nat) (info : Result) :
  r_n_effs info <> [] ->
  match x_vals with Some xs => (i < length xs)%nat | None => True end ->
  is_Some (row_of x_vals i info).
Proof.
  intros Hn Hx. unfold row_of.
  destruct (r_n_effs info) as [|n0 ?]; [done|]. simpl.
  destruct x_vals as [xs|]; [|by eexists].
  destruct (lookup_lt_is_Some_2 xs i Hx) as [x ->]. by eexists.
Qed.

Lemma row_of_None (x_vals : option (list R)) (i : nat) (info : Result) :
  r_n_effs info = [] \/
  (exists xs, x_vals = Some xs /\ (length xs <= i)%nat) ->
  row_of x_vals i info = None.
Proof.
  unfold row_of. intros [Hn | (xs & Hx & Hi)]; [rewrite Hn | rewrite Hx].
  - simpl. destruct x_vals as [xs|]; [|done]. by destruct (xs !! i).
  - by rewrite (lookup_ge_None_2 xs i Hi).
Qed.

Lemma write_rows_inv (filename : string) (x_vals : option (list R))
    (infos : list Result) (i : nat) (w w' : World) :
  write_rows filename x_vals i infos w = (Return tt, w') ->
  forall j info, infos !! j = Some info ->
                 is_Some (row_of x_vals (i + j) info).
Proof.
  revert i w. induction infos as [|info infos IH]; intros i w H j info' Hj;
    [done|].
  simpl in H. unfold bind at 1 in H.
  assert (is_Some (row_of x_vals i info) /\
          exists w1, write_rows filename x_vals (S i) infos w1
                     = (Return tt, w')) as [Hrow [w1 Hrest]].
  { unfold row_of. unfold expect in H. destruct x_vals as [xs|].
    - unfold bind at 1 in H. destruct (xs !! i) as [x|]; [|done].
      simpl in H. unfold bind at 1 in H.
      destruct (r_n_effs info !! 0%nat) as [n0|]; [|done]. simpl in H.
      unfold bind at 1 in H. simpl in H. split; [by eexists|by eexists]. 
    - simpl in H. unfold bind at 1 in H.
      destruct (r_n_effs info !! 0%nat) as [n0|]; [|done]. simpl in H.
      unfold bind at 1 in H. simpl in H. split; [by eexists|by eexists]. }
  destruct j as [|j]; simpl in Hj.
  - simplify_eq. by rewrite Nat.add_0_r.
  - rewrite Nat.add_succ_r, <- Nat.add_succ_l. by eapply IH.
Qed.

(** X2.  When every result has at least one effective index (and [x_vals],
    when given, has an entry for every result), [_write_n_effs_to_file]
    returns, and the file then holds exactly one row per result, in order:
    the position (or [x_vals[i]]) and the real part of the first effective
    index.  What the file held before is gone; the other files, the solver
    and the plots are untouched. *)
Theorem write_n_effs_file_contents (n_effs : list Result) (filename : string)
    (x_vals : option (list R)) (w : World) :
  Forall (fun info => r_n_effs info <> []) n_effs ->
  match x_vals with
  | Some xs => (length n_effs <= length xs)%nat
  | None => True
  end ->
  exists rows w',
    _write_n_effs_to_file n_effs filename x_vals w = (Return tt, w') /\
    files w' = <[filename := rows]> (files w) /\
    same_core w w' /\ plots w' = plots w /\
    length rows = length n_effs /\
    forall i info,
      n_effs !! i = Some info ->
      exists n0 x,
        r_n_effs info !! 0%nat = Some n0 /\
        rows !! i = Some {| row_x := x; row_y := Cplx.re n0 |} /\
        match x_vals with
        | Some xs => exists v, xs !! i = Some v /\ x = XFloat v
        | None => x = XIndex i
        end.
Proof.
  intros Hne Hx.
  destruct (write_rows_ok filename x_vals n_effs 0
              (with_files (<[filename := []]> (files w)) w) [])
    as (rows & Hrun & Hlen & Hrows).
  { simpl. by rewrite lookup_insert_eq. }
  { intros j info Hj. apply row_of_is_Some.
    - by eapply Forall_lookup_1 in Hne.
    - destruct x_vals as [xs|]; [|done].
      apply lookup_lt_Some in Hj. simpl. lia. }
  eexists rows, _. split.
  { unfold _write_n_effs_to_file, bind, modify. exact Hrun. }
  simpl. rewrite insert_insert_eq. split_and!; try done.
  intros i info Hi. specialize (Hrows _ _ Hi). simpl in Hrows.
  unfold row_of in Hrows.
  destruct x_vals as [xs|].
  - destruct (xs !! i) as [v|] eqn:Hv;
      destruct (r_n_effs info !! 0%nat) as [n0|];
      try (apply lookup_lt_Some in Hi; apply lookup_ge_None_1 in Hrows; lia).
    exists n0, (XFloat v). split_and!; try done. by exists v.
  - destruct (r_n_effs info !! 0%nat) as [n0|];
      [|apply lookup_lt_Some in Hi; apply lookup_ge_None_1 in Hrows; lia].
    by exists n0, (XIndex i).
Qed.

(** X3.  At the first result that has no effective index (or for which
    [x_vals] has no entry) [_write_n_effs_to_file] raises [IndexError]; the
    file is left holding the rows of the results before that one. *)
Theorem write_n_effs_file_partial (pre : list Result) (bad : Result)
    (post : list Result) (filename : string) (x_vals : option (list R))
    (w : World) :
  Forall (fun info => r_n_effs info <> []) pre ->
  match x_vals with
  | Some xs => (length pre <= length xs)%nat
  | None => True
  end ->
  r_n_effs bad = [] \/
  (exists xs, x_vals = Some xs /\ length xs = length pre) ->
  exists rows w',
    _write_n_effs_to_file (pre ++ bad :: post) filename x_vals w
      = (Raise IndexError, w') /\
    files w' = <[filename := rows]> (files w) /\
    length rows = length pre /\
    forall i info, pre !! i = Some info -> rows !! i = row_of x_vals i info.
Proof.
  intros Hne Hx Hbad.
  destruct (write_rows_fail filename x_vals pre bad post 0
              (with_files (<[filename := []]> (files w)) w) [])
    as (rows & Hrun & Hlen & Hrows).
  { simpl. by rewrite lookup_insert_eq. }
  { intros j info Hj. apply row_of_is_Some.
    - by eapply Forall_lookup_1 in Hne.
    - destruct x_vals as [xs|]; [|done].
      apply lookup_lt_Some in Hj. simpl. lia. }
  { apply row_of_None. destruct Hbad as [?|(xs & ? & Hl)]; [by left|right].
    exists xs. split; [done|]. simpl. lia. }
  eexists rows, _. split.
  { unfold _write_n_effs_to_file, bind, modify. exact Hrun. }
  simpl. rewrite insert_insert_eq. split_and!; done.
Qed.

(** ** What a sweep writes *)

Lemma first_without_n_eff (rs : list Result) :
  Exists (fun r => r_n_effs r = []) rs ->
  exists pre bad post,
    rs = pre ++ bad :: post /\
    Forall (fun r => r_n_effs r <> []) pre /\ r_n_effs bad = [].
Proof.
  induction rs as [|r rs IH]; intros H; [by apply Exists_nil in H|].
  destruct (r_n_effs r) as [|n0 ns] eqn:Hr.
  - exists [], r, rs. by split_and!.
  - apply Exists_cons in H as [H|H]; [congruence|].
    destruct (IH H) as (pre & bad & post & -> & Hpre & Hbad).
    exists (r :: pre), bad, post. split_and!; try done.
    constructor; [congruence|done].
Qed.

Lemma sweep_structure_returns (structures : list Structure) wavelength
    filename plot (w w' : World) rs :
  solve_sweep_structure structures wavelength filename plot w
    = (Return rs, w') ->
  exists w1,
    for_each (fun s => solve s wavelength) structures w = (Return rs, w1) /\
    if truthy filename then
      exists w2,
        _write_n_effs_to_file rs filename None w1 = (Return tt, w2) /\
        plots w' = plots w2 ++
          (if plot then [{| plot_script := "n_effs.gpi";
                            plot_title := "n_{effs} vs structure";
                            plot_xlabel := "Structure number";
                            plot_ylabel := "n_{eff}";
                            plot_filename_data := filename |}] else []) /\
        files w' = files w2
    else w' = w1.
Proof.
  unfold solve_sweep_structure. unfold bind at 1. intros H.
  destruct (for_each (fun s => solve s wavelength) structures w)
    as [[rs'|e] w1]; [|simplify_eq].
  exists w1. unfold bind at 1 in H.
  destruct (truthy filename).
  - unfold bind at 1 in H.
    destruct (_write_n_effs_to_file rs' filename None w1) as [[[]|e] w2]
      eqn:Hw; [|simplify_eq].
    destruct plot; unfold _plot_n_effs, modify, ret in H; simplify_eq;
      (split; [done|]); eexists; (split; [exact Hw|]); simpl;
      by rewrite ?app_nil_r.
  - unfold ret in H. by simplify_eq.
Qed.

Lemma sweep_wavelength_returns (structure : Structure) wavelengths
    filename plot (w w' : World) rs :
  solve_sweep_wavelength structure wavelengths filename plot w
    = (Return rs, w') ->
  exists w1,
    for_each (fun wl => solve structure wl) wavelengths w = (Return rs, w1) /\
    if truthy filename then
      exists w2,
        _write_n_effs_to_file rs filename (Some wavelengths) w1
          = (Return tt, w2) /\
        plots w' = plots w2 ++
          (if plot then [{| plot_script := "n_effs.gpi";
                            plot_title := "n_{effs} vs wavelength";
                            plot_xlabel := "Wavelength";
                            plot_ylabel := "n_{eff}";
                            plot_filename_data := filename |}] else []) /\
        files w' = files w2
    else w' = w1.
Proof.
  unfold solve_sweep_wavelength. unfold bind at 1. intros H.
  destruct (for_each (fun wl => solve structure wl) wavelengths w)
    as [[rs'|e] w1]; [|simplify_eq].
  exists w1. unfold bind at 1 in H.
  destruct (truthy filename).
  - unfold bind at 1 in H.
    destruct (_write_n_effs_to_file rs' filename (Some wavelengths) w1)
      as [[[]|e] w2] eqn:Hw; [|simplify_eq].
    destruct plot; unfold _plot_n_effs, modify, ret in H; simplify_eq;
      (split; [done|]); eexists; (split; [exact Hw|]); simpl;
      by rewrite ?app_nil_r.
  - unfold ret in H. by simplify_eq.
Qed.

(** The file after a write that returns. *)
Lemma write_n_effs_returns (n_effs : list Result) (filename : string)
    (x_vals : option (list R)) (w w' : World) :
  _write_n_effs_to_file n_effs filename x_vals w = (Return tt, w') ->
  plots w' = plots w /\
  exists rows,
    files w' = <[filename := rows]> (files w) /\
    length rows = length n_effs /\
    forall i info, n_effs !! i = Some info ->
      is_Some (row_of x_vals i info) /\ rows !! i = row_of x_vals i info.
Proof.
  unfold _write_n_effs_to_file, bind, modify. intros H.
  pose proof (write_rows_inv _ _ _ _ _ _ H) as Hall. simpl in Hall.
  destruct (write_rows_ok filename x_vals n_effs 0
              (with_files (<[filename := []]> (files w)) w) [])
    as (rows & Hrun & Hlen & Hrows); [simpl; by rewrite lookup_insert_eq|done|].
  rewrite Hrun in H. simplify_eq. simpl. split; [done|].
  exists rows. rewrite insert_insert_eq. split_and!; try done.
  intros i info Hi. split; [by apply Hall|by apply Hrows].
Qed.

(** X4.  A sweep that returns has produced output only when [filename] is
    not empty: with an empty [filename] no file is written and no plot is
    requested, whatever [plot] is.  Otherwise the file named [filename] holds
    one row per step, in order: the step number (the wavelength of the step,
    for a wavelength sweep) and the real part of the first effective index of
    that step; one plot of that file is requested when [plot] is set. *)
Theorem sweep_output (w : World) :
  (forall structures wavelength filename plot rs w',
     solve_sweep_structure structures wavelength filename plot w
       = (Return rs, w') ->
     if truthy filename then
       exists rows,
         files w' = <[filename := rows]> (files w) /\
         length rows = length structures /\
         (forall i r, rs !! i = Some r ->
            exists n0,
              r_n_effs r !! 0%nat = Some n0 /\
              rows !! i = Some {| row_x := XIndex i; row_y := Cplx.re n0 |}) /\
         exists jobs,
           plots w' = plots w ++ jobs /\
           length jobs = (if plot then 1 else 0)%nat /\
           Forall (fun j => plot_filename_data j = filename /\
                            plot_xlabel j = "Structure number") jobs
     else files w' = files w /\ plots w' = plots w) /\
  (forall structure wavelengths filename plot rs w',
     solve_sweep_wavelength structure wavelengths filename plot w
       = (Return rs, w') ->
     if truthy filename then
       exists rows,
         files w' = <[filename := rows]> (files w) /\
         length rows = length wavelengths /\
         (forall i r, rs !! i = Some r ->
            exists n0 wl,
              r_n_effs r !! 0%nat = Some n0 /\
              wavelengths !! i = Some wl /\
              rows !! i = Some {| row_x := XFloat wl; row_y := Cplx.re n0 |}) /\
         exists jobs,
           plots w' = plots w ++ jobs /\
           length jobs = (if plot then 1 else 0)%nat /\
           Forall (fun j => plot_filename_data j = filename /\
                            plot_xlabel j = "Wavelength") jobs
     else files w' = files w /\ plots w' = plots w).
Proof.
  split.
  - intros structures wavelength filename plot rs w' H.
    apply sweep_structure_returns in H as (w1 & Hl & H).
    apply (loop_results (fun s => s) (fun _ => wavelength)) in Hl
      as (cs & _ & Hxc & Hcr & Hf & Hp).
    destruct (truthy filename); [|by subst].
    destruct H as (w2 & Hw & Hp' & Hf').
    apply write_n_effs_returns in Hw as (Hp2 & rows & Hrows & Hlen & Hrow).
    exists rows. split_and!.
    + by rewrite Hf', Hrows, Hf.
    + rewrite Hlen, <- (Forall2_length _ _ _ Hcr). symmetry.
      by eapply Forall2_length.
    + intros i r Hi. destruct (Hrow _ _ Hi) as [[row Hsome] Heq].
      rewrite Heq. unfold row_of in *.
      destruct (r_n_effs r !! 0%nat) as [n0|]; [|done]. by exists n0.
    + eexists. split; [by rewrite Hp', Hp2, Hp|].
      destruct plot; simpl; split; try done. by repeat constructor.
  - intros structure wavelengths filename plot rs w' H.
    apply sweep_wavelength_returns in H as (w1 & Hl & H).
    apply (loop_results (fun _ => structure) (fun wl => wl)) in Hl
      as (cs & _ & Hxc & Hcr & Hf & Hp).
    destruct (truthy filename); [|by subst].
    destruct H as (w2 & Hw & Hp' & Hf').
    apply write_n_effs_returns in Hw as (Hp2 & rows & Hrows & Hlen & Hrow).
    exists rows. split_and!.
    + by rewrite Hf', Hrows, Hf.
    + rewrite Hlen, <- (Forall2_length _ _ _ Hcr). symmetry.
      by eapply Forall2_length.
    + intros i r Hi. destruct (Hrow _ _ Hi) as [[row Hsome] Heq].
      rewrite Heq. unfold row_of in *.
      destruct (wavelengths !! i) as [wl|]; [|done].
      destruct (r_n_effs r !! 0%nat) as [n0|]; [|done]. by exists n0, wl.
    + eexists. split; [by rewrite Hp', Hp2, Hp|].
      destruct plot; simpl; split; try done. by repeat constructor.
Qed.

(** X5.  A sweep can raise after every one of its solves has returned: when
    [filename] is not empty and some step has an empty sequence of effective
    indices, writing the file raises [IndexError].  The sweep then hands back
    no result and requests no plot, although the engine has been called for
    every element; the file holds exactly the rows of the steps before the
    first step without an effective index. *)
Theorem sweep_raises_after_solving (w w1 : World) (rs : list Result)
    (filename : string) (plot : bool) :
  truthy filename = true ->
  Exists (fun r => r_n_effs r = []) rs ->
  exists pre bad post,
    rs = pre ++ bad :: post /\
    Forall (fun r => r_n_effs r <> []) pre /\ r_n_effs bad = [] /\
    (forall structures wavelength,
       for_each (fun s => solve s wavelength) structures w = (Return rs, w1) ->
       exists w' rows,
         solve_sweep_structure structures wavelength filename plot w
           = (Raise IndexError, w') /\
         calls w' = calls w1 /\
         length (calls w') = (length (calls w) + length structures)%nat /\
         plots w' = plots w /\
         files w' = <[filename := rows]> (files w) /\
         length rows = length pre /\
         (length rows < length structures)%nat /\
         forall i r,
           pre !! i = Some r ->
           exists n0,
             r_n_effs r !! 0%nat = Some n0 /\
             rows !! i = Some {| row_x := XIndex i; row_y := Cplx.re n0 |}) /\
    (forall structure wavelengths,
       for_each (fun wl => solve structure wl) wavelengths w = (Return rs, w1) ->
       exists w' rows,
         solve_sweep_wavelength structure wavelengths filename plot w
           = (Raise IndexError, w') /\
         calls w' = calls w1 /\
         length (calls w') = (length (calls w) + length wavelengths)%nat /\
         plots w' = plots w /\
         files w' = <[filename := rows]> (files w) /\
         length rows = length pre /\
         (length rows < length wavelengths)%nat /\
         forall i r,
           pre !! i = Some r ->
           exists n0 wl,
             r_n_effs r !! 0%nat = Some n0 /\
             wavelengths !! i = Some wl /\
             rows !! i = Some {| row_x := XFloat wl; row_y := Cplx.re n0 |}).
Proof.
  intros Ht Hex.
  destruct (first_without_n_eff rs Hex) as (pre & bad & post & -> & Hpre & Hbad).
  exists pre, bad, post. split_and!; try done.
  - intros structures wavelength Hl.
    destruct (write_rows_fail filename None pre bad post 0
                (with_files (<[filename := []]> (files w1)) w1) [])
      as (rows & Hrun & Hlen & Hrows).
    { simpl. by rewrite lookup_insert_eq. }
    { intros j info Hj. apply row_of_is_Some; [|done].
      by eapply Forall_lookup_1 in Hpre. }
    { apply row_of_None. by left. }
    eexists _, rows. split.
    { unfold solve_sweep_structure. unfold bind at 1. rewrite Hl.
      unfold bind at 1. rewrite Ht. unfold bind at 1.
      unfold _write_n_effs_to_file. unfold bind at 1. unfold modify.
      rewrite Hrun. reflexivity. }
    apply (loop_results (fun s => s) (fun _ => wavelength)) in Hl
      as (cs & Hc & Hxc & Hcr & Hf & Hp).
    assert (Hn : length structures = length (pre ++ bad :: post))
      by (by rewrite (Forall2_length _ _ _ Hxc), (Forall2_length _ _ _ Hcr)).
    rewrite length_app in Hn. simpl in Hn.
    simpl. rewrite insert_insert_eq, Hf. split_and!; try done.
    + rewrite Hc, length_app, <- (Forall2_length _ _ _ Hxc). done.
    + lia.
    + intros i r Hi. specialize (Hrows _ _ Hi). simpl in Hrows.
      unfold row_of in Hrows.
      pose proof (Forall_lookup_1 _ _ _ _ Hpre Hi) as Hne. simpl in Hne.
      destruct (r_n_effs r) as [|n0 ?]; [done|]. by exists n0.
  - intros structure wavelengths Hl.
    pose proof Hl as Hl'.
    apply (loop_results (fun _ => structure) (fun wl => wl)) in Hl'
      as (cs & Hc & Hxc & Hcr & Hf & Hp).
    assert (Hlen' : length wavelengths = length (pre ++ bad :: post))
      by (by rewrite (Forall2_length _ _ _ Hxc), (Forall2_length _ _ _ Hcr)).
    rewrite length_app in Hlen'. simpl in Hlen'.
    destruct (write_rows_fail filename (Some wavelengths) pre bad post 0
                (with_files (<[filename := []]> (files w1)) w1) [])
      as (rows & Hrun & Hlen & Hrows).
    { simpl. by rewrite lookup_insert_eq. }
    { intros j info Hj. apply row_of_is_Some.
      - by eapply Forall_lookup_1 in Hpre.
      - apply lookup_lt_Some in Hj. simpl. lia. }
    { apply row_of_None. by left. }
    eexists _, rows. split.
    { unfold solve_sweep_wavelength. unfold bind at 1. rewrite Hl.
      unfold bind at 1. rewrite Ht. unfold bind at 1.
      unfold _write_n_effs_to_file. unfold bind at 1. unfold modify.
      rewrite Hrun. reflexivity. }
    simpl. rewrite insert_insert_eq, Hf. split_and!; try done.
    + rewrite Hc, length_app, <- (Forall2_length _ _ _ Hxc). done.
    + lia.
    + intros i r Hi. specialize (Hrows _ _ Hi). simpl in Hrows.
      unfold row_of in Hrows.
      pose proof (Forall_lookup_1 _ _ _ _ Hpre Hi) as Hne. simpl in Hne.
      destruct (lookup_lt_is_Some_2 wavelengths i) as [wl Hwl].
      { apply lookup_lt_Some in Hi. lia. }
      rewrite Hwl in Hrows.
      destruct (r_n_effs r) as [|n0 ?]; [done|]. by exists n0, wl.
Qed.

(** ** Solves that raise *)

(** What a solve has assigned when the engine raised: only [_structure]
    (and [_ms]). *)
Lemma solve_engine_raises (w w' : World) structure wavelength o e :
  solve structure wavelength w = (o, w') ->
  engine_new w structure wavelength = Some e \/
  (engine_new w structure wavelength = None /\
   engine_error (next_call w structure wavelength) = Some e) ->
  o = Raise e /\
  _structure (self w') = Some structure /\
  n_effs (self w') = n_effs (self w) /\
  modes (self w') = modes (self w) /\
  overlaps (self w') = overlaps (self w) /\
  mode_types (self w') = mode_types (self w) /\
  _initial_mode_guess (self w') = _initial_mode_guess (self w) /\
  heap w' = heap w.
Proof.
  intros H He. unfold engine_new, next_call, engine_error in He.
  unfold solve, _solve, bind, get_self in H.
  destruct (kind (self w)) as [method|] eqn:Hk.
  - unfold _solve_semi_vectorial, run_engine_sv, bind, set_self, modify,
      get_self, ms_get_neff, ms_get_modes, expect, lift, with_self in H.
    simpl in H.
    destruct (ms_new_sv wavelength structure (_boundary (self w)) method)
      eqn:Hnew.
    { destruct He as [He|[He _]]; [|done].
      unfold raise in H. by simplify_eq. }
    destruct He as [He|[_ He]]; [done|]. simpl in He.
    fold (sv_call w method structure wavelength) in H.
    destruct (ms_solve_sv (sv_call w method structure wavelength))
      as [e'|out]; [|done]. simpl in H. by simplify_eq.
  - unfold _solve_fully_vectorial, run_engine_fv, bind, set_self, modify,
      get_self, ms_get_neff, ms_get_modes, expect, lift, with_self in H.
    simpl in H.
    destruct (ms_new_fv wavelength structure (_boundary (self w))) eqn:Hnew.
    { destruct He as [He|[He _]]; [|done].
      unfold raise in H. by simplify_eq. }
    destruct He as [He|[_ He]]; [done|]. simpl in He.
    fold (fv_call w structure wavelength) in H.
    destruct (ms_solve_fv (fv_call w structure wavelength))
      as [e'|out]; [|done]. simpl in H. by simplify_eq.
Qed.

(** X6.  When the engine raises (in its constructor or in its [solve]), the
    solve raises the same exception and keeps [n_effs], [modes], [overlaps],
    [mode_types] and the guess of the solve before, but [_structure] is
    already the structure of the failed solve: the solver then pairs the
    results of one structure with another structure. *)
Theorem failed_solve_keeps_results (w w' : World) (structure : Structure)
    (wavelength : R) (o : Outcome Result) (e : exn) :
  solve structure wavelength w = (o, w') ->
  engine_new w structure wavelength = Some e \/
  (engine_new w structure wavelength = None /\
   engine_error (next_call w structure wavelength) = Some e) ->
  o = Raise e /\
  _structure (self w') = Some structure /\
  n_effs (self w') = n_effs (self w) /\
  modes (self w') = modes (self w) /\
  overlaps (self w') = overlaps (self w) /\
  mode_types (self w') = mode_types (self w) /\
  _initial_mode_guess (self w') = _initial_mode_guess (self w).
Proof.
  intros H He.
  destruct (solve_engine_raises _ _ _ _ _ _ H He)
    as (? & ? & ? & ? & ? & ? & ? & _).
  done.
Qed.

(** X7.  [solve_ng] raises exactly when one of its three solves raises: it
    raises the exception of the first solve that fails, in the state in
    which that solve failed, so no later solve is attempted. *)
Theorem solve_ng_raises_iff (w w' : World) (ctr bck frw : Structure)
    (wavelength step : R) (e : exn) :
  solve_ng ctr bck frw wavelength step w = (Raise e, w') <->
  solve ctr wavelength w = (Raise e, w') \/
  (exists r1 w1,
     solve ctr wavelength w = (Return r1, w1) /\
     solve bck (wavelength - step) w1 = (Raise e, w')) \/
  (exists r1 w1 r2 w2,
     solve ctr wavelength w = (Return r1, w1) /\
     solve bck (wavelength - step) w1 = (Return r2, w2) /\
     solve frw (wavelength + step) w2 = (Raise e, w')).
Proof.
  unfold solve_ng. unfold bind at 1.
  destruct (solve ctr wavelength w) as [[r1|e1] w1] eqn:H1.
  2:{ split; [intros ?; simplify_eq; by left|].
      intros [?|[(? & ? & ? & _)|(? & ? & ? & ? & ? & _)]]; simplify_eq; congruence. }
  unfold bind at 1. rewrite (get_n_effs_after _ _ _ _ _ H1).
  unfold bind at 1.
  destruct (solve bck (wavelength - step) w1) as [[r2|e2] w2] eqn:H2.
  2:{ split; [intros ?; simplify_eq; right; left; by eauto|].
      intros [?|[(? & ? & ? & ?)|(? & ? & ? & ? & ? & ? & _)]];
        simplify_eq; congruence. }
  unfold bind at 1. rewrite (get_n_effs_after _ _ _ _ _ H2).
  unfold bind at 1.
  destruct (solve frw (wavelength + step) w2) as [[r3|e3] w3] eqn:H3.
  - unfold bind at 1. rewrite (get_n_effs_after _ _ _ _ _ H3).
    split; [done|].
    intros [?|[(? & ? & ? & ?)|(? & ? & ? & ? & ? & ? & ?)]]; simplify_eq; congruence.
  - split; [intros ?; simplify_eq; right; right; by eauto 10|].
    intros [?|[(? & ? & ? & ?)|(? & ? & ? & ? & ? & ? & ?)]]; simplify_eq; congruence.
Qed.

(** ** The state after a solve *)

Lemma solve_sets_structure (w w' : World) structure wavelength o :
  solve structure wavelength w = (o, w') ->
  _structure (self w') = Some structure.
Proof.
  intros H.
  unfold solve, _solve, bind, get_self in H.
  destruct (kind (self w)) as [method|] eqn:Hk.
  - unfold _solve_semi_vectorial, run_engine_sv, bind, set_self, modify,
      get_self, ms_get_neff, ms_get_modes, expect, lift, with_self in H.
    simpl in H.
    destruct (ms_new_sv wavelength structure (_boundary (self w)) method);
      [unfold raise in H; by simplify_eq|].
    destruct (ms_solve_sv _) as [e|[neff oms]]; simpl in H;
      [by simplify_eq|].
    destruct oms as [ms|]; simpl in H.
    2:{ destruct (_mode_profiles (self w)); simpl in H; by simplify_eq. }
    destruct (_mode_profiles (self w)); simpl in H.
    + unfold list_get, bind, get, expect in H. simpl in H.
      rewrite deref_alloc in H.
      destruct ms as [|m0 rest]; simpl in H; [by simplify_eq|].
      rewrite deref_alloc, store_alloc, deref_alloc in H. simpl in H.
      unfold ret in H. by simplify_eq.
    + unfold ret in H. by simplify_eq.
  - unfold _solve_fully_vectorial, run_engine_fv, bind, set_self, modify,
      get_self, ms_get_neff, ms_get_modes, expect, lift, with_self in H.
    simpl in H.
    destruct (ms_new_fv wavelength structure (_boundary (self w)));
      [unfold raise in H; by simplify_eq|].
    destruct (ms_solve_fv _) as [e|[neff oms]]; simpl in H;
      [by simplify_eq|].
    destruct oms as [ms|]; simpl in H; [|by simplify_eq].
    unfold _get_overlaps, ms_get_modes, fv_list, bind, get_self, expect in H.
    simpl in H.
    match type of H with
    | context [for_each mode_areas ms ?w0] =>
        pose proof (for_each_frame mode_areas ms w0 mode_areas_frame) as Hov;
        destruct (for_each mode_areas ms w0) as [[ovs|e] w1]
    end; simpl in Hov; subst w1; [|by simplify_eq].
    unfold _get_mode_types, bind, get_self, expect in H. simpl in H.
    match type of H with
    | context [for_each mode_type ovs ?w0] =>
        pose proof (for_each_frame mode_type ovs w0 mode_type_frame) as Hmt;
        destruct (for_each mode_type ovs w0) as [[mts|e] w1]
    end; simpl in Hmt; subst w1; [|by simplify_eq].
    unfold ret in H. by simplify_eq.
Qed.

(** X8.  After [solve_ng] has returned, the solver shows the forward solve,
    not the centre one: [_structure] is the forward structure and [n_effs]
    holds the effective indices that the engine returned at
    [wavelength + wavelength_step]; the engine has been called three times,
    for the centre, backward and forward structure, in that order. *)
Theorem solve_ng_leaves_forward_state (w w' : World)
    (ctr bck frw : Structure) (wavelength step : R) (n_gs : list npcomplex) :
  solve_ng ctr bck frw wavelength step w = (Return n_gs, w') ->
  exists c1 c2 c3,
    calls w' = calls w ++ [c1; c2; c3] /\
    call_structure c1 = ctr /\ call_wavelength c1 = wavelength /\
    call_structure c2 = bck /\ call_wavelength c2 = wavelength - step /\
    call_structure c3 = frw /\ call_wavelength c3 = wavelength + step /\
    _structure (self w') = Some frw /\
    n_effs (self w') = engine_neff c3.
Proof.
  intros H.
  apply solve_ng_returns in H as (r1 & w1 & r2 & w2 & r3 & H1 & H2 & H3 & _).
  pose proof (solve_sets_structure _ _ _ _ _ H3) as Hst.
  pose proof (solve_returns_n_effs _ _ _ _ _ H3) as Hn.
  apply solve_returns_call in H1 as (Hc1 & ? & ? & _).
  apply solve_returns_call in H2 as (Hc2 & ? & ? & _).
  apply solve_returns_call in H3 as (Hc3 & ? & ? & Hn3 & _).
  eexists _, _, _. split; [by rewrite Hc3, Hc2, Hc1, <- !app_assoc|].
  split_and!; try done. by rewrite Hn3.
Qed.

(** X9.  A semi-vectorial solve needs the engine's [modes]: when the engine
    has set no [modes] attribute the solve raises [AttributeError], with or
    without mode profiles; when mode profiles are on and the engine's list
    of modes is empty it raises [IndexError].  In both cases [n_effs] is
    already that of the new solve, while [modes] and the guess are still
    those of the solve before. *)
Theorem semi_vectorial_solve_without_modes (w : World) (method : string)
    (structure : Structure) (wavelength : R) (neff : list C)
    (oms : option (list ndarray)) :
  kind (self w) = SemiVectorial method ->
  ms_new_sv wavelength structure (_boundary (self w)) method = None ->
  ms_solve_sv (sv_call w method structure wavelength) = inr (neff, oms) ->
  oms = None \/ (oms = Some [] /\ _mode_profiles (self w) = true) ->
  exists w',
    solve structure wavelength w
      = (Raise (match oms with
                | None => AttributeError "modes"
                | Some _ => IndexError
                end), w') /\
    n_effs (self w') = Some neff /\
    modes (self w') = modes (self w) /\
    _initial_mode_guess (self w') = _initial_mode_guess (self w).
Proof.
  intros Hk Hnew Hsolve Hcase.
  unfold solve, _solve, bind, get_self. rewrite Hk.
  unfold _solve_semi_vectorial, run_engine_sv, bind, set_self, modify,
    get_self, ms_get_neff, ms_get_modes, expect, lift, with_self.
  simpl. rewrite Hnew.
  fold (sv_call w method structure wavelength). rewrite Hsolve. simpl.
  destruct Hcase as [->|[-> Hmp]]; simpl.
  - destruct (_mode_profiles (self w)); simpl; eexists; by split_and!.
  - rewrite Hmp. simpl. unfold list_get, bind, get, expect. simpl.
    rewrite deref_alloc. simpl. eexists. by split_and!.
Qed.

(** X10.  A semi-vectorial solve returns exactly when the engine's
    constructor and [solve] do not raise, the engine has set [modes], and,
    with mode profiles on, that list is not empty. *)
Theorem semi_vectorial_solve_returns_iff (w : World) (method : string)
    (structure : Structure) (wavelength : R) :
  kind (self w) = SemiVectorial method ->
  (exists r w', solve structure wavelength w = (Return r, w')) <->
  ms_new_sv wavelength structure (_boundary (self w)) method = None /\
  exists neff ms,
    ms_solve_sv (sv_call w method structure wavelength)
      = inr (neff, Some ms) /\
    (_mode_profiles (self w) = true -> ms <> []).
Proof.
  intros Hk. split.
  - intros (r & w' & H).
    destruct (solve_sv_returns _ _ _ _ _ _ Hk H)
      as (neff & ms & Hnew & Hs & _ & _ & _ & _ & _ & _ & _ & Hp).
    split; [done|]. exists neff, ms. split; [done|].
    intros Hmp. rewrite Hmp in Hp. by destruct Hp as (? & ? & -> & _).
  - intros (Hnew & neff & ms & Hs & Hne).
    destruct (_mode_profiles (self w)) eqn:Hmp.
    + destruct ms as [|m0 rest]; [by destruct (Hne eq_refl)|].
      by eapply solve_sv_ok.
    + unfold solve, _solve, bind, get_self. rewrite Hk.
      unfold _solve_semi_vectorial, run_engine_sv, bind, set_self, modify,
        get_self, ms_get_neff, ms_get_modes, expect, lift, with_self.
      simpl. rewrite Hnew.
      fold (sv_call w method structure wavelength). rewrite Hs. simpl.
      rewrite Hmp. simpl. by eauto.
Qed.

(** X11.  After a semi-vectorial solve with mode profiles has returned, the
    solver's [modes] and the ['modes'] entry of the result are one and the
    same list, a list that did not exist before the solve, and the guess for
    the next solve has the values of its first entry.  Without mode profiles
    the result has no ['modes'] entry, [modes] is the engine's list as the
    engine built it, and the guess is unchanged. *)
Theorem semi_vectorial_modes_alias (w w' : World) (method : string)
    (structure : Structure) (wavelength : R) (r : Result) :
  kind (self w) = SemiVectorial method ->
  solve structure wavelength w = (Return r, w') ->
  exists l ms,
    modes (self w') = Some (SVModes l) /\
    deref (heap w') l = ms /\
    (length (heap w) <= l)%nat /\
    if _mode_profiles (self w) then
      r_modes r = Some (SVModes l) /\
      exists m rest,
        ms = m :: rest /\ _initial_mode_guess (self w') = Some m
    else
      r_modes r = None /\
      (exists neff,
         ms_solve_sv (sv_call w method structure wavelength)
           = inr (neff, Some ms)) /\
      _initial_mode_guess (self w') = _initial_mode_guess (self w).
Proof.
  intros Hk H.
  destruct (solve_sv_returns _ _ _ _ _ _ Hk H)
    as (neff & ms & _ & Hs & _ & _ & _ & _ & Hm & _ & _ & Hp).
  exists (length (heap w)). eexists. split; [done|]. split; [done|].
  split; [done|].
  destruct (_mode_profiles (self w)).
  - destruct Hp as (m0 & rest & -> & Hh & Hr & Hg).
    split; [done|]. exists (np_abs m0), rest.
    rewrite Hh, deref_alloc. done.
  - destruct Hp as (Hh & Hr & Hg). rewrite Hh, deref_alloc.
    split_and!; try done. by exists neff.
Qed.

(** ** Fully-vectorial solves *)

Lemma overlap_of_six (mode : VMode) (ov : list npfloat) :
  overlap_of mode ov -> six_fields mode.
Proof.
  intros (ex & ey & ez & hx & hy & hz & Hf & _).
  by exists ex, ey, ez, hx, hy, hz.
Qed.

(** X12.  A fully-vectorial solve returns exactly when the engine's
    constructor and [solve] do not raise, the engine has set [modes], and
    every mode has the six fields [Ex], [Ey], [Ez], [Hx], [Hy], [Hz]. *)
Theorem fully_vectorial_solve_returns_iff (w : World) (structure : Structure)
    (wavelength : R) :
  kind (self w) = FullyVectorial ->
  (exists r w', solve structure wavelength w = (Return r, w')) <->
  ms_new_fv wavelength structure (_boundary (self w)) = None /\
  exists neff ms,
    ms_solve_fv (fv_call w structure wavelength) = inr (neff, Some ms) /\
    Forall six_fields ms.
Proof.
  intros Hk. split.
  - intros (r & w' & H).
    destruct (solve_fv_returns _ _ _ _ _ Hk H)
      as (neff & ms & ovs & mts & Hnew & Hs & _ & _ & _ & _ & _ & _ & _ & _
          & _ & _ & _ & Hov & _).
    split; [done|]. exists neff, ms. split; [done|].
    clear -Hov. induction Hov; constructor; [by eapply overlap_of_six|done].
  - intros (Hnew & neff & ms & Hs & Hsix). by eapply solve_fv_ok.
Qed.

(** The first of the six names that a mode lacks. *)
Lemma mode_areas_missing (mode : VMode) (before : list string) (key : string)
    (after : list string) (w : World) :
  ["Ex"; "Ey"; "Ez"; "Hx"; "Hy"; "Hz"] = before ++ key :: after ->
  Forall (fun name => is_Some (fields mode !! name)) before ->
  fields mode !! key = None ->
  mode_areas mode w = (Raise (KeyError key), w).
Proof.
  intros Hnames Hbefore Hkey.
  unfold mode_areas, field, bind, expect.
  repeat (destruct before as [|name before];
          [simpl in Hnames; simplify_eq; rewrite ?Hkey; done|];
          simpl in Hnames; injection Hnames as <- Hnames;
          apply Forall_cons_1 in Hbefore as [[? ->] Hbefore]; simpl).
  by destruct before.
Qed.

(** X13.  When some mode of a fully-vectorial solve lacks one of the six
    fields, the solve raises [KeyError] for the first missing name of the
    first such mode.  [n_effs] and [modes] are then those of the new solve,
    but [overlaps] and [mode_types] are still those of the solve before, and
    the guess has not been reset. *)
Theorem fully_vectorial_solve_missing_field (w : World)
    (structure : Structure) (wavelength : R) (neff : list C)
    (pre : list VMode) (mode : VMode) (post : list VMode)
    (before : list string) (key : string) (after : list string) :
  kind (self w) = FullyVectorial ->
  ms_new_fv wavelength structure (_boundary (self w)) = None ->
  ms_solve_fv (fv_call w structure wavelength)
    = inr (neff, Some (pre ++ mode :: post)) ->
  Forall six_fields pre ->
  ["Ex"; "Ey"; "Ez"; "Hx"; "Hy"; "Hz"] = before ++ key :: after ->
  Forall (fun name => is_Some (fields mode !! name)) before ->
  fields mode !! key = None ->
  exists w',
    solve structure wavelength w = (Raise (KeyError key), w') /\
    n_effs (self w') = Some neff /\
    modes (self w') = Some (FVModes (pre ++ mode :: post)) /\
    overlaps (self w') = overlaps (self w) /\
    mode_types (self w') = mode_types (self w) /\
    _initial_mode_guess (self w') = _initial_mode_guess (self w).
Proof.
  intros Hk Hnew Hsolve Hpre Hnames Hbefore Hkey.
  destruct (for_each_ok (mode_areas (Structure := Structure))
              (fun ov => length ov = 6%nat) pre) as (ovs & _ & Hov).
  { eapply Forall_impl; [exact Hpre|]. intros m Hm. by apply mode_areas_ok. }
  unfold solve, _solve, bind, get_self. rewrite Hk.
  unfold _solve_fully_vectorial, run_engine_fv, bind, set_self, modify,
    get_self, ms_get_neff, ms_get_modes, expect, lift, with_self.
  simpl. rewrite Hnew.
  fold (fv_call w structure wavelength). rewrite Hsolve. simpl.
  unfold _get_overlaps, ms_get_modes, fv_list, bind, get_self, expect.
  simpl.
  match goal with
  | |- context [for_each mode_areas _ ?w0] =>
      rewrite (for_each_abort mode_areas pre mode post w0 w0 w0 ovs
                 (KeyError key) (Hov w0)
                 (mode_areas_missing _ _ _ _ w0 Hnames Hbefore Hkey))
  end.
  eexists. by split_and!.
Qed.

(** X14.  For every mode of a fully-vectorial solve whose E-components and
    H-components both carry energy, each of the six overlap entries is a
    percentage between 0 and 100. *)
Theorem overlaps_are_percentages (w w' : World) (structure : Structure)
    (wavelength : R) (r : Result) :
  kind (self w) = FullyVectorial ->
  solve structure wavelength w = (Return r, w') ->
  exists ms ovs,
    r_modes r = Some (FVModes ms) /\
    overlaps (self w') = Some ovs /\
    Forall2 (fun mode ov =>
      exists ex ey ez hx hy hz,
        has_fields mode ex ey ez hx hy hz /\
        (0 < energy ex + energy ey + energy ez ->
         0 < energy hx + energy hy + energy hz ->
         Forall (fun x => exists p, x = Finite p /\ 0 <= p <= 100) ov))
      ms ovs.
Proof.
  intros Hk H.
  destruct (solve_fv_returns _ _ _ _ _ Hk H)
    as (neff & ms & ovs & mts & _ & _ & _ & _ & -> & _ & _ & Ho & _ & _ & _
        & _ & _ & Hov & _).
  exists ms, ovs. split_and!; try done.
  eapply Forall2_impl; [exact Hov|].
  intros mode ov (ex & ey & ez & hx & hy & hz & Hf & ->).
  exists ex, ey, ez, hx, hy, hz. split; [done|]. intros He Hh.
  rewrite (areas_positive ex ey ez He), (areas_positive hx hy hz Hh).
  assert (Hpct : forall x total, 0 <= x <= total -> 0 < total ->
                                 0 <= x / total * 100 <= 100).
  { intros x total [Hx1 Hx2] Ht.
    assert (Hinv : 0 < / total) by (apply Rinv_0_lt_compat; lra).
    assert (Hone : total * / total = 1) by (apply Rinv_r; lra).
    unfold Rdiv. split; nra. }
  pose proof (energy_nonneg ex). pose proof (energy_nonneg ey).
  pose proof (energy_nonneg ez). pose proof (energy_nonneg hx).
  pose proof (energy_nonneg hy). pose proof (energy_nonneg hz).
  repeat constructor; eexists; (split; [reflexivity|]);
    apply Hpct; lra.
Qed.

Lemma Forall2_chain {A B D} (P : A -> B -> Prop) (Q : B -> D -> Prop)
    (l : list A) (k : list B) (m : list D) :
  Forall2 P l k -> Forall2 Q k m ->
  Forall2 (fun x z => exists y, P x y /\ Q y z) l m.
Proof.
  intros H. revert m. induction H as [|x y l k Hxy Hlk IH]; intros m Hm.
  - apply Forall2_nil_inv_l in Hm as ->. constructor.
  - apply Forall2_cons_inv_l in Hm as (z & m' & Hyz & Hkm & ->).
    constructor; [by exists y|by apply IH].
Qed.

(** The fractions of a triplet are ordered as its energies. *)
Lemma fraction_order (x y total : R) :
  0 < total ->
  (x / total * 100 <= y / total * 100 <-> x <= y) /\
  (x / total * 100 < y / total * 100 <-> x < y).
Proof.
  intros Ht.
  assert (Hinv : 0 < / total) by (apply Rinv_0_lt_compat; lra).
  unfold Rdiv. split; split; intros H; nra.
Qed.

(** X15.  For every mode of a fully-vectorial solve whose E-components
    carry energy, the label is decided by the three E-energies themselves:
    [qTE] when [Ex] has at least the energy of [Ey] and of [Ez]; [qTM] when
    [Ey] has more than [Ex] and at least that of [Ez]; [qTE/qTM] when [Ez]
    has more than both. *)
Theorem mode_label_by_energy (w w' : World) (structure : Structure)
    (wavelength : R) (r : Result) :
  kind (self w) = FullyVectorial ->
  solve structure wavelength w = (Return r, w') ->
  exists ms mts,
    r_modes r = Some (FVModes ms) /\
    mode_types (self w') = Some mts /\
    Forall2 (fun mode mt =>
      exists ex ey ez hx hy hz,
        has_fields mode ex ey ez hx hy hz /\
        (0 < energy ex + energy ey + energy ez ->
         (mt.1 = "qTE" /\ energy ey <= energy ex /\ energy ez <= energy ex) \/
         (mt.1 = "qTM" /\ energy ex < energy ey /\ energy ez <= energy ey) \/
         (mt.1 = "qTE/qTM" /\ energy ex < energy ez /\ energy ey < energy ez)))
      ms mts.
Proof.
  intros Hk H.
  destruct (solve_fv_returns _ _ _ _ _ Hk H)
    as (neff & ms & ovs & mts & _ & _ & _ & _ & -> & _ & _ & _ & Hm & _ & _
        & _ & _ & Hov & Hmt).
  exists ms, mts. split_and!; try done.
  eapply Forall2_impl; [exact (Forall2_chain _ _ _ _ _ Hov Hmt)|].
  intros mode mt (ov & (ex & ey & ez & hx & hy & hz & Hf & ->)
                  & idx & label & v & Hidx & Hl & Hv & ->).
  exists ex, ey, ez, hx, hy, hz. split; [done|]. intros He.
  rewrite (areas_positive ex ey ez He) in Hidx. cbn [firstn app] in Hidx.
  change (take 0 (areas [hx; hy; hz])) with (@nil npfloat) in Hidx.
  destruct (np_argmax_finite3 (energy ex / (energy ex + energy ey + energy ez) * 100)
              (energy ey / (energy ex + energy ey + energy ez) * 100)
              (energy ez / (energy ex + energy ey + energy ez) * 100))
    as (idx' & Hidx' & Hmax).
  rewrite Hidx in Hidx'. simplify_eq.
  pose proof (fraction_order (energy ex) (energy ey) _ He) as [? ?].
  pose proof (fraction_order (energy ey) (energy ex) _ He) as [? ?].
  pose proof (fraction_order (energy ex) (energy ez) _ He) as [? ?].
  pose proof (fraction_order (energy ez) (energy ex) _ He) as [? ?].
  pose proof (fraction_order (energy ey) (energy ez) _ He) as [? ?].
  pose proof (fraction_order (energy ez) (energy ey) _ He) as [? ?].
  simpl.
  destruct Hmax as [(-> & ? & ?)|[(-> & ? & ?)|(-> & ? & ?)]];
    rewrite labels_lookup in Hl by lia; simpl in Hl; simplify_eq;
    [left|right; left|right; right]; tauto.
Qed.

(** X16.  A mode of a fully-vectorial solve whose three E-components are
    zero everywhere is labelled [qTE], with [nan] as its confidence. *)
Theorem zero_field_mode_is_labelled_qTE (w w' : World)
    (structure : Structure) (wavelength : R) (r : Result) :
  kind (self w) = FullyVectorial ->
  solve structure wavelength w = (Return r, w') ->
  exists ms mts,
    r_modes r = Some (FVModes ms) /\
    mode_types (self w') = Some mts /\
    Forall2 (fun mode mt =>
      exists ex ey ez hx hy hz,
        has_fields mode ex ey ez hx hy hz /\
        (all_zero ex /\ all_zero ey /\ all_zero ez -> mt = ("qTE", NaN)))
      ms mts.
Proof.
  intros Hk H.
  destruct (solve_fv_returns _ _ _ _ _ Hk H)
    as (neff & ms & ovs & mts & _ & _ & _ & _ & -> & _ & _ & _ & Hm & _ & _
        & _ & _ & Hov & Hmt).
  exists ms, mts. split_and!; try done.
  eapply Forall2_impl; [exact (Forall2_chain _ _ _ _ _ Hov Hmt)|].
  intros mode mt (ov & (ex & ey & ez & hx & hy & hz & Hf & ->)
                  & idx & label & v & Hidx & Hl & Hv & ->).
  exists ex, ey, ez, hx, hy, hz. split; [done|]. intros (Zx & Zy & Zz).
  apply energy_zero_iff in Zx, Zy, Zz.
  rewrite areas_zero in Hidx, Hv by lra.
  simpl in Hidx. simplify_eq. simpl in Hv.
  rewrite labels_lookup in Hl by lia. simpl in Hl. by simplify_eq.
Qed.

(** X17.  A sweep over no element calls the engine not at all and returns
    the empty list; all the same, with a non-empty [filename] it replaces
    that file by an empty one and, when [plot] is set, requests one plot of
    it. *)
Theorem empty_sweep (w : World) (filename : string) (plot : bool) :
  truthy filename = true ->
  (forall wavelength,
     exists w',
       solve_sweep_structure [] wavelength filename plot w = (Return [], w') /\
       same_core w w' /\
       files w' = <[filename := []]> (files w) /\
       length (plots w') = (length (plots w) + if plot then 1 else 0)%nat) /\
  (forall structure,
     exists w',
       solve_sweep_wavelength structure [] filename plot w = (Return [], w') /\
       same_core w w' /\
       files w' = <[filename := []]> (files w) /\
       length (plots w') = (length (plots w) + if plot then 1 else 0)%nat).
Proof.
  intros Ht. split.
  - intros wavelength. unfold solve_sweep_structure.
    unfold bind at 1. simpl. unfold bind at 1. rewrite Ht.
    destruct plot; eexists; (split; [reflexivity|]); simpl;
      rewrite ?length_app; simpl; split_and!; try done; lia.
  - intros structure. unfold solve_sweep_wavelength.
    unfold bind at 1. simpl. unfold bind at 1. rewrite Ht.
    destruct plot; eexists; (split; [reflexivity|]); simpl;
      rewrite ?length_app; simpl; split_and!; try done; lia.
Qed.

(** ** Sweeps that run *)

Lemma write_n_effs_runs (n_effs : list Result) (filename : string)
    (x_vals : option (list R)) (w : World) :
  Forall (fun info => r_n_effs info <> []) n_effs ->
  match x_vals with
  | Some xs => (length n_effs <= length xs)%nat
  | None => True
  end ->
  exists w', _write_n_effs_to_file n_effs filename x_vals w = (Return tt, w').
Proof.
  intros Hne Hx.
  destruct (write_rows_ok filename x_vals n_effs 0
              (with_files (<[filename := []]> (files w)) w) [])
    as (rows & Hrun & _).
  { simpl. by rewrite lookup_insert_eq. }
  { intros j info Hj. apply row_of_is_Some.
    - by eapply Forall_lookup_1 in Hne.
    - destruct x_vals as [xs|]; [|done].
      apply lookup_lt_Some in Hj. simpl. lia. }
  eexists. unfold _write_n_effs_to_file, bind, modify. exact Hrun.
Qed.

Lemma sweep_structure_runs (structures : list Structure) (wavelength : R)
    (filename : string) (plot : bool) (w w1 : World) (rs : list Result) :
  for_each (fun s => solve s wavelength) structures w = (Return rs, w1) ->
  Forall (fun r => r_n_effs r <> []) rs ->
  exists w',
    solve_sweep_structure structures wavelength filename plot w
      = (Return rs, w').
Proof.
  intros Hfor Hne. unfold solve_sweep_structure.
  unfold bind at 1. rewrite Hfor.
  destruct (truthy filename); [|by eexists].
  destruct (write_n_effs_runs rs filename None w1 Hne I) as (w2 & Hw).
  unfold bind at 1. unfold bind at 1. rewrite Hw.
  destruct plot; by eexists.
Qed.

Lemma sweep_wavelength_runs (structure : Structure) (wavelengths : list R)
    (filename : string) (plot : bool) (w w1 : World) (rs : list Result) :
  for_each (fun wl => solve structure wl) wavelengths w = (Return rs, w1) ->
  Forall (fun r => r_n_effs r <> []) rs ->
  exists w',
    solve_sweep_wavelength structure wavelengths filename plot w
      = (Return rs, w').
Proof.
  intros Hfor Hne. unfold solve_sweep_wavelength.
  unfold bind at 1. rewrite Hfor.
  destruct (truthy filename); [|by eexists].
  destruct (loop_results (fun _ => structure) (fun wl => wl) _ _ _ _ Hfor)
    as (cs & _ & Hxs & Hrs & _).
  apply Forall2_length in Hxs, Hrs.
  destruct (write_n_effs_runs rs filename (Some wavelengths) w1 Hne)
    as (w2 & Hw); [lia|].
  unfold bind at 1. unfold bind at 1. rewrite Hw.
  destruct plot; by eexists.
Qed.

End MoreFacts.

(** * Properties of the output functions *)

Section OutputFacts.

Context {Structure : Type} {tools : Collaborators Structure}
        {lib : ModeSolverLib Structure}.

Local Abbreviation World := (World Structure).
Local Abbreviation Disk := (Disk Structure).

(** ** Strings and paths *)

Lemma app_cons (a : Ascii.ascii) (s t : string) :
  String a s +:+ t = String a (s +:+ t).
Proof. reflexivity. Qed.

Lemma app_empty_r (s : string) : s +:+ EmptyString = s.
Proof. induction s as [|a s IH]; [done|]. by rewrite app_cons, IH. Qed.

Lemma str_take_drop (n : nat) (s : string) : str_take n s +:+ str_drop n s = s.
Proof.
  revert s. induction n as [|n IH]; intros [|a s]; simpl; try done.
  by rewrite app_cons, IH.
Qed.

Lemma app_length_inj (s1 s2 t1 t2 : string) :
  String.length s1 = String.length s2 ->
  s1 +:+ t1 = s2 +:+ t2 -> s1 = s2 /\ t1 = t2.
Proof.
  revert s2. induction s1 as [|a s1 IH]; intros [|b s2] Hlen H;
    simpl in Hlen; try done.
  rewrite !app_cons in H. injection H as -> H.
  destruct (IH s2) as [-> ->]; [lia|done|done].
Qed.

Lemma length_app_string (s t : string) :
  String.length (s +:+ t) = (String.length s + String.length t)%nat.
Proof.
  induction s as [|a s IH]; [done|]. rewrite app_cons. simpl. by rewrite IH.
Qed.

Lemma app_inj_r (s1 s2 t : string) : s1 +:+ t = s2 +:+ t -> s1 = s2.
Proof.
  intros H. apply (app_length_inj s1 s2 t t); [|done].
  apply (f_equal String.length) in H. rewrite !length_app_string in H. lia.
Qed.

Lemma rfind_drop (c : Ascii.ascii) (s : string) (i : nat) :
  rfind c s = Some i ->
  str_drop i s = String c (str_drop (S i) s) /\
  rfind c (str_drop (S i) s) = None.
Proof.
  revert i. induction s as [|a s IH]; intros i H; simpl in H; [done|].
  destruct (rfind c s) as [j|] eqn:Hj.
  - injection H as <-. destruct (IH j eq_refl) as [H1 H2]. simpl.
    split; [exact H1|].
    destruct s; [done|]. exact H2.
  - destruct (Ascii.eqb a c) eqn:Hac; [|done]. injection H as <-.
    apply Ascii.eqb_eq in Hac as ->. simpl. split; [by destruct s|].
    by destruct s.
Qed.

Lemma rfind_drop_None (c : Ascii.ascii) (s : string) (n : nat) :
  (index_Z (rfind c s) < Z.of_nat n)%Z -> rfind c (str_drop n s) = None.
Proof.
  revert s. induction n as [|n IH]; intros s H.
  - simpl. destruct (rfind c s) as [i|]; simpl in H; [lia|done].
  - destruct s as [|a s]; [done|]. simpl. apply IH.
    simpl in H. destruct (rfind c s) as [j|]; simpl in *; [lia|].
    destruct (Ascii.eqb a c); simpl in *; lia.
Qed.

(** [os.path.splitext] splits the path in two, and the extension is empty
    or a dot followed by characters that are neither dots nor slashes. *)
Lemma splitext_spec (p : string) :
  (splitext p).1 +:+ (splitext p).2 = p /\
  ((splitext p).2 = EmptyString \/
   exists rest,
     (splitext p).2 = String "." rest /\
     rfind "." rest = None /\ rfind "/" rest = None).
Proof.
  unfold splitext.
  destruct (index_Z (rfind "/" p) <? index_Z (rfind "." p))%Z eqn:Hlt;
    [|simpl; split; [apply app_empty_r|by left]].
  destruct (skip_leading_dots _ _ _);
    [|simpl; split; [apply app_empty_r|by left]].
  simpl. split; [apply str_take_drop|]. right.
  apply Z.ltb_lt in Hlt.
  destruct (rfind "." p) as [i|] eqn:Hdot.
  2:{ simpl in Hlt. destruct (rfind "/" p); simpl in Hlt; lia. }
  simpl. rewrite Nat2Z.id.
  destruct (rfind_drop _ _ _ Hdot) as [Hd Hnone].
  exists (str_drop (S i) p). split_and!; try done.
  apply rfind_drop_None. simpl in Hlt. lia.
Qed.

(** X18.  The file names that [_get_mode_filename] derives from one
    [filename] do not collide: for field names of the same length, two
    names are equal only for the same field and the same mode number. *)
Theorem mode_filename_injective (field1 field2 : string) (i j : nat)
    (filename : string) :
  String.length field1 = String.length field2 ->
  _get_mode_filename field1 i filename = _get_mode_filename field2 j filename ->
  field1 = field2 /\ i = j.
Proof.
  intros Hlen H. unfold _get_mode_filename in H.
  apply String.app_inj in H. apply String.app_inj in H.
  apply app_length_inj in H as [-> H]; [|done].
  apply String.app_inj in H. apply app_inj_r in H.
  split; [done|]. by apply (inj pretty).
Qed.

(** X19.  [_get_mode_filename] puts [_field_number] between the root and
    the extension of [filename], as [os.path.splitext] separates them: the
    two parts make up [filename] again, and the extension is empty or a dot
    followed by characters that are neither dots nor slashes, so the
    directories of [filename] are all in the root. *)
Theorem mode_filename_keeps_extension (field_name : string)
    (mode_number : nat) (filename : string) :
  exists root ext,
    filename = root +:+ ext /\
    _get_mode_filename field_name mode_number filename
      = root +:+ "_" +:+ field_name +:+ "_" +:+ pretty mode_number +:+ ext /\
    (ext = EmptyString \/
     exists rest,
       ext = String "." rest /\
       rfind "." rest = None /\ rfind "/" rest = None).
Proof.
  destruct (splitext_spec filename) as [Hjoin Hext].
  exists (splitext filename).1, (splitext filename).2. by split_and!.
Qed.

(** ** The plot of a mode *)

(** X20.  [_plot_mode] raises [IndexError], and requests no plot, exactly
    when the field name is empty, or when it has a single character and an
    area other than zero is given (the title then asks for the second
    character). *)
Theorem plot_mode_index_error (field_name : string) (mode_number : nat)
    (filename_mode : string) (n_eff : option C) (subtitle : string)
    (e2_x e2_y ctr_x ctr_y : R) (area : option npfloat)
    (w : World) (d : Disk) :
  _plot_mode field_name mode_number filename_mode n_eff subtitle
    e2_x e2_y ctr_x ctr_y area w d = (Raise IndexError, d) <->
  field_name = EmptyString \/
  (String.length field_name = 1%nat /\
   exists a, area = Some a /\ truthy_float a = true).
Proof.
  unfold _plot_mode, bindD, selfD, expectD, plot_mode_title.
  destruct field_name as [|c0 tail]; [split; [by left|done]|].
  destruct area as [a|].
  - destruct (truthy_float a) eqn:Ha.
    + destruct tail as [|c1 tail].
      * split; [intros _; right; split; [done|by eauto]|done].
      * simpl. split.
        -- destruct (_structure (self w)); simpl; intros ?; simplify_eq.
        -- intros [?|[? _]]; simplify_eq.
    + simpl. split.
      * destruct (_structure (self w)); simpl; intros ?; simplify_eq.
      * intros [?|[_ (a' & ? & ?)]]; simplify_eq. congruence.
  - simpl. split.
    + destruct (_structure (self w)); simpl; intros ?; simplify_eq.
    + intros [?|[_ (a' & ? & ?)]]; simplify_eq.
Qed.

(** X21.  An effective index of zero and an area of zero are falsy: the
    plot that [_plot_mode] requests for them is the plot it requests when
    [n_eff] and [area] are not given, so the title shows neither. *)
Theorem plot_mode_drops_zero (field_name : string) (mode_number : nat)
    (filename_mode : string) (subtitle : string)
    (e2_x e2_y ctr_x ctr_y : R) (w : World) (d : Disk) :
  _plot_mode field_name mode_number filename_mode
    (Some (Cplx.of_real 0)) subtitle e2_x e2_y ctr_x ctr_y
    (Some (Finite 0)) w d
  = _plot_mode field_name mode_number filename_mode
      None subtitle e2_x e2_y ctr_x ctr_y None w d.
Proof.
  unfold _plot_mode, plot_mode_title, truthy_complex, truthy_float. simpl.
  destruct (Req_dec_T 0 0) as [_|Hn]; [done|by destruct Hn].
Qed.

(** ** The mode files of a semi-vectorial solver *)

(** The engine object after a semi-vectorial solve that returned. *)
Lemma solve_sv_ms (w w' : World) method structure wavelength r :
  kind (self w) = SemiVectorial method ->
  solve structure wavelength w = (Return r, w') ->
  _ms (self w') = Some {| ms_neff := Some (r_n_effs r);
                          ms_modes := Some (SVModes (length (heap w))) |}.
Proof.
  intros Hk H.
  unfold solve, _solve, bind, get_self in H. rewrite Hk in H.
  unfold _solve_semi_vectorial, run_engine_sv, bind, set_self, modify,
    get_self, ms_get_neff, ms_get_modes, expect, lift, with_self in H.
  simpl in H.
  destruct (ms_new_sv wavelength structure (_boundary (self w)) method);
    [unfold raise in H; simplify_eq|].
  destruct (ms_solve_sv _) as [e|[neff oms]]; simpl in H; [simplify_eq|].
  destruct oms as [ms|]; simpl in H.
  2:{ destruct (_mode_profiles (self w)); simpl in H; simplify_eq. }
  destruct (_mode_profiles (self w)); simpl in H.
  - unfold list_get, bind, get, expect in H. simpl in H.
    rewrite deref_alloc in H.
    destruct ms as [|m0 rest]; simpl in H; [simplify_eq|].
    rewrite deref_alloc, store_alloc, deref_alloc in H. simpl in H.
    unfold ret in H. by simplify_eq.
  - unfold ret in H. by simplify_eq.
Qed.

Lemma plot_mode_runs (field_name : string) (mode_number : nat)
    (filename_mode : string) (n_eff : option C) (subtitle : string)
    (e2_x e2_y ctr_x ctr_y : R) (w : World) (d : Disk) (st : Structure) :
  field_name <> EmptyString ->
  _structure (self w) = Some st ->
  exists job,
    _plot_mode field_name mode_number filename_mode n_eff subtitle
      e2_x e2_y ctr_x ctr_y None w d
    = (Return tt, {| dirs := dirs d; mode_files := mode_files d;
                     mode_plots := mode_plots d ++ [job] |}) /\
    mp_filename_data job = filename_mode /\
    mp_filename_image job = (splitext filename_mode).1 +:+ ".png" /\
    mp_structure job = st.
Proof.
  intros Hf Hst. unfold _plot_mode, bindD, selfD, expectD, plot_mode_title.
  destruct field_name as [|c0 tail]; [done|]. simpl. rewrite Hst. simpl.
  eexists. split; [reflexivity|]. done.
Qed.

(** The name of the file of mode [j]. *)
Lemma mode_filename_ne (method filename : string) (i j : nat) :
  i <> j ->
  _get_mode_filename method i filename <> _get_mode_filename method j filename.
Proof.
  intros Hij H. unfold _get_mode_filename in H.
  do 4 apply String.app_inj in H. apply app_inj_r in H.
  by apply (inj pretty) in H.
Qed.

(** One turn of the loop that does not raise. *)
Lemma write_modes_step (method filename : string) (plot analyse : bool)
    (i : nat) (mode : ndarray) (rest : list ndarray) (w : World) (d : Disk)
    (st : Structure) (n : list C) :
  (plot = true ->
   method <> EmptyString /\ _structure (self w) = Some st /\
   n_effs (self w) = Some n /\ (i < length n)%nat) ->
  exists d1 jobs,
    write_modes_loop method filename plot analyse i (mode :: rest) w d
      = write_modes_loop method filename plot analyse (S i) rest w d1 /\
    dirs d1 = dirs d /\
    mode_files d1 = <[_get_mode_filename method i filename
                      := flip_rows (np_abs mode)]> (mode_files d) /\
    mode_plots d1 = mode_plots d ++ jobs /\
    length jobs = (if plot then 1 else 0)%nat /\
    Forall (fun job => mp_structure job = st /\
                       mp_filename_data job
                         = _get_mode_filename method i filename) jobs.
Proof.
  intros Hplot.
  change (write_modes_loop method filename plot analyse i (mode :: rest))
    with (_write_mode_to_file (np_abs mode)
            (_get_mode_filename method i filename) >>+
          (if plot then
             if Nat.eqb i 0 && analyse then
               let+ s := selfD in
               let+ structure :=
                 expectD (AttributeError "_structure") (_structure s) in
               let+ n_eff := n_eff_at i in
               _plot_mode method i (_get_mode_filename method i filename)
                 (Some n_eff)
                 (fit_subtitle (fit_gaussian structure (np_abs mode)))
                 (fit_sigma_2 (fit_gaussian structure (np_abs mode))).1
                 (fit_sigma_2 (fit_gaussian structure (np_abs mode))).2
                 (fit_centre (fit_gaussian structure (np_abs mode))).1
                 (fit_centre (fit_gaussian structure (np_abs mode))).2 None
             else
               let+ n_eff := n_eff_at i in
               _plot_mode method i (_get_mode_filename method i filename)
                 (Some n_eff) EmptyString 0 0 0 0 None
           else retD tt) >>+
          write_modes_loop method filename plot analyse (S i) rest).
  unfold bindD at 1. unfold _write_mode_to_file.
  unfold bindD at 1.
  destruct plot.
  - destruct (Hplot eq_refl) as (Hm & Hst & Hn & Hi).
    destruct (lookup_lt_is_Some_2 n i Hi) as [z Hz].
    assert (Hat : forall d0, n_eff_at i w d0 = (Return z, d0)).
    { intros d0. unfold n_eff_at, bindD, selfD, expectD. rewrite Hn. simpl.
      by rewrite Hz. }
    destruct (Nat.eqb i 0 && analyse).
    + unfold bindD at 1. unfold selfD. unfold bindD at 1. unfold expectD.
      rewrite Hst. unfold retD at 1. unfold bindD at 1. rewrite Hat.
      match goal with
      | |- context [_plot_mode ?f ?k ?fm ?ne ?sub ?a ?b ?c ?e None w ?d0] =>
          destruct (plot_mode_runs f k fm ne sub a b c e w d0 st Hm Hst)
            as (job & Hrun & Hfd & _ & Hjs)
      end.
      rewrite Hrun. eexists _, [job]. split; [reflexivity|]. simpl.
      split_and!; try done. by repeat constructor.
    + unfold bindD at 1. rewrite Hat.
      match goal with
      | |- context [_plot_mode ?f ?k ?fm ?ne ?sub ?a ?b ?c ?e None w ?d0] =>
          destruct (plot_mode_runs f k fm ne sub a b c e w d0 st Hm Hst)
            as (job & Hrun & Hfd & _ & Hjs)
      end.
      rewrite Hrun. eexists _, [job]. split; [reflexivity|]. simpl.
      split_and!; try done. by repeat constructor.
  - unfold retD. eexists _, []. split; [reflexivity|]. simpl.
    rewrite app_nil_r. split_and!; done.
Qed.

(** The loop, when it does not raise. *)
Lemma write_modes_loop_ok (method filename : string) (plot analyse : bool)
    (modes : list ndarray) (i : nat) (w : World) (d : Disk)
    (st : Structure) (n : list C) :
  (plot = true ->
   method <> EmptyString /\ _structure (self w) = Some st /\
   n_effs (self w) = Some n /\ (i + length modes <= length n)%nat) ->
  exists d' jobs,
    write_modes_loop method filename plot analyse i modes w d
      = (Return tt, d') /\
    dirs d' = dirs d /\
    (forall j mode,
       modes !! j = Some mode ->
       mode_files d' !! _get_mode_filename method (i + j) filename
         = Some (flip_rows (np_abs mode))) /\
    (forall name,
       (forall j, (j < length modes)%nat ->
                  name <> _get_mode_filename method (i + j) filename) ->
       mode_files d' !! name = mode_files d !! name) /\
    mode_plots d' = mode_plots d ++ jobs /\
    length jobs = (if plot then length modes else 0)%nat /\
    (forall j job,
       jobs !! j = Some job ->
       mp_structure job = st /\
       mp_filename_data job = _get_mode_filename method (i + j) filename).
Proof.
  revert i d. induction modes as [|mode rest IH]; intros i d Hplot.
  - exists d, []. simpl. rewrite app_nil_r. split_and!; try done.
    by destruct plot.
  - destruct (write_modes_step method filename plot analyse i mode rest w d
                st n) as (d1 & jobs1 & Hstep & Hd1 & Hf1 & Hp1 & Hl1 & Hs1).
    { intros Hp. destruct (Hplot Hp) as (? & ? & ? & Hlen).
      simpl in Hlen. split_and!; try done. lia. }
    destruct (IH (S i) d1)
      as (d' & jobs & Hrun & Hd' & Hfiles & Hother & Hp' & Hl' & Hs').
    { intros Hp. destruct (Hplot Hp) as (? & ? & ? & Hlen).
      simpl in Hlen. split_and!; try done. lia. }
    exists d', (jobs1 ++ jobs). rewrite Hstep. split_and!; try done.
    + congruence.
    + intros [|j] mode' Hj.
      * injection Hj as <-. rewrite Nat.add_0_r, Hother.
        -- rewrite Hf1. apply lookup_insert_eq.
        -- intros j _. apply mode_filename_ne. lia.
      * rewrite Nat.add_succ_r, <- Nat.add_succ_l. by apply Hfiles.
    + intros name Hname. rewrite Hother.
      * rewrite Hf1. apply lookup_insert_ne.
        specialize (Hname 0%nat). rewrite Nat.add_0_r in Hname.
        intros Heq. apply Hname; [simpl; lia|done].
      * intros j Hj. rewrite Nat.add_succ_l, <- Nat.add_succ_r.
        apply Hname. simpl. lia.
    + by rewrite Hp', Hp1, app_assoc.
    + rewrite length_app, Hl1, Hl'. simpl. by destruct plot.
    + intros j job Hj. destruct plot.
      * destruct jobs1 as [|job1 [|? ?]]; simpl in Hl1; try lia.
        apply Forall_inv in Hs1. destruct j as [|j]; simpl in Hj.
        -- injection Hj as <-. by rewrite Nat.add_0_r.
        -- rewrite Nat.add_succ_r, <- Nat.add_succ_l. by apply Hs'.
      * destruct jobs1; simpl in Hl1; [|lia].
        destruct jobs; simpl in Hl'; [|lia]. done.
Qed.

(** The loop, when [n_effs] has no entry for some mode: the file of that
    mode is the last one written. *)
Lemma write_modes_loop_short (method filename : string) (analyse : bool)
    (pre : list ndarray) (mode : ndarray) (rest : list ndarray) (i : nat)
    (w : World) (d : Disk) (st : Structure) (n : list C) :
  method <> EmptyString ->
  _structure (self w) = Some st ->
  n_effs (self w) = Some n ->
  (i + length pre = length n)%nat ->
  exists d' jobs,
    write_modes_loop method filename true analyse i (pre ++ mode :: rest) w d
      = (Raise IndexError, d') /\
    dirs d' = dirs d /\
    (forall j m,
       (pre ++ [mode]) !! j = Some m ->
       mode_files d' !! _get_mode_filename method (i + j) filename
         = Some (flip_rows (np_abs m))) /\
    (forall name,
       (forall j, (j <= length pre)%nat ->
                  name <> _get_mode_filename method (i + j) filename) ->
       mode_files d' !! name = mode_files d !! name) /\
    mode_plots d' = mode_plots d ++ jobs /\
    length jobs = length pre.
Proof.
  intros Hm Hst Hn. revert i d.
  induction pre as [|m0 pre IH]; intros i d Hlen; simpl in Hlen.
  - exists {| dirs := dirs d;
              mode_files := <[_get_mode_filename method i filename
                              := flip_rows (np_abs mode)]> (mode_files d);
              mode_plots := mode_plots d |}, [].
    assert (Hat : forall d0, n_eff_at i w d0 = (Raise IndexError, d0)).
    { intros d0. unfold n_eff_at, bindD, selfD, expectD. rewrite Hn. simpl.
      rewrite lookup_ge_None_2 by lia. done. }
    split_and!; simpl; try done.
    + change (write_modes_loop method filename true analyse i (mode :: rest))
        with (_write_mode_to_file (np_abs mode)
                (_get_mode_filename method i filename) >>+
              (if Nat.eqb i 0 && analyse then
                 let+ s := selfD in
                 let+ structure :=
                   expectD (AttributeError "_structure") (_structure s) in
                 let+ n_eff := n_eff_at i in
                 _plot_mode method i (_get_mode_filename method i filename)
                   (Some n_eff)
                   (fit_subtitle (fit_gaussian structure (np_abs mode)))
                   (fit_sigma_2 (fit_gaussian structure (np_abs mode))).1
                   (fit_sigma_2 (fit_gaussian structure (np_abs mode))).2
                   (fit_centre (fit_gaussian structure (np_abs mode))).1
                   (fit_centre (fit_gaussian structure (np_abs mode))).2 None
               else
                 let+ n_eff := n_eff_at i in
                 _plot_mode method i (_get_mode_filename method i filename)
                   (Some n_eff) EmptyString 0 0 0 0 None) >>+
              write_modes_loop method filename true analyse (S i) rest).
      unfold bindD at 1. unfold _write_mode_to_file.
      unfold bindD at 1.
      destruct (Nat.eqb i 0 && analyse).
      * unfold bindD at 1. unfold selfD. unfold bindD at 1. unfold expectD.
        rewrite Hst. unfold retD at 1. unfold bindD at 1. by rewrite Hat.
      * unfold bindD at 1. by rewrite Hat.
    + intros [|j] m Hj; simpl in Hj; [|done]. injection Hj as <-.
      rewrite Nat.add_0_r. apply lookup_insert_eq.
    + intros name Hname. apply lookup_insert_ne.
      specialize (Hname 0%nat). rewrite Nat.add_0_r in Hname.
      intros Heq. apply Hname; [lia|done].
    + by rewrite app_nil_r.
  - destruct (write_modes_step method filename true analyse i m0
                (pre ++ mode :: rest) w d st n)
      as (d1 & jobs1 & Hstep & Hd1 & Hf1 & Hp1 & Hl1 & Hs1).
    { intros _. split_and!; try done. lia. }
    destruct (IH (S i) d1) as (d' & jobs & Hrun & Hd' & Hfiles & Hother
                               & Hp' & Hl'); [lia|].
    exists d', (jobs1 ++ jobs).
    change ((m0 :: pre) ++ mode :: rest) with (m0 :: pre ++ mode :: rest).
    rewrite Hstep. split_and!; try done.
    + congruence.
    + intros [|j] m Hj; simpl in Hj.
      * injection Hj as <-. rewrite Nat.add_0_r, Hother.
        -- rewrite Hf1. apply lookup_insert_eq.
        -- intros j _. apply mode_filename_ne. lia.
      * rewrite Nat.add_succ_r, <- Nat.add_succ_l. by apply Hfiles.
    + intros name Hname. rewrite Hother.
      * rewrite Hf1. apply lookup_insert_ne.
        specialize (Hname 0%nat). rewrite Nat.add_0_r in Hname.
        intros Heq. apply Hname; [simpl; lia|done].
      * intros j Hj. rewrite Nat.add_succ_l, <- Nat.add_succ_r.
        apply Hname. simpl. lia.
    + by rewrite Hp', Hp1, app_assoc.
    + rewrite length_app, Hl1, Hl'. done.
Qed.

(** The solver after a semi-vectorial solve that returned, as
    [write_modes_to_file] reads it. *)
Lemma solve_sv_for_output (w w' : World) (method : string)
    (structure : Structure) (wavelength : R) (r : Result) (neff : list C)
    (ms : list ndarray) :
  kind (self w) = SemiVectorial method ->
  solve structure wavelength w = (Return r, w') ->
  ms_solve_sv (sv_call w method structure wavelength) = inr (neff, Some ms) ->
  kind (self w') = SemiVectorial method /\
  _structure (self w') = Some structure /\
  n_effs (self w') = Some neff /\
  _ms (self w') = Some {| ms_neff := Some neff;
                          ms_modes := Some (SVModes (length (heap w))) |} /\
  length (deref (heap w') (length (heap w))) = length ms /\
  forall j mode,
    ms !! j = Some mode ->
    exists mode',
      deref (heap w') (length (heap w)) !! j = Some mode' /\
      np_abs mode' = np_abs mode.
Proof.
  intros Hk H Heng.
  pose proof (solve_sv_ms _ _ _ _ _ _ Hk H) as Hms.
  pose proof (solve_sets_structure _ _ _ _ _ H) as Hst.
  destruct (solve_sv_returns _ _ _ _ _ _ Hk H)
    as (neff' & ms' & _ & Heng' & _ & Hcfg & Hr & Hn & _ & _ & _ & Hheap).
  rewrite Heng in Heng'. injection Heng' as <- <-.
  destruct Hcfg as (Hk' & _). rewrite Hr in Hms.
  split_and!; try done; [congruence| |].
  - destruct (_mode_profiles (self w)).
    + destruct Hheap as (m0 & rest & -> & -> & _). by rewrite deref_alloc.
    + destruct Hheap as (-> & _). by rewrite deref_alloc.
  - intros j mode Hj. destruct (_mode_profiles (self w)).
    + destruct Hheap as (m0 & rest & -> & -> & _). rewrite deref_alloc.
      destruct j as [|j]; simpl in Hj |- *.
      * injection Hj as <-. eexists. split; [done|]. apply np_abs_idem.
      * by eauto.
    + destruct Hheap as (-> & _). rewrite deref_alloc. by eauto.
Qed.

(** X22.  After a semi-vectorial solve has returned,
    [write_modes_to_file] returns [self.modes]; the directory
    [./modes_semi_vec/] then exists, and for every mode [j] of the engine the
    file that [_get_mode_filename] names for the method, [j] and
    [./modes_semi_vec/filename] holds the magnitude of that mode, last row
    first.  No other file is touched.  With [plot] (given a method name that
    is not empty and an effective index for every mode) one plot per mode is
    requested, in order, each for the structure of the solve and the file of
    its mode; without [plot], none. *)
Theorem write_modes_after_solve (w w' : World) (d : Disk) (method : string)
    (structure : Structure) (wavelength : R) (r : Result) (neff : list C)
    (ms : list ndarray) (filename : string) (plot analyse : bool) :
  kind (self w) = SemiVectorial method ->
  solve structure wavelength w = (Return r, w') ->
  ms_solve_sv (sv_call w method structure wavelength) = inr (neff, Some ms) ->
  (plot = true ->
   method <> EmptyString /\ (length ms <= length neff)%nat) ->
  exists d' jobs,
    write_modes_to_file filename plot analyse w' d
      = (Return (modes (self w')), d') /\
    dirs d' = {[ "./modes_semi_vec/" ]} ∪ dirs d /\
    (forall j mode,
       ms !! j = Some mode ->
       mode_files d' !! _get_mode_filename method j
                          ("./modes_semi_vec/" +:+ filename)
         = Some (flip_rows (np_abs mode))) /\
    (forall name,
       (forall j, (j < length ms)%nat ->
                  name <> _get_mode_filename method j
                            ("./modes_semi_vec/" +:+ filename)) ->
       mode_files d' !! name = mode_files d !! name) /\
    mode_plots d' = mode_plots d ++ jobs /\
    length jobs = (if plot then length ms else 0)%nat /\
    (forall j job,
       jobs !! j = Some job ->
       mp_structure job = structure /\
       mp_filename_data job = _get_mode_filename method j
                                ("./modes_semi_vec/" +:+ filename)).
Proof.
  intros Hk H Heng Hplot.
  destruct (solve_sv_for_output _ _ _ _ _ _ _ _ Hk H Heng)
    as (Hk' & Hst & Hn & Hms & Hlen & Hmodes).
  destruct (write_modes_loop_ok method ("./modes_semi_vec/" +:+ filename)
              plot analyse (deref (heap w') (length (heap w))) 0 w'
              {| dirs := {[ "./modes_semi_vec/" ]} ∪ dirs d;
                 mode_files := mode_files d;
                 mode_plots := mode_plots d |} structure neff)
    as (d' & jobs & Hrun & Hd & Hfiles & Hother & Hp & Hl & Hjobs).
  { intros Hp. destruct (Hplot Hp) as [? ?]. split_and!; try done.
    simpl. lia. }
  exists d', jobs.
  unfold write_modes_to_file.
  unfold bindD at 1. unfold ensure_dir.
  unfold bindD at 1. unfold selfD at 1.
  unfold bindD at 1. rewrite Hms. unfold expectD at 1. unfold retD at 1.
  unfold bindD at 1. simpl ms_modes. unfold expectD at 1. unfold retD at 1.
  unfold bindD at 1. unfold retD at 1.
  unfold bindD at 1. unfold heapD at 1.
  unfold bindD at 1. rewrite Hk'. unfold retD at 1.
  unfold bindD at 1. rewrite Hrun. unfold retD.
  split_and!; try done.
  - intros j mode Hj. destruct (Hmodes j mode Hj) as (mode' & Hj' & <-).
    by apply (Hfiles j mode').
  - intros name Hname. rewrite Hother; [done|].
    intros j Hj. apply Hname. lia.
  - by rewrite Hl, Hlen.
Qed.

(** ** What [write_modes_to_file] leaves alone *)

Lemma plot_mode_frame (field_name : string) (mode_number : nat)
    (filename_mode : string) (n_eff : option C) (subtitle : string)
    (e2_x e2_y ctr_x ctr_y : R) (area : option npfloat)
    (w : World) (d d' : Disk) (o : Outcome unit) :
  _plot_mode field_name mode_number filename_mode n_eff subtitle
    e2_x e2_y ctr_x ctr_y area w d = (o, d') ->
  dirs d' = dirs d /\ mode_files d' = mode_files d /\
  exists jobs,
    mode_plots d' = mode_plots d ++ jobs /\ (length jobs <= 1)%nat.
Proof.
  unfold _plot_mode, bindD, selfD, expectD.
  destruct (plot_mode_title _ _ _ _ _) as [e|title]; simpl.
  - intros ?; simplify_eq. split_and!; try done.
    exists []. rewrite app_nil_r. split; [done|simpl; lia].
  - destruct (_structure (self w)); simpl; intros ?; simplify_eq; simpl.
    + split_and!; try done. eexists [_]. split; [done|simpl; lia].
    + split_and!; try done.
      exists []. rewrite app_nil_r. split; [done|simpl; lia].
Qed.

Lemma n_eff_at_frame (i : nat) (w : World) (d d' : Disk) (o : Outcome C) :
  n_eff_at i w d = (o, d') -> d' = d.
Proof.
  unfold n_eff_at, bindD, selfD, expectD.
  destruct (n_effs (self w)) as [n|]; simpl; [|by intros ?; simplify_eq].
  destruct (n !! i); unfold retD, raiseD; by intros ?; simplify_eq.
Qed.

(** One turn of the loop, whatever its outcome. *)
Lemma write_modes_turn (method filename : string) (plot analyse : bool)
    (i : nat) (mode : ndarray) (rest : list ndarray) (w : World) (d d' : Disk)
    (o : Outcome unit) :
  write_modes_loop method filename plot analyse i (mode :: rest) w d
    = (o, d') ->
  exists d1 jobs,
    dirs d1 = dirs d /\
    mode_files d1 = <[_get_mode_filename method i filename
                      := flip_rows (np_abs mode)]> (mode_files d) /\
    mode_plots d1 = mode_plots d ++ jobs /\ (length jobs <= 1)%nat /\
    ((exists e, o = Raise e /\ d' = d1) \/
     write_modes_loop method filename plot analyse (S i) rest w d1 = (o, d')).
Proof.
  change (write_modes_loop method filename plot analyse i (mode :: rest))
    with (_write_mode_to_file (np_abs mode)
            (_get_mode_filename method i filename) >>+
          (if plot then
             if Nat.eqb i 0 && analyse then
               let+ s := selfD in
               let+ structure :=
                 expectD (AttributeError "_structure") (_structure s) in
               let+ n_eff := n_eff_at i in
               _plot_mode method i (_get_mode_filename method i filename)
                 (Some n_eff)
                 (fit_subtitle (fit_gaussian structure (np_abs mode)))
                 (fit_sigma_2 (fit_gaussian structure (np_abs mode))).1
                 (fit_sigma_2 (fit_gaussian structure (np_abs mode))).2
                 (fit_centre (fit_gaussian structure (np_abs mode))).1
                 (fit_centre (fit_gaussian structure (np_abs mode))).2 None
             else
               let+ n_eff := n_eff_at i in
               _plot_mode method i (_get_mode_filename method i filename)
                 (Some n_eff) EmptyString 0 0 0 0 None
           else retD tt) >>+
          write_modes_loop method filename plot analyse (S i) rest).
  unfold bindD at 1. unfold _write_mode_to_file.
  unfold bindD at 1.
  set (d0 := {| dirs := dirs d;
                mode_files := <[_get_mode_filename method i filename
                                := flip_rows (np_abs mode)]> (mode_files d);
                mode_plots := mode_plots d |}).
  match goal with
  | |- context [match ?c w d0 with _ => _ end] =>
      destruct (c w d0) as [o1 d1] eqn:Hp
  end.
  assert (Hframe : dirs d1 = dirs d0 /\ mode_files d1 = mode_files d0 /\
                   exists jobs, mode_plots d1 = mode_plots d0 ++ jobs /\
                                (length jobs <= 1)%nat).
  { assert (Hnone : forall (o' : Outcome unit),
              (o', d0) = (o1, d1) ->
              dirs d1 = dirs d0 /\ mode_files d1 = mode_files d0 /\
              exists jobs, mode_plots d1 = mode_plots d0 ++ jobs /\
                           (length jobs <= 1)%nat).
    { intros o' ?; simplify_eq. split_and!; try done.
      exists []. rewrite app_nil_r. split; [done|simpl; lia]. }
    destruct plot; [|by apply (Hnone (Return tt))].
    destruct (Nat.eqb i 0 && analyse).
    - unfold bindD at 1 in Hp. unfold selfD in Hp.
      unfold bindD at 1 in Hp. unfold expectD in Hp.
      destruct (_structure (self w)) as [st|];
        [|by apply (Hnone (Raise (AttributeError "_structure")))].
      unfold retD at 1 in Hp. unfold bindD at 1 in Hp.
      destruct (n_eff_at i w d0) as [[z|e] d2] eqn:Hat;
        apply n_eff_at_frame in Hat as ->;
        [by apply plot_mode_frame in Hp|by apply (Hnone (Raise e))].
    - unfold bindD at 1 in Hp.
      destruct (n_eff_at i w d0) as [[z|e] d2] eqn:Hat;
        apply n_eff_at_frame in Hat as ->;
        [by apply plot_mode_frame in Hp|by apply (Hnone (Raise e))]. }
  destruct Hframe as (Hd & Hf & jobs & Hpl & Hlen).
  intros H. exists d1, jobs. split_and!; try done.
  destruct o1 as [[]|e]; [by right|]. left. exists e. by simplify_eq.
Qed.

(** The loop, whatever its outcome. *)
Lemma write_modes_loop_frame (method filename : string) (plot analyse : bool)
    (modes : list ndarray) (i : nat) (w : World) (d d' : Disk)
    (o : Outcome unit) :
  write_modes_loop method filename plot analyse i modes w d = (o, d') ->
  dirs d' = dirs d /\
  (exists jobs,
     mode_plots d' = mode_plots d ++ jobs /\
     (length jobs <= length modes)%nat) /\
  forall name,
    (forall j, name <> _get_mode_filename method j filename) ->
    mode_files d' !! name = mode_files d !! name.
Proof.
  revert i d. induction modes as [|mode rest IH]; intros i d H.
  - simpl in H. unfold retD in H. simplify_eq. split_and!; try done.
    exists []. rewrite app_nil_r. split; [done|simpl; lia].
  - apply write_modes_turn in H
      as (d1 & jobs1 & Hd1 & Hf1 & Hp1 & Hl1 & [(e & -> & ->)|Hrest]).
    + split_and!; try done.
      * exists jobs1. split; [done|]. simpl. lia.
      * intros name Hname. rewrite Hf1. by apply lookup_insert_ne.
    + apply IH in Hrest as (Hd & (jobs & Hp & Hl) & Hf).
      split_and!.
      * congruence.
      * exists (jobs1 ++ jobs). rewrite Hp, Hp1, app_assoc.
        split; [done|]. rewrite length_app. simpl. lia.
      * intros name Hname. rewrite Hf by done. rewrite Hf1.
        by apply lookup_insert_ne.
Qed.

(** X23.  Whatever its outcome, [write_modes_to_file] of a semi-vectorial
    solver leaves the directory [./modes_semi_vec/] behind, removes no
    directory and no plot request, and changes no file other than those that
    [_get_mode_filename] names for the method and
    [./modes_semi_vec/filename].  Before the first solve, when there is no
    engine object yet, it raises [AttributeError], with no file written
    and no plot requested. *)
Theorem write_modes_frame (w : World) (d d' : Disk) (method filename : string)
    (plot analyse : bool) (o : Outcome (option ModesRef)) :
  kind (self w) = SemiVectorial method ->
  write_modes_to_file filename plot analyse w d = (o, d') ->
  dirs d' = {[ "./modes_semi_vec/" ]} ∪ dirs d /\
  (exists jobs, mode_plots d' = mode_plots d ++ jobs) /\
  (forall name,
     (forall j, name <> _get_mode_filename method j
                          ("./modes_semi_vec/" +:+ filename)) ->
     mode_files d' !! name = mode_files d !! name) /\
  (_ms (self w) = None ->
   o = Raise (AttributeError "_ms") /\
   mode_files d' = mode_files d /\ mode_plots d' = mode_plots d).
Proof.
  intros Hk H.
  assert (Hstop : forall e,
            (Raise e,
             {| dirs := {[ "./modes_semi_vec/" ]} ∪ dirs d;
                mode_files := mode_files d;
                mode_plots := mode_plots d |}) = (o, d') ->
            dirs d' = {[ "./modes_semi_vec/" ]} ∪ dirs d /\
            (exists jobs, mode_plots d' = mode_plots d ++ jobs) /\
            (forall name,
               (forall j, name <> _get_mode_filename method j
                                    ("./modes_semi_vec/" +:+ filename)) ->
               mode_files d' !! name = mode_files d !! name)).
  { intros e ?; simplify_eq. split_and!; try done.
    exists []. by rewrite app_nil_r. }
  unfold write_modes_to_file in H.
  unfold bindD at 1 in H. unfold ensure_dir in H.
  unfold bindD at 1 in H. unfold selfD at 1 in H.
  unfold bindD at 1 in H. unfold expectD at 1 in H.
  destruct (_ms (self w)) as [ms|].
  2:{ unfold raiseD in H. destruct (Hstop _ H) as (? & ? & ?).
      split_and!; try done. intros _. by simplify_eq. }
  unfold retD at 1 in H.
  unfold bindD at 1 in H. unfold expectD at 1 in H.
  destruct (ms_modes ms) as [m|].
  2:{ unfold raiseD in H. destruct (Hstop _ H) as (? & ? & ?).
      by split_and!. }
  unfold retD at 1 in H.
  unfold bindD at 1 in H.
  destruct m as [l|vs].
  2:{ unfold raiseD in H. destruct (Hstop _ H) as (? & ? & ?).
      by split_and!. }
  unfold retD at 1 in H.
  unfold bindD at 1 in H. unfold heapD at 1 in H.
  unfold bindD at 1 in H. rewrite Hk in H. unfold retD at 1 in H.
  unfold bindD at 1 in H.
  destruct (write_modes_loop _ _ _ _ _ _ _ _) as [o1 d1] eqn:Hloop.
  apply write_modes_loop_frame in Hloop as (Hd & (jobs & Hp & _) & Hf).
  simpl in Hd, Hp, Hf.
  assert (d' = d1) as ->.
  { destruct o1 as [[]|e]; unfold retD in H; by simplify_eq. }
  split_and!; try done. by exists jobs.
Qed.

(** X24.  When the engine has returned more modes than effective indices,
    [write_modes_to_file] with [plot] raises [IndexError] at the first mode
    [k] without an effective index: the files of the modes up to and
    including [k] are written, and the modes before [k] are plotted. *)
Theorem write_modes_index_error (w w' : World) (d : Disk) (method : string)
    (structure : Structure) (wavelength : R) (r : Result) (neff : list C)
    (ms : list ndarray) (filename : string) (analyse : bool) :
  kind (self w) = SemiVectorial method ->
  solve structure wavelength w = (Return r, w') ->
  ms_solve_sv (sv_call w method structure wavelength) = inr (neff, Some ms) ->
  method <> EmptyString ->
  (length neff < length ms)%nat ->
  exists d' jobs,
    write_modes_to_file filename true analyse w' d
      = (Raise IndexError, d') /\
    (forall j mode,
       ms !! j = Some mode ->
       (j <= length neff)%nat ->
       mode_files d' !! _get_mode_filename method j
                          ("./modes_semi_vec/" +:+ filename)
         = Some (flip_rows (np_abs mode))) /\
    (forall name,
       (forall j, (j <= length neff)%nat ->
                  name <> _get_mode_filename method j
                            ("./modes_semi_vec/" +:+ filename)) ->
       mode_files d' !! name = mode_files d !! name) /\
    mode_plots d' = mode_plots d ++ jobs /\
    length jobs = length neff.
Proof.
  intros Hk H Heng Hm Hshort.
  destruct (solve_sv_for_output _ _ _ _ _ _ _ _ Hk H Heng)
    as (Hk' & Hst & Hn & Hms & Hlen & Hmodes).
  set (l := deref (heap w') (length (heap w))) in *.
  destruct (lookup_lt_is_Some_2 l (length neff)) as [mode Hmode]; [lia|].
  pose proof (take_drop_middle _ _ _ Hmode) as Hsplit.
  destruct (write_modes_loop_short method ("./modes_semi_vec/" +:+ filename)
              analyse (take (length neff) l) mode
              (drop (S (length neff)) l) 0 w'
              {| dirs := {[ "./modes_semi_vec/" ]} ∪ dirs d;
                 mode_files := mode_files d;
                 mode_plots := mode_plots d |} structure neff Hm Hst Hn)
    as (d' & jobs & Hrun & Hd & Hfiles & Hother & Hp & Hl).
  { rewrite length_take. simpl. lia. }
  rewrite Hsplit in Hrun.
  assert (Hpre : length (take (length neff) l) = length neff)
    by (rewrite length_take; lia).
  exists d', jobs.
  unfold write_modes_to_file.
  unfold bindD at 1. unfold ensure_dir.
  unfold bindD at 1. unfold selfD at 1.
  unfold bindD at 1. rewrite Hms. unfold expectD at 1. unfold retD at 1.
  unfold bindD at 1. simpl ms_modes. unfold expectD at 1. unfold retD at 1.
  unfold bindD at 1. unfold retD at 1.
  unfold bindD at 1. unfold heapD at 1.
  unfold bindD at 1. rewrite Hk'. unfold retD at 1.
  unfold bindD at 1. fold l. rewrite Hrun.
  split_and!; try done.
  - intros j mode0 Hj Hle. destruct (Hmodes j mode0 Hj) as (mode' & Hj' & <-).
    apply (Hfiles j mode'). simpl.
    destruct (decide (j = length neff)) as [->|Hne].
    + rewrite lookup_app_r by lia. rewrite Hpre, Nat.sub_diag. simpl.
      congruence.
    + rewrite lookup_app_l by lia. rewrite lookup_take_lt by lia. done.
  - intros name Hname. rewrite Hother; [done|].
    intros j Hj. apply Hname. lia.
  - by rewrite Hl.
Qed.

End OutputFacts.

(** * The small engine *)

Module DemoFacts.

Import Demo.

Lemma mode_of_fields (ex ey ez hx hy hz : ndarray) :
  has_fields (mode_of ex ey ez hx hy hz) ex ey ez hx hy hz.
Proof. unfold has_fields, mode_of. simpl. split_and!; by simplify_map_eq. Qed.

Lemma mode_of_six (ex ey ez hx hy hz : ndarray) :
  six_fields (mode_of ex ey ez hx hy hz).
Proof. exists ex, ey, ez, hx, hy, hz. apply mode_of_fields. Qed.

(** A semi-vectorial solve on a structure other than 13 returns. *)
Lemma sv_solves (m0 : ndarray) (w : World nat) (method : string)
    (s : nat) (wl : R) :
  kind (self w) = SemiVectorial method ->
  Nat.eqb s 13 = false ->
  exists r w',
    solve (lib := lib m0) s wl w = (Return r, w') /\
    kind (self w') = SemiVectorial method /\
    _mode_profiles (self w') = _mode_profiles (self w) /\
    r_n_effs r = [Cplx.of_real (3 - wl)].
Proof.
  intros Hk Hs.
  assert (Hcall : ms_solve_sv (ModeSolverLib := lib m0)
                    (sv_call w method s wl)
                  = inr ([Cplx.of_real (3 - wl)], Some [m0])).
  { simpl. by rewrite Hs. }
  destruct (solve_sv_ok (lib := lib m0) w method s wl _ _ _ Hk eq_refl Hcall)
    as (r & w' & H).
  exists r, w'. split; [done|].
  destruct (solve_sv_returns (lib := lib m0) _ _ _ _ _ _ Hk H)
    as (neff & ms & _ & Hsol & _ & Hcfg & Hr & _).
  destruct Hcfg as (Hk' & _ & _ & _ & Hmp & _).
  rewrite Hcall in Hsol. simplify_eq. split_and!; try done. congruence.
Qed.

(** A fully-vectorial solve on a structure other than 13 returns. *)
Lemma fv_solves (m0 : ndarray) (w : World nat) (s : nat) (wl : R) :
  kind (self w) = FullyVectorial ->
  Nat.eqb s 13 = false ->
  exists r w',
    solve (lib := lib m0) s wl w = (Return r, w') /\
    kind (self w') = FullyVectorial /\
    r = {| r_n_effs := [Cplx.of_real (3 - wl)];
           r_modes := Some (FVModes [if Nat.eqb s 0
                                     then zero_mode else te_mode]) |}.
Proof.
  intros Hk Hs.
  assert (Hcall : ms_solve_fv (ModeSolverLib := lib m0) (fv_call w s wl)
                  = inr ([Cplx.of_real (3 - wl)],
                         Some [if Nat.eqb s 0 then zero_mode else te_mode])).
  { simpl. by rewrite Hs. }
  destruct (solve_fv_ok (lib := lib m0) w s wl _ _ Hk eq_refl Hcall)
    as (r & w' & H).
  { constructor; [|constructor]. destruct (Nat.eqb s 0); apply mode_of_six. }
  exists r, w'. split; [done|].
  destruct (solve_fv_returns (lib := lib m0) _ _ _ _ _ Hk H)
    as (neff & ms & ovs & mts & _ & Hsol & _ & Hcfg & Hr & _).
  destruct Hcfg as (Hk' & _).
  rewrite Hcall in Hsol. simplify_eq. split; [congruence|done].
Qed.

(** A solve on structure 13 raises the engine's exception. *)
Lemma sv_fails (m0 : ndarray) (w : World nat) (method : string) (wl : R) :
  kind (self w) = SemiVectorial method ->
  exists w',
    solve (lib := lib m0) 13%nat wl w
      = (Raise (OtherError "NonConvergenceError"), w').
Proof.
  intros Hk.
  destruct (solve (lib := lib m0) 13%nat wl w) as [o w'] eqn:H.
  exists w'. f_equal.
  apply (solve_frame (lib := lib m0)) in H as (_ & _ & _ & H).
  unfold engine_new, next_call in H. rewrite Hk in H. simpl in H.
  by destruct H as (_ & _ & -> & _).
Qed.

Lemma energy_single (x : R) : energy (RealArr [[x]]) = x * x.
Proof.
  unfold energy, np_sum_rows, np_square_rows. simpl.
  rewrite <- Rabs_mult, Rabs_pos_eq by nra. lra.
Qed.

Lemma has_fields_inj (mode : VMode) ex ey ez hx hy hz ex' ey' ez' hx' hy' hz' :
  has_fields mode ex ey ez hx hy hz ->
  has_fields mode ex' ey' ez' hx' hy' hz' ->
  ex' = ex /\ ey' = ey /\ ez' = ez /\ hx' = hx /\ hy' = hy /\ hz' = hz.
Proof.
  unfold has_fields. intros (? & ? & ? & ? & ? & ?) (? & ? & ? & ? & ? & ?).
  split_and!; congruence.
Qed.

(** The overlap vector of a mode without any field. *)
Lemma zero_mode_overlap (ov : list npfloat) :
  overlap_of zero_mode ov -> ov = [NaN; NaN; NaN; NaN; NaN; NaN].
Proof.
  intros (ex & ey & ez & hx & hy & hz & Hf & ->).
  destruct (has_fields_inj _ _ _ _ _ _ _ _ _ _ _ _ _
              (mode_of_fields _ _ _ _ _ _) Hf) as (-> & -> & -> & -> & -> & ->).
  rewrite areas_zero; [done|]. unfold zero_field. rewrite !energy_single. lra.
Qed.

(** The overlap vector of [te_mode]. *)
Lemma te_mode_overlap (ov : list npfloat) :
  overlap_of te_mode ov ->
  exists a b c d e f,
    ov = [Finite a; Finite b; Finite c; Finite d; Finite e; Finite f] /\
    a = 90 /\ b = 10 /\ c = 0.
Proof.
  intros (ex & ey & ez & hx & hy & hz & Hf & ->).
  destruct (has_fields_inj _ _ _ _ _ _ _ _ _ _ _ _ _
              (mode_of_fields _ _ _ _ _ _) Hf) as (-> & -> & -> & -> & -> & ->).
  unfold zero_field.
  rewrite (areas_positive (RealArr [[3]]) (RealArr [[1]]) (RealArr [[0]]))
    by (rewrite !energy_single; lra).
  rewrite (areas_positive (RealArr [[0]]) (RealArr [[2]]) (RealArr [[0]]))
    by (rewrite !energy_single; lra).
  eexists _, _, _, _, _, _. split; [reflexivity|].
  rewrite !energy_single. split_and!; field.
Qed.

(** The magnitude of [3+4i] is 5. *)
Lemma abs_3_4i : np_abs field_3_4i = RealArr [[5]].
Proof.
  unfold np_abs, field_3_4i, abs_rows, Cplx.abs. simpl.
  replace (3 * 3 + 4 * 4) with (5 * 5) by lra.
  rewrite sqrt_square by lra. done.
Qed.

(** A loop of semi-vectorial solves on structures other than 13 returns. *)
Lemma sv_loop {X} (m0 : ndarray) (st : X -> nat) (wl : X -> R) (xs : list X)
    (w : World nat) (method : string) :
  kind (self w) = SemiVectorial method ->
  Forall (fun x => Nat.eqb (st x) 13 = false) xs ->
  exists rs w',
    for_each (fun x => solve (lib := lib m0) (st x) (wl x)) xs w
      = (Return rs, w') /\
    Forall (fun r => r_n_effs r <> []) rs /\ length rs = length xs.
Proof.
  intros Hk Hxs. revert w Hk.
  induction Hxs as [|x xs Hx _ IH]; intros w Hk.
  - exists [], w. by split_and!.
  - destruct (sv_solves m0 w method (st x) (wl x) Hk Hx)
      as (r & w1 & H1 & K1 & _ & N1).
    destruct (IH w1 K1) as (rs & w' & Hfor & Hne & Hlen).
    exists (r :: rs), w'. split_and!.
    + simpl. unfold bind at 1. rewrite H1.
      unfold bind at 1. by rewrite Hfor.
    + constructor; [by rewrite N1|done].
    + simpl. by rewrite Hlen.
Qed.

(** A semi-vectorial solve on the second engine returns when the engine
    returns at least one mode. *)
Lemma edge_sv_solves (w : World nat) (method : string) (s : nat) (wl : R)
    (neff : list C) (m0 : ndarray) (rest : list ndarray) :
  kind (self w) = SemiVectorial method ->
  Nat.eqb s 24 = false ->
  ms_solve_sv (ModeSolverLib := edge_lib) (sv_call w method s wl)
    = inr (neff, Some (m0 :: rest)) ->
  exists r w',
    solve (lib := edge_lib) s wl w = (Return r, w') /\
    kind (self w') = SemiVectorial method /\
    r_n_effs r = neff.
Proof.
  intros Hk Hs Hcall.
  assert (Hnew : ms_new_sv (ModeSolverLib := edge_lib) wl s
                   (_boundary (self w)) method = None)
    by (simpl; by rewrite Hs).
  destruct (solve_sv_ok (lib := edge_lib) w method s wl _ _ _ Hk Hnew Hcall)
    as (r & w' & H).
  exists r, w'. split; [done|].
  destruct (solve_sv_returns (lib := edge_lib) _ _ _ _ _ _ Hk H)
    as (neff' & ms & _ & Hsol & _ & Hcfg & Hr & _).
  destruct Hcfg as (Hk' & _).
  rewrite Hcall in Hsol. simplify_eq. split; [congruence|done].
Qed.

(** A semi-vectorial solve on the third engine returns. *)
Lemma lossy_sv_solves (w : World nat) (method : string) (s : nat) (wl : R) :
  kind (self w) = SemiVectorial method ->
  exists r w',
    solve (lib := lossy_lib) s wl w = (Return r, w') /\
    kind (self w') = SemiVectorial method /\
    r_n_effs r = [Cplx.mk (3 - wl) 1].
Proof.
  intros Hk.
  destruct (solve_sv_ok (lib := lossy_lib) w method s wl
              [Cplx.mk (3 - wl) 1] zero_field [] Hk eq_refl eq_refl)
    as (r & w' & H).
  exists r, w'. split; [done|].
  destruct (solve_sv_returns (lib := lossy_lib) _ _ _ _ _ _ Hk H)
    as (neff' & ms & _ & Hsol & _ & Hcfg & Hr & _).
  destruct Hcfg as (Hk' & _).
  simpl in Hsol. simplify_eq. split; [congruence|done].
Qed.

End DemoFacts.

(** ** Runs of the claims on the small engine *)

(** C1 on the small engine: at wavelength 3/2 with step 1/10 the group
    index of the one mode is 3. *)
Lemma solve_ng_central_difference_witness :
  exists n_gs w' n_g,
    solve_ng (lib := Demo.lib Demo.field_3_4i) 1%nat 2%nat 3%nat
      (3 / 2) (1 / 10) (boot Demo.sv) = (Return n_gs, w') /\
    n_gs = [n_g] /\ nc_re n_g = Finite 3 /\ nc_im n_g = Finite 0.
Proof.
  destruct (DemoFacts.sv_solves Demo.field_3_4i (boot Demo.sv) "Ex" 1 (3 / 2)
              eq_refl eq_refl) as (r1 & w1 & H1 & K1 & _ & N1).
  destruct (DemoFacts.sv_solves Demo.field_3_4i w1 "Ex" 2 (3 / 2 - 1 / 10)
              K1 eq_refl) as (r2 & w2 & H2 & K2 & _ & N2).
  destruct (DemoFacts.sv_solves Demo.field_3_4i w2 "Ex" 3 (3 / 2 + 1 / 10)
              K2 eq_refl) as (r3 & w3 & H3 & _ & _ & N3).
  destruct (solve_ng_central_difference (lib := Demo.lib Demo.field_3_4i)
              _ _ _ _ _ _ _ _ _ _ _ _ H1 H2 H3)
    as (n_gs & Hng & Hlen & Hentry & _).
  rewrite N1, N2, N3 in Hlen. simpl in Hlen.
  destruct n_gs as [|n_g [|? ?]]; simpl in Hlen; try lia.
  destruct (Hentry 0%nat) as (n_g' & a & b & c & Hg & Ha & Hb & Hc & Hstep & _);
    [simpl; lia|].
  destruct Hstep as (Hre & Him & _); [lra|].
  rewrite N1 in Ha. rewrite N2 in Hb. rewrite N3 in Hc.
  simpl in Hg, Ha, Hb, Hc. simplify_eq.
  exists [n_g'], w3, n_g'. split_and!; try done.
  - rewrite Hre. f_equal. simpl. field.
  - rewrite Him. f_equal. simpl. field.
Defined.

(** C1 as the specification states it fails.  The effective indices of a
    lossy waveguide are complex, and so is the group index: the engine whose
    effective index is [3 - wavelength + 1j] gives a group index with the
    imaginary part 1.  With a step of zero the entry of the small engine is
    no number at all: its real part is [nan]. *)
Lemma solve_ng_group_index_not_real :
  (exists n_gs w' n_g,
     solve_ng (lib := Demo.lossy_lib) 1%nat 2%nat 3%nat
       (3 / 2) (1 / 10) (boot Demo.sv) = (Return n_gs, w') /\
     n_gs = [n_g] /\ nc_im n_g = Finite 1) /\
  (exists n_gs w' n_g,
     solve_ng (lib := Demo.lib Demo.field_3_4i) 1%nat 2%nat 3%nat
       (3 / 2) 0 (boot Demo.sv) = (Return n_gs, w') /\
     n_gs = [n_g] /\ nc_re n_g = NaN).
Proof.
  split.
  - destruct (DemoFacts.lossy_sv_solves (boot Demo.sv) "Ex" 1 (3 / 2)
                eq_refl) as (r1 & w1 & H1 & K1 & N1).
    destruct (DemoFacts.lossy_sv_solves w1 "Ex" 2 (3 / 2 - 1 / 10) K1)
      as (r2 & w2 & H2 & K2 & N2).
    destruct (DemoFacts.lossy_sv_solves w2 "Ex" 3 (3 / 2 + 1 / 10) K2)
      as (r3 & w3 & H3 & _ & N3).
    pose proof (solve_ng_run (lib := Demo.lossy_lib)
                  _ _ _ _ _ _ _ _ _ _ _ _ H1 H2 H3) as Hng.
    rewrite N1, N2, N3 in Hng. unfold group_indices in Hng. simpl in Hng.
    eexists _, w3, _. split; [exact Hng|]. split; [done|].
    unfold group_index, np_csub, np_cdivide.
    destruct (Req_dec_T (2 * (1 / 10)) 0) as [H0|_]; [lra|].
    simpl. f_equal. field.
  - destruct (DemoFacts.sv_solves Demo.field_3_4i (boot Demo.sv) "Ex" 1
                (3 / 2) eq_refl eq_refl) as (r1 & w1 & H1 & K1 & _ & N1).
    destruct (DemoFacts.sv_solves Demo.field_3_4i w1 "Ex" 2 (3 / 2 - 0)
                K1 eq_refl) as (r2 & w2 & H2 & K2 & _ & N2).
    destruct (DemoFacts.sv_solves Demo.field_3_4i w2 "Ex" 3 (3 / 2 + 0)
                K2 eq_refl) as (r3 & w3 & H3 & _ & _ & N3).
    pose proof (solve_ng_run (lib := Demo.lib Demo.field_3_4i)
                  _ _ _ _ _ _ _ _ _ _ _ _ H1 H2 H3) as Hng.
    rewrite N1, N2, N3 in Hng. unfold group_indices in Hng. simpl in Hng.
    eexists _, w3, _. split; [exact Hng|]. split; [done|].
    unfold group_index, np_csub, np_cdivide.
    destruct (Req_dec_T (2 * 0) 0) as [_|H0]; [|lra].
    simpl. unfold np_divide.
    destruct (Req_dec_T 0 0) as [_|H0]; [|lra].
    destruct (Req_dec_T _ 0) as [_|H0]; [done|]. lra.
Qed.

(** C4 on the small engine. *)
Lemma semi_vectorial_guess_is_magnitude_witness :
  exists r w',
    solve (lib := Demo.lib Demo.field_3_4i) 1%nat (3 / 2) (boot Demo.sv)
      = (Return r, w') /\
    _initial_mode_guess (self w') = Some (np_abs Demo.field_3_4i).
Proof.
  destruct (DemoFacts.sv_solves Demo.field_3_4i (boot Demo.sv) "Ex" 1 (3 / 2)
              eq_refl eq_refl) as (r1 & w1 & H1 & _).
  destruct (semi_vectorial_guess_is_magnitude
              (lib := Demo.lib Demo.field_3_4i) (boot Demo.sv) "Ex"
              eq_refl eq_refl) as (Hone & _).
  destruct (Hone _ _ _ _ H1) as (neff & m0 & rest & Hs & Hg & _).
  simpl in Hs. simplify_eq.
  exists r1, w1. done.
Defined.

(** C5 on the small engine. *)
Lemma fully_vectorial_guess_reset_witness :
  exists r w',
    solve (lib := Demo.lib Demo.field_3_4i) 1%nat (3 / 2) (boot Demo.fv)
      = (Return r, w') /\
    _initial_mode_guess (self w') = None /\
    _n_eff_guess (self w') = Some (3 / 2).
Proof.
  destruct (DemoFacts.fv_solves Demo.field_3_4i (boot Demo.fv) 1 (3 / 2)
              eq_refl eq_refl) as (r1 & w1 & H1 & _).
  destruct (fully_vectorial_guess_reset
              (lib := Demo.lib Demo.field_3_4i) (boot Demo.fv) eq_refl)
    as (Hone & _).
  destruct (Hone _ _ _ _ H1) as (Hg & Hn).
  exists r1, w1. done.
Defined.

(** C2 as the specification states it fails: two engines that differ only
    in the field they return make the backward and forward solves of the
    same [solve_ng] call receive different guesses. *)
Lemma solve_ng_backward_guess_depends_on_center :
  ~ (forall (m m' : ndarray) n_gs w1 n_gs' w1',
       solve_ng (lib := Demo.lib m) 1%nat 2%nat 3%nat (3 / 2) (1 / 10)
         (boot Demo.sv) = (Return n_gs, w1) ->
       solve_ng (lib := Demo.lib m') 1%nat 2%nat 3%nat (3 / 2) (1 / 10)
         (boot Demo.sv) = (Return n_gs', w1') ->
       map call_guess (calls w1) = map call_guess (calls w1')).
Proof.
  intros Hind.
  assert (Hrun : forall m, exists n_gs w' c1 c3,
    solve_ng (lib := Demo.lib m) 1%nat 2%nat 3%nat (3 / 2) (1 / 10)
      (boot Demo.sv) = (Return n_gs, w') /\
    map call_guess (calls w') = [c1; Some (np_abs m); c3]).
  { intros m.
    destruct (DemoFacts.sv_solves m (boot Demo.sv) "Ex" 1 (3 / 2)
                eq_refl eq_refl) as (r1 & w1 & H1 & K1 & _).
    destruct (DemoFacts.sv_solves m w1 "Ex" 2 (3 / 2 - 1 / 10)
                K1 eq_refl) as (r2 & w2 & H2 & K2 & _).
    destruct (DemoFacts.sv_solves m w2 "Ex" 3 (3 / 2 + 1 / 10)
                K2 eq_refl) as (r3 & w3 & H3 & _).
    pose proof (solve_ng_run (lib := Demo.lib m) _ _ _ _ _ _ _ _ _ _ _ _
                  H1 H2 H3) as Hng.
    destruct (solve_sv_returns (lib := Demo.lib m) (boot Demo.sv) _ "Ex"
                _ _ _ eq_refl H1)
      as (neff1 & ms1 & _ & Hs1 & Hc1 & _ & _ & _ & _ & _ & _ & Hp1).
    simpl in Hs1, Hp1. injection Hs1 as <- <-.
    destruct Hp1 as (m1 & rest1 & [= <- <-] & _ & _ & Hg1).
    destruct (solve_sv_returns (lib := Demo.lib m) _ _ _ _ _ _ K1 H2)
      as (neff2 & ms2 & _ & _ & Hc2 & _).
    destruct (solve_sv_returns (lib := Demo.lib m) _ _ _ _ _ _ K2 H3)
      as (neff3 & ms3 & _ & _ & Hc3 & _).
    eexists _, w3, _, _. split; [exact Hng|].
    rewrite Hc3, Hc2, Hc1. simpl. by rewrite Hg1. }
  destruct (Hrun (RealArr [[1]])) as (n1 & w1 & a1 & b1 & R1 & G1).
  destruct (Hrun (RealArr [[2]])) as (n2 & w2 & a2 & b2 & R2 & G2).
  specialize (Hind _ _ _ _ _ _ R1 R2). rewrite G1, G2 in Hind.
  unfold np_abs in Hind. simpl in Hind. simplify_eq.
  rewrite !Rabs_pos_eq in * by lra. lra.
Qed.

(** C2 as the code has it, on the small engine: the backward and the
    forward solve receive the magnitude of [3+4i]. *)
Lemma solve_ng_guess_chain_witness :
  exists n_gs w' c1 c2 c3,
    solve_ng (lib := Demo.lib Demo.field_3_4i) 1%nat 2%nat 3%nat
      (3 / 2) (1 / 10) (boot Demo.sv) = (Return n_gs, w') /\
    calls w' = [c1; c2; c3] /\
    call_guess c1 = None /\
    call_guess c2 = Some (np_abs Demo.field_3_4i) /\
    call_guess c3 = Some (np_abs Demo.field_3_4i).
Proof.
  destruct (DemoFacts.sv_solves Demo.field_3_4i (boot Demo.sv) "Ex" 1 (3 / 2)
              eq_refl eq_refl) as (r1 & w1 & H1 & K1 & _).
  destruct (DemoFacts.sv_solves Demo.field_3_4i w1 "Ex" 2 (3 / 2 - 1 / 10)
              K1 eq_refl) as (r2 & w2 & H2 & K2 & _).
  destruct (DemoFacts.sv_solves Demo.field_3_4i w2 "Ex" 3 (3 / 2 + 1 / 10)
              K2 eq_refl) as (r3 & w3 & H3 & _).
  pose proof (solve_ng_run (lib := Demo.lib Demo.field_3_4i)
                _ _ _ _ _ _ _ _ _ _ _ _ H1 H2 H3) as Hng.
  destruct (solve_ng_guess_chain (lib := Demo.lib Demo.field_3_4i)
              _ _ _ _ _ _ _ _ Hng) as (c1 & c2 & c3 & Hc & Hg1 & Hchain).
  simpl in Hchain.
  destruct Hchain as (s1 & s2 & neff1 & m1 & rest1 & neff2 & m2 & rest2
                      & -> & -> & Hs1 & Hg2 & Hs2 & Hg3).
  simpl in Hs1, Hs2.
  destruct (Nat.eqb (sv_structure s1) 13); simplify_eq.
  destruct (Nat.eqb (sv_structure s2) 13); simplify_eq.
  simpl in Hc, Hg1.
  eexists _, w3, (CallSV s1), (CallSV s2), c3.
  split; [exact Hng|]. split_and!; done.
Defined.

(** C3 as the specification states it fails: the sweep over structures 1,
    13, 2 completes step 0, and what the caller receives is the exception
    of step 1 alone: no value is returned, and no file is written. *)
Lemma sweep_discards_completed_results :
  exists r0 w1,
    solve (lib := Demo.lib Demo.field_3_4i) 1%nat (3 / 2) (boot Demo.sv)
      = (Return r0, w1) /\
    let out :=
      solve_sweep_structure (lib := Demo.lib Demo.field_3_4i)
        [1%nat; 13%nat; 2%nat] (3 / 2) "n_effs.dat" true (boot Demo.sv) in
    out.1 = Raise (OtherError "NonConvergenceError") /\
    returned out.1 <> Some [r0] /\
    files out.2 = ∅.
Proof.
  destruct (DemoFacts.sv_solves Demo.field_3_4i (boot Demo.sv) "Ex" 1 (3 / 2)
              eq_refl eq_refl) as (r1 & w1 & H1 & K1 & _).
  destruct (DemoFacts.sv_fails Demo.field_3_4i w1 "Ex" (3 / 2) K1) as (w2 & H2).
  exists r1, w1. split; [done|].
  assert (Hpre : for_each (fun s => solve (lib := Demo.lib Demo.field_3_4i)
                             s (3 / 2)) [1%nat] (boot Demo.sv)
                 = (Return [r1], w1)).
  { simpl. unfold bind. by rewrite H1. }
  pose proof (sweep_structure_abort (lib := Demo.lib Demo.field_3_4i)
                _ _ _ _ _ "n_effs.dat" true [1%nat] 13%nat [2%nat] _
                Hpre H2) as Hsweep.
  simpl in Hsweep. rewrite Hsweep. simpl. split_and!; try done.
  apply (solve_frame (lib := Demo.lib Demo.field_3_4i)) in H1, H2.
  destruct H1 as (_ & F1 & _). destruct H2 as (_ & F2 & _).
  by rewrite F2, F1.
Qed.

(** C3 as the code has it, on the small engine. *)
Lemma sweep_aborts_with_exception_witness :
  exists w',
    solve_sweep_structure (lib := Demo.lib Demo.field_3_4i)
      [1%nat; 13%nat; 2%nat] (3 / 2) "n_effs.dat" true (boot Demo.sv)
    = (Raise (OtherError "NonConvergenceError"), w').
Proof.
  destruct (DemoFacts.sv_solves Demo.field_3_4i (boot Demo.sv) "Ex" 1 (3 / 2)
              eq_refl eq_refl) as (r1 & w1 & H1 & K1 & _).
  destruct (DemoFacts.sv_fails Demo.field_3_4i w1 "Ex" (3 / 2) K1) as (w2 & H2).
  assert (Hpre : for_each (fun s => solve (lib := Demo.lib Demo.field_3_4i)
                             s (3 / 2)) [1%nat] (boot Demo.sv)
                 = (Return [r1], w1)).
  { simpl. unfold bind. by rewrite H1. }
  destruct (sweep_aborts_with_exception (lib := Demo.lib Demo.field_3_4i)
              (boot Demo.sv) w1 w2 [r1] (OtherError "NonConvergenceError")
              "n_effs.dat" true) as (Hs & _).
  destruct (Hs [1%nat] 13%nat [2%nat] (3 / 2) Hpre H2) as (Hsweep & _).
  exists w2. exact Hsweep.
Defined.

(** C6 as the specification states it fails: the engine returns the field
    [3+4i]; the list that the caller receives under ['modes'] holds the real
    field [5]. *)
Lemma returned_mode_is_magnitude :
  exists r w' l,
    solve (lib := Demo.lib Demo.field_3_4i) 1%nat (3 / 2) (boot Demo.sv)
      = (Return r, w') /\
    ms_solve_sv (ModeSolverLib := Demo.lib Demo.field_3_4i)
      (sv_call (boot Demo.sv) "Ex" 1%nat (3 / 2))
      = inr ([Cplx.of_real (3 - 3 / 2)], Some [CplxArr [[Cplx.mk 3 4]]]) /\
    r_modes r = Some (SVModes l) /\
    deref (heap w') l = [RealArr [[5]]] /\
    deref (heap w') l <> [CplxArr [[Cplx.mk 3 4]]].
Proof.
  destruct (DemoFacts.sv_solves Demo.field_3_4i (boot Demo.sv) "Ex" 1 (3 / 2)
              eq_refl eq_refl) as (r1 & w1 & H1 & _).
  destruct (solve_sv_returns (lib := Demo.lib Demo.field_3_4i)
              (boot Demo.sv) _ "Ex" _ _ _ eq_refl H1)
    as (neff & ms & _ & Hs & _ & _ & _ & _ & _ & _ & _ & Hp).
  simpl in Hs, Hp. simplify_eq.
  destruct Hp as (m0 & rest & ? & Hh & Hr & _). simplify_eq.
  exists r1, w1, 0%nat. split_and!; try done.
  - rewrite Hh. unfold deref. simpl. by rewrite DemoFacts.abs_3_4i.
  - rewrite Hh. unfold deref. simpl. done.
Qed.

(** C6 as the code has it, on the small engine: the returned list holds the
    magnitude, also after a second solve. *)
Lemma returned_modes_after_solve_witness :
  exists r w' l r2 w'',
    solve (lib := Demo.lib Demo.field_3_4i) 1%nat (3 / 2) (boot Demo.sv)
      = (Return r, w') /\
    solve (lib := Demo.lib Demo.field_3_4i) 2%nat (3 / 2) w'
      = (Return r2, w'') /\
    r_modes r = Some (SVModes l) /\
    deref (heap w'') l = [np_abs Demo.field_3_4i].
Proof.
  destruct (DemoFacts.sv_solves Demo.field_3_4i (boot Demo.sv) "Ex" 1 (3 / 2)
              eq_refl eq_refl) as (r1 & w1 & H1 & K1 & _).
  destruct (DemoFacts.sv_solves Demo.field_3_4i w1 "Ex" 2 (3 / 2)
              K1 eq_refl) as (r2 & w2 & H2 & _).
  pose proof (returned_modes_after_solve (lib := Demo.lib Demo.field_3_4i)
                _ _ _ _ _ H1) as Hm.
  simpl in Hm.
  destruct Hm as (neff & ms & Hs & m0 & rest & l & -> & Hr & _ & Hlater).
  simplify_eq.
  exists r1, w1, l, r2, w2. split_and!; try done.
  apply Hlater. apply rtc_once. by eapply op_solve.
Defined.

(** C7 as the specification states it fails: for a mode whose six fields
    are zero the overlap entries are [nan]; no three of them add up to
    100. *)
Lemma zero_mode_overlaps_nan :
  exists r w',
    solve (lib := Demo.lib Demo.field_3_4i) 0%nat (3 / 2) (boot Demo.fv)
      = (Return r, w') /\
    r_modes r = Some (FVModes [Demo.zero_mode]) /\
    overlaps (self w') = Some [[NaN; NaN; NaN; NaN; NaN; NaN]] /\
    ~ (exists a b c,
         take 3 [NaN; NaN; NaN; NaN; NaN; NaN]
           = [Finite a; Finite b; Finite c] /\ a + b + c = 100).
Proof.
  destruct (DemoFacts.fv_solves Demo.field_3_4i (boot Demo.fv) 0 (3 / 2)
              eq_refl eq_refl) as (r1 & w1 & H1 & _ & Hr).
  destruct (solve_fv_returns (lib := Demo.lib Demo.field_3_4i)
              (boot Demo.fv) _ _ _ _ eq_refl H1)
    as (neff & ms & ovs & mts & _ & _ & _ & _ & Hr' & _ & _ & Ho & _ & _ & _
        & _ & _ & Hov & _).
  rewrite Hr in Hr'. simpl in Hr'. simplify_eq.
  apply Forall2_cons_inv_l in Hov as (ov & ovs' & Hz & Hnil & ->).
  apply Forall2_nil_inv_l in Hnil as ->.
  apply DemoFacts.zero_mode_overlap in Hz as ->.
  eexists _, w1. split_and!; try done.
  intros (a & b & c & Hf & _). simpl in Hf. discriminate.
Qed.

(** C7 as the code has it, on the small engine: the percentages of the one
    mode of structure 1 add up to 100, for E and for H. *)
Lemma overlaps_sum_to_100_witness :
  exists r w' a b c d e f,
    solve (lib := Demo.lib Demo.field_3_4i) 1%nat (3 / 2) (boot Demo.fv)
      = (Return r, w') /\
    overlaps (self w')
      = Some [[Finite a; Finite b; Finite c; Finite d; Finite e; Finite f]] /\
    a + b + c = 100 /\ d + e + f = 100.
Proof.
  destruct (DemoFacts.fv_solves Demo.field_3_4i (boot Demo.fv) 1 (3 / 2)
              eq_refl eq_refl) as (r1 & w1 & H1 & _ & Hr).
  destruct (overlaps_sum_to_100 (lib := Demo.lib Demo.field_3_4i)
              (boot Demo.fv) _ _ _ _ eq_refl H1) as (ms & ovs & Hm & Ho & Hov).
  rewrite Hr in Hm. simpl in Hm. simplify_eq.
  apply Forall2_cons_inv_l in Hov as (ov & ovs' & Hte & Hnil & ->).
  apply Forall2_nil_inv_l in Hnil as ->.
  destruct Hte as (ex & ey & ez & hx & hy & hz & Hf & Hlen & He & Hh).
  destruct (DemoFacts.has_fields_inj _ _ _ _ _ _ _ _ _ _ _ _ _
              (DemoFacts.mode_of_fields _ _ _ _ _ _) Hf)
    as (-> & -> & -> & -> & -> & ->).
  destruct He as (a & b & c & Ht & _ & _ & _ & Hsum);
    [unfold Demo.zero_field; rewrite !DemoFacts.energy_single; lra|].
  destruct Hh as (d & e & f & Hd & _ & _ & _ & Hsum');
    [unfold Demo.zero_field; rewrite !DemoFacts.energy_single; lra|].
  eexists _, w1, a, b, c, d, e, f. split_and!; try done.
  rewrite Ho. do 2 f_equal.
  rewrite <- (take_drop 3 ov), Ht, Hd. done.
Defined.

(** C8 on the small engine: the mode of structure 1 has 90 percent of its
    E-energy in [Ex]; it is labelled [qTE], with a confidence within half a
    hundredth of 90. *)
Lemma mode_type_from_largest_overlap_witness :
  exists r w' k,
    solve (lib := Demo.lib Demo.field_3_4i) 1%nat (3 / 2) (boot Demo.fv)
      = (Return r, w') /\
    mode_types (self w') = Some [("qTE", Finite (IZR k / 100))] /\
    Rabs (IZR k / 100 - 90) <= 1 / 200.
Proof.
  destruct (DemoFacts.fv_solves Demo.field_3_4i (boot Demo.fv) 1 (3 / 2)
              eq_refl eq_refl) as (r1 & w1 & H1 & _ & Hr).
  destruct (solve_fv_returns (lib := Demo.lib Demo.field_3_4i)
              (boot Demo.fv) _ _ _ _ eq_refl H1)
    as (neff & ms & ovs0 & mts0 & _ & _ & _ & _ & Hr' & _ & _ & Ho' & _ & _
        & _ & _ & _ & Hov & _).
  destruct (mode_type_from_largest_overlap
              (lib := Demo.lib Demo.field_3_4i)
              (boot Demo.fv) _ _ _ _ eq_refl H1)
    as (ms' & ovs & mts & Hm & Ho & Ht & Hlen & Hmt).
  rewrite Ho in Ho'. rewrite Hr in Hr'. simpl in Hr'. simplify_eq.
  apply Forall2_cons_inv_l in Hov as (ov & ovs' & Hte & Hnil & ->).
  apply Forall2_nil_inv_l in Hnil as ->.
  apply DemoFacts.te_mode_overlap in Hte
    as (a & b & c & d & e & f & -> & -> & -> & ->).
  apply Forall2_cons_inv_l in Hmt as (mt & mts' & Hty & Hnil & ->).
  apply Forall2_nil_inv_l in Hnil as ->.
  destruct Hty as (idx & label & v & Hidx & Hl & Hv & -> & Hfin).
  destruct (Hfin 90 10 0 eq_refl)
    as (Hmax & x & k & Hx & _ & _ & _ & Hk & Hnear).
  assert (idx = 0%nat) as ->.
  { destruct Hmax as [(-> & _)|[(_ & ? & _)|(_ & ? & _)]]; [done|lra|lra]. }
  simpl in Hl, Hx, Hk. simplify_eq.
  eexists _, w1, k. split_and!; [done| |done].
  rewrite Ht. simpl in Hv. simplify_eq. by rewrite <- Hk.
Defined.



(** C10 on the small engine: the mode of structure 0 has no energy, and
    its six overlap entries are [nan]. *)
Lemma overlaps_defined_iff_positive_energy_witness :
  exists r w',
    solve (lib := Demo.lib Demo.field_3_4i) 0%nat (3 / 2) (boot Demo.fv)
      = (Return r, w') /\
    overlaps (self w') = Some [[NaN; NaN; NaN; NaN; NaN; NaN]].
Proof.
  destruct (DemoFacts.fv_solves Demo.field_3_4i (boot Demo.fv) 0 (3 / 2)
              eq_refl eq_refl) as (r1 & w1 & H1 & _ & Hr).
  destruct (overlaps_defined_iff_positive_energy
              (lib := Demo.lib Demo.field_3_4i)
              (boot Demo.fv) _ _ _ _ eq_refl H1) as (ms & ovs & Hm & Ho & Hov).
  rewrite Hr in Hm. simpl in Hm. simplify_eq.
  apply Forall2_cons_inv_l in Hov as (ov & ovs' & Hz & Hnil & ->).
  apply Forall2_nil_inv_l in Hnil as ->.
  destruct Hz as (ex & ey & ez & hx & hy & hz & Hf & Hov & _ & _ & _ & _ & _
                  & He & Hh).
  destruct (DemoFacts.has_fields_inj _ _ _ _ _ _ _ _ _ _ _ _ _
              (DemoFacts.mode_of_fields _ _ _ _ _ _) Hf)
    as (-> & -> & -> & -> & -> & ->).
  assert (Hzero : energy Demo.zero_field + energy Demo.zero_field
                  + energy Demo.zero_field = 0)
    by (unfold Demo.zero_field; rewrite !DemoFacts.energy_single; lra).
  specialize (He Hzero). specialize (Hh Hzero).
  eexists _, w1. split; [done|].
  rewrite Ho. do 2 f_equal.
  rewrite <- (take_drop 3 ov), He, Hh. done.
Defined.

(** ** Runs of the further properties on the small engine *)

(** X1 on the small engine: a sweep over the structures 1 and 2. *)
Lemma sweep_results_in_order_witness :
  exists rs w' c1 c2,
    solve_sweep_structure (lib := Demo.lib Demo.field_3_4i)
      [1%nat; 2%nat] (3 / 2) "n_effs.dat" true (boot Demo.sv)
      = (Return rs, w') /\
    calls w' = [c1; c2] /\
    call_structure c1 = 1%nat /\ call_structure c2 = 2%nat /\
    length rs = 2%nat.
Proof.
  destruct (DemoFacts.sv_loop Demo.field_3_4i (fun s => s) (fun _ => 3 / 2)
              [1%nat; 2%nat] (boot Demo.sv) "Ex" eq_refl)
    as (rs & w1 & Hfor & Hne & _); [by repeat constructor|].
  destruct (sweep_structure_runs (lib := Demo.lib Demo.field_3_4i)
              _ _ "n_effs.dat" true _ _ _ Hfor Hne) as (w' & Hrun).
  destruct (sweep_results_in_order (lib := Demo.lib Demo.field_3_4i)
              (boot Demo.sv)) as [Hs _].
  destruct (Hs _ _ _ _ _ _ Hrun) as (cs & Hc & Hlen & Hst & _).
  apply Forall2_cons_inv_l in Hst as (c1 & cs1 & [H1 _] & Hst & ->).
  apply Forall2_cons_inv_l in Hst as (c2 & cs2 & [H2 _] & Hst & ->).
  apply Forall2_nil_inv_l in Hst as ->.
  exists rs, w', c1, c2. split_and!; done.
Defined.

(** X2 on one result with the effective index 2. *)
Lemma write_n_effs_file_contents_witness :
  exists w' rows,
    _write_n_effs_to_file
      [{| r_n_effs := [Cplx.of_real 2]; r_modes := None |}]
      "n_effs.dat" None (boot Demo.sv) = (Return tt, w') /\
    files w' = <["n_effs.dat" := rows]> ∅ /\
    rows !! 0%nat = Some {| row_x := XIndex 0; row_y := 2 |}.
Proof.
  destruct (write_n_effs_file_contents
              [{| r_n_effs := [Cplx.of_real 2]; r_modes := None |}]
              "n_effs.dat" None (boot Demo.sv))
    as (rows & w' & Hrun & Hfiles & _ & _ & _ & Hrows).
  { by repeat constructor. }
  { exact I. }
  destruct (Hrows 0%nat _ eq_refl) as (n0 & x & Hn0 & Hrow & ->).
  simpl in Hn0. injection Hn0 as <-.
  exists w', rows. split_and!; done.
Defined.

(** X3 on three results, the second of which has no effective index. *)
Lemma write_n_effs_file_partial_witness :
  exists w' rows,
    _write_n_effs_to_file
      ([{| r_n_effs := [Cplx.of_real 2]; r_modes := None |}]
       ++ {| r_n_effs := []; r_modes := None |}
       :: [{| r_n_effs := [Cplx.of_real 2]; r_modes := None |}])
      "n_effs.dat" None (boot Demo.sv) = (Raise IndexError, w') /\
    files w' = <["n_effs.dat" := rows]> ∅ /\
    length rows = 1%nat.
Proof.
  destruct (write_n_effs_file_partial
              [{| r_n_effs := [Cplx.of_real 2]; r_modes := None |}]
              {| r_n_effs := []; r_modes := None |}
              [{| r_n_effs := [Cplx.of_real 2]; r_modes := None |}]
              "n_effs.dat" None (boot Demo.sv))
    as (rows & w' & Hrun & Hfiles & Hlen & _).
  { by repeat constructor. }
  { exact I. }
  { by left. }
  exists w', rows. split_and!; done.
Defined.

(** X4 on the small engine: the sweep over the structures 1 and 2 writes
    two rows and requests one plot. *)
Lemma sweep_output_witness :
  exists rs w' rows,
    solve_sweep_structure (lib := Demo.lib Demo.field_3_4i)
      [1%nat; 2%nat] (3 / 2) "n_effs.dat" true (boot Demo.sv)
      = (Return rs, w') /\
    files w' !! "n_effs.dat" = Some rows /\
    length rows = 2%nat /\
    length (plots w') = 1%nat.
Proof.
  destruct (DemoFacts.sv_loop Demo.field_3_4i (fun s => s) (fun _ => 3 / 2)
              [1%nat; 2%nat] (boot Demo.sv) "Ex" eq_refl)
    as (rs & w1 & Hfor & Hne & _); [by repeat constructor|].
  destruct (sweep_structure_runs (lib := Demo.lib Demo.field_3_4i)
              _ _ "n_effs.dat" true _ _ _ Hfor Hne) as (w' & Hrun).
  destruct (sweep_output (lib := Demo.lib Demo.field_3_4i) (boot Demo.sv))
    as [Hs _].
  pose proof (Hs _ _ _ _ _ _ Hrun) as Hout. simpl in Hout.
  destruct Hout as (rows & Hfiles & Hlen & _ & jobs & Hplots & Hjobs & _).
  exists rs, w', rows. split_and!; try done.
  - rewrite Hfiles. apply lookup_insert_eq.
  - by rewrite Hplots.
Defined.

(** X5 on the second engine: in the sweep over the structures 1, 20 and
    2 the solve of structure 20 returns no effective index; the sweep
    raises, and the file holds the row of structure 1 alone. *)
Lemma sweep_raises_after_solving_witness :
  exists w' rows,
    solve_sweep_structure (lib := Demo.edge_lib)
      [1%nat; 20%nat; 2%nat] (3 / 2) "n_effs.dat" true (boot Demo.sv)
      = (Raise IndexError, w') /\
    length (calls w') = 3%nat /\
    plots w' = [] /\
    files w' = <["n_effs.dat" := rows]> ∅ /\
    length rows = 1%nat /\
    rows !! 0%nat = Some {| row_x := XIndex 0; row_y := 3 |}.
Proof.
  destruct (DemoFacts.edge_sv_solves (boot Demo.sv) "Ex" 1 (3 / 2)
              [Cplx.of_real 3] Demo.field_3_4i [] eq_refl eq_refl eq_refl)
    as (r1 & w1 & H1 & K1 & N1).
  destruct (DemoFacts.edge_sv_solves w1 "Ex" 20 (3 / 2)
              [] Demo.zero_field [] K1 eq_refl eq_refl)
    as (r2 & w2 & H2 & K2 & N2).
  destruct (DemoFacts.edge_sv_solves w2 "Ex" 2 (3 / 2)
              [Cplx.of_real 3] Demo.field_3_4i [] K2 eq_refl eq_refl)
    as (r3 & w3 & H3 & _ & N3).
  assert (Hfor : for_each (fun s => solve (lib := Demo.edge_lib) s (3 / 2))
                   [1%nat; 20%nat; 2%nat] (boot Demo.sv)
                 = (Return [r1; r2; r3], w3)).
  { simpl. unfold bind. by rewrite H1, H2, H3. }
  destruct (sweep_raises_after_solving (lib := Demo.edge_lib)
              (boot Demo.sv) w3 [r1; r2; r3] "n_effs.dat" true eq_refl)
    as (pre & bad & post & Hsplit & Hpre & Hbad & Hs & _).
  { apply Exists_cons_tl. by apply Exists_cons_hd. }
  assert (pre = [r1]) as ->.
  { destruct pre as [|p [|p2 pre]]; simpl in Hsplit; simplify_eq.
    - rewrite N1 in Hbad. done.
    - done.
    - apply Forall_cons_1 in Hpre as [_ Hpre].
      apply Forall_cons_1 in Hpre as [Hp2 _]. by rewrite N2 in Hp2. }
  destruct (Hs _ _ Hfor)
    as (w' & rows & Hrun & _ & Hc & Hp & Hfiles & Hlen & _ & Hrows).
  destruct (Hrows 0%nat r1 eq_refl) as (n0 & Hn0 & Hrow).
  rewrite N1 in Hn0. simpl in Hn0. injection Hn0 as <-.
  exists w', rows. split_and!; done.
Defined.

(** X6 on the small engine: the solve of structure 13 raises, with
    [_structure] set and [n_effs] still unset. *)
Lemma failed_solve_keeps_results_witness :
  exists w',
    solve (lib := Demo.lib Demo.field_3_4i) 13%nat (3 / 2) (boot Demo.sv)
      = (Raise (OtherError "NonConvergenceError"), w') /\
    _structure (self w') = Some 13%nat /\
    n_effs (self w') = None.
Proof.
  destruct (solve (lib := Demo.lib Demo.field_3_4i) 13%nat (3 / 2)
              (boot Demo.sv)) as [o w'] eqn:H.
  destruct (failed_solve_keeps_results (lib := Demo.lib Demo.field_3_4i)
              _ _ _ _ _ (OtherError "NonConvergenceError") H)
    as (-> & Hst & Hn & _).
  { right. split; reflexivity. }
  exists w'. split_and!; done.
Defined.

(** X7 on the small engine: the centre solve of structure 13 raises, and
    so does [solve_ng]. *)
Lemma solve_ng_raises_iff_witness :
  exists w',
    solve_ng (lib := Demo.lib Demo.field_3_4i) 13%nat 2%nat 3%nat
      (3 / 2) (1 / 10) (boot Demo.sv)
    = (Raise (OtherError "NonConvergenceError"), w').
Proof.
  destruct (DemoFacts.sv_fails Demo.field_3_4i (boot Demo.sv) "Ex" (3 / 2)
              eq_refl) as (w' & H).
  exists w'.
  apply (solve_ng_raises_iff (lib := Demo.lib Demo.field_3_4i)). by left.
Defined.

(** X8 on the small engine. *)
Lemma solve_ng_leaves_forward_state_witness :
  exists n_gs w',
    solve_ng (lib := Demo.lib Demo.field_3_4i) 1%nat 2%nat 3%nat
      (3 / 2) (1 / 10) (boot Demo.sv) = (Return n_gs, w') /\
    _structure (self w') = Some 3%nat /\
    length (calls w') = 3%nat.
Proof.
  destruct (DemoFacts.sv_solves Demo.field_3_4i (boot Demo.sv) "Ex" 1 (3 / 2)
              eq_refl eq_refl) as (r1 & w1 & H1 & K1 & _).
  destruct (DemoFacts.sv_solves Demo.field_3_4i w1 "Ex" 2 (3 / 2 - 1 / 10)
              K1 eq_refl) as (r2 & w2 & H2 & K2 & _).
  destruct (DemoFacts.sv_solves Demo.field_3_4i w2 "Ex" 3 (3 / 2 + 1 / 10)
              K2 eq_refl) as (r3 & w3 & H3 & _).
  pose proof (solve_ng_run (lib := Demo.lib Demo.field_3_4i)
                _ _ _ _ _ _ _ _ _ _ _ _ H1 H2 H3) as Hng.
  destruct (solve_ng_leaves_forward_state (lib := Demo.lib Demo.field_3_4i)
              _ _ _ _ _ _ _ _ Hng)
    as (c1 & c2 & c3 & Hc & _ & _ & _ & _ & _ & _ & Hst & _).
  eexists _, w3. split; [exact Hng|]. split; [done|]. by rewrite Hc.
Defined.

(** X9 on the second engine: on structure 21 the engine sets no [modes]. *)
Lemma semi_vectorial_solve_without_modes_witness :
  exists w',
    solve (lib := Demo.edge_lib) 21%nat (3 / 2) (boot Demo.sv)
      = (Raise (AttributeError "modes"), w') /\
    n_effs (self w') = Some [Cplx.of_real 3].
Proof.
  destruct (semi_vectorial_solve_without_modes (lib := Demo.edge_lib)
              (boot Demo.sv) "Ex" 21%nat (3 / 2) [Cplx.of_real 3] None
              eq_refl eq_refl eq_refl) as (w' & H & Hn & _); [by left|].
  by exists w'.
Defined.

(** X10 on the small engine. *)
Lemma semi_vectorial_solve_returns_iff_witness :
  exists r w',
    solve (lib := Demo.lib Demo.field_3_4i) 1%nat (3 / 2) (boot Demo.sv)
      = (Return r, w').
Proof.
  apply (semi_vectorial_solve_returns_iff (lib := Demo.lib Demo.field_3_4i)
           (boot Demo.sv) "Ex" 1%nat (3 / 2) eq_refl).
  split; [reflexivity|].
  exists [Cplx.of_real (3 - 3 / 2)], [Demo.field_3_4i].
  split; [reflexivity|done].
Defined.

(** X11 on the small engine: the solver and the result share one list. *)
Lemma semi_vectorial_modes_alias_witness :
  exists r w' l,
    solve (lib := Demo.lib Demo.field_3_4i) 1%nat (3 / 2) (boot Demo.sv)
      = (Return r, w') /\
    modes (self w') = Some (SVModes l) /\
    r_modes r = Some (SVModes l).
Proof.
  destruct (DemoFacts.sv_solves Demo.field_3_4i (boot Demo.sv) "Ex" 1 (3 / 2)
              eq_refl eq_refl) as (r1 & w1 & H1 & _).
  pose proof (semi_vectorial_modes_alias (lib := Demo.lib Demo.field_3_4i)
                (boot Demo.sv) _ "Ex" _ _ _ eq_refl H1) as Ha.
  simpl in Ha. destruct Ha as (l & ms & Hm & _ & _ & Hr & _).
  by exists r1, w1, l.
Defined.

(** X12 on the small engine. *)
Lemma fully_vectorial_solve_returns_iff_witness :
  exists r w',
    solve (lib := Demo.lib Demo.field_3_4i) 1%nat (3 / 2) (boot Demo.fv)
      = (Return r, w').
Proof.
  apply (fully_vectorial_solve_returns_iff (lib := Demo.lib Demo.field_3_4i)
           (boot Demo.fv) 1%nat (3 / 2) eq_refl).
  split; [reflexivity|].
  exists [Cplx.of_real (3 - 3 / 2)], [Demo.te_mode].
  split; [reflexivity|]. constructor; [|constructor].
  apply DemoFacts.mode_of_six.
Defined.

(** X13 on the second engine: the mode has no field [Ez]. *)
Lemma fully_vectorial_solve_missing_field_witness :
  exists w',
    solve (lib := Demo.edge_lib) 20%nat (3 / 2) (boot Demo.fv)
      = (Raise (KeyError "Ez"), w') /\
    n_effs (self w') = Some [Cplx.of_real 3] /\
    overlaps (self w') = None.
Proof.
  destruct (fully_vectorial_solve_missing_field (lib := Demo.edge_lib)
              (boot Demo.fv) 20%nat (3 / 2) [Cplx.of_real 3]
              [] Demo.no_ez_mode [] ["Ex"; "Ey"] "Ez" ["Hx"; "Hy"; "Hz"]
              eq_refl eq_refl eq_refl)
    as (w' & H & Hn & _ & Ho & _).
  { constructor. }
  { reflexivity. }
  { unfold Demo.no_ez_mode. simpl. constructor; [|constructor; [|constructor]].
    - rewrite lookup_insert_eq. by eexists.
    - rewrite lookup_insert_ne by done. rewrite lookup_insert_eq. by eexists. }
  { unfold Demo.no_ez_mode. simpl. by rewrite !lookup_insert_ne by done. }
  by exists w'.
Defined.

(** X14 on the small engine: the six overlap entries of the mode of
    structure 1. *)
Lemma overlaps_are_percentages_witness :
  exists r w' ov,
    solve (lib := Demo.lib Demo.field_3_4i) 1%nat (3 / 2) (boot Demo.fv)
      = (Return r, w') /\
    overlaps (self w') = Some [ov] /\
    Forall (fun x => exists p, x = Finite p /\ 0 <= p <= 100) ov.
Proof.
  destruct (DemoFacts.fv_solves Demo.field_3_4i (boot Demo.fv) 1 (3 / 2)
              eq_refl eq_refl) as (r1 & w1 & H1 & _ & Hr).
  destruct (overlaps_are_percentages (lib := Demo.lib Demo.field_3_4i)
              (boot Demo.fv) _ _ _ _ eq_refl H1) as (ms & ovs & Hm & Ho & Hov).
  rewrite Hr in Hm. simpl in Hm. simplify_eq.
  apply Forall2_cons_inv_l in Hov as (ov & ovs' & Hte & Hnil & ->).
  apply Forall2_nil_inv_l in Hnil as ->.
  destruct Hte as (ex & ey & ez & hx & hy & hz & Hf & Hpct).
  destruct (DemoFacts.has_fields_inj _ _ _ _ _ _ _ _ _ _ _ _ _
              (DemoFacts.mode_of_fields _ _ _ _ _ _) Hf)
    as (-> & -> & -> & -> & -> & ->).
  eexists _, w1, ov. split_and!; try done.
  apply Hpct; unfold Demo.zero_field; rewrite !DemoFacts.energy_single; lra.
Defined.

(** X15 on the small engine: the mode of structure 1 has the energies 9, 1
    and 0 in [Ex], [Ey] and [Ez]. *)
Lemma mode_label_by_energy_witness :
  exists r w' v,
    solve (lib := Demo.lib Demo.field_3_4i) 1%nat (3 / 2) (boot Demo.fv)
      = (Return r, w') /\
    mode_types (self w') = Some [("qTE", v)].
Proof.
  destruct (DemoFacts.fv_solves Demo.field_3_4i (boot Demo.fv) 1 (3 / 2)
              eq_refl eq_refl) as (r1 & w1 & H1 & _ & Hr).
  destruct (mode_label_by_energy (lib := Demo.lib Demo.field_3_4i)
              (boot Demo.fv) _ _ _ _ eq_refl H1) as (ms & mts & Hm & Ht & Hmt).
  rewrite Hr in Hm. simpl in Hm. simplify_eq.
  apply Forall2_cons_inv_l in Hmt as ([label v] & mts' & Hte & Hnil & ->).
  apply Forall2_nil_inv_l in Hnil as ->.
  destruct Hte as (ex & ey & ez & hx & hy & hz & Hf & Hlabel).
  destruct (DemoFacts.has_fields_inj _ _ _ _ _ _ _ _ _ _ _ _ _
              (DemoFacts.mode_of_fields _ _ _ _ _ _) Hf)
    as (-> & -> & -> & -> & -> & ->).
  unfold Demo.zero_field in Hlabel. rewrite !DemoFacts.energy_single in Hlabel.
  simpl in Hlabel.
  destruct Hlabel as [(-> & _)|[(_ & ? & _)|(_ & ? & _)]]; [lra| |lra|lra].
  by eexists _, w1, v.
Defined.

(** X16 on the small engine: the mode of structure 0 has no energy. *)
Lemma zero_field_mode_is_labelled_qTE_witness :
  exists r w',
    solve (lib := Demo.lib Demo.field_3_4i) 0%nat (3 / 2) (boot Demo.fv)
      = (Return r, w') /\
    mode_types (self w') = Some [("qTE", NaN)].
Proof.
  destruct (DemoFacts.fv_solves Demo.field_3_4i (boot Demo.fv) 0 (3 / 2)
              eq_refl eq_refl) as (r1 & w1 & H1 & _ & Hr).
  destruct (zero_field_mode_is_labelled_qTE (lib := Demo.lib Demo.field_3_4i)
              (boot Demo.fv) _ _ _ _ eq_refl H1) as (ms & mts & Hm & Ht & Hmt).
  rewrite Hr in Hm. simpl in Hm. simplify_eq.
  apply Forall2_cons_inv_l in Hmt as (mt & mts' & Hz & Hnil & ->).
  apply Forall2_nil_inv_l in Hnil as ->.
  destruct Hz as (ex & ey & ez & hx & hy & hz & Hf & Hlabel).
  destruct (DemoFacts.has_fields_inj _ _ _ _ _ _ _ _ _ _ _ _ _
              (DemoFacts.mode_of_fields _ _ _ _ _ _) Hf)
    as (-> & -> & -> & -> & -> & ->).
  assert (Hzero : all_zero Demo.zero_field).
  { apply energy_zero_iff. unfold Demo.zero_field.
    rewrite DemoFacts.energy_single. lra. }
  rewrite Hlabel in Ht by done.
  by eexists _, w1.
Defined.

(** X17 on the small engine. *)
Lemma empty_sweep_witness :
  exists w',
    solve_sweep_structure (lib := Demo.lib Demo.field_3_4i)
      [] (3 / 2) "n_effs.dat" true (boot Demo.sv) = (Return [], w') /\
    files w' = <["n_effs.dat" := []]> ∅ /\
    length (plots w') = 1%nat.
Proof.
  destruct (empty_sweep (lib := Demo.lib Demo.field_3_4i) (boot Demo.sv)
              "n_effs.dat" true eq_refl) as (Hs & _).
  destruct (Hs (3 / 2)) as (w' & Hrun & _ & Hfiles & Hplots).
  by exists w'.
Defined.

(** X18 on the file [mode.dat]. *)
Lemma mode_filename_injective_witness :
  _get_mode_filename "Ex" 1 "mode.dat" = _get_mode_filename "Ex" 1 "mode.dat" /\
  "Ex" = "Ex" /\ 1%nat = 1%nat.
Proof.
  split; [reflexivity|].
  apply (mode_filename_injective "Ex" "Ex" 1 1 "mode.dat"); reflexivity.
Defined.

(** X20 on an empty field name. *)
Lemma plot_mode_index_error_witness :
  _plot_mode (tools := Demo.tools) "" 0 "mode.dat" None "" 0 0 0 0 None
    (boot Demo.sv) Demo.empty_disk
  = (Raise IndexError, Demo.empty_disk).
Proof.
  apply (plot_mode_index_error (tools := Demo.tools)). by left.
Defined.

(** X22 on the small engine: the one mode [3+4i] is written as [5] and
    plotted. *)
Lemma write_modes_after_solve_witness :
  exists r w' d',
    solve (lib := Demo.lib Demo.field_3_4i) 1%nat (3 / 2) (boot Demo.sv)
      = (Return r, w') /\
    write_modes_to_file (tools := Demo.tools) "mode.dat" true true w'
      Demo.empty_disk = (Return (modes (self w')), d') /\
    mode_files d' !! _get_mode_filename "Ex" 0
                       ("./modes_semi_vec/" +:+ "mode.dat")
      = Some (RealArr [[5]]) /\
    length (mode_plots d') = 1%nat.
Proof.
  destruct (DemoFacts.sv_solves Demo.field_3_4i (boot Demo.sv) "Ex" 1 (3 / 2)
              eq_refl eq_refl) as (r1 & w1 & H1 & _).
  destruct (write_modes_after_solve (tools := Demo.tools)
              (lib := Demo.lib Demo.field_3_4i)
              (boot Demo.sv) w1 Demo.empty_disk "Ex" 1%nat (3 / 2) r1
              [Cplx.of_real (3 - 3 / 2)] [Demo.field_3_4i] "mode.dat"
              true true eq_refl H1 eq_refl)
    as (d' & jobs & Hrun & _ & Hfiles & _ & Hplots & Hlen & _).
  { intros _. split; [done|]. simpl. lia. }
  exists r1, w1, d'. split_and!; try done.
  - rewrite (Hfiles 0%nat Demo.field_3_4i eq_refl).
    by rewrite DemoFacts.abs_3_4i.
  - by rewrite Hplots.
Defined.

(** X23 on a solver that has not solved yet. *)
Lemma write_modes_frame_witness :
  exists d',
    write_modes_to_file (tools := Demo.tools) "mode.dat" true true
      (boot Demo.sv) Demo.empty_disk
      = (Raise (AttributeError "_ms"), d') /\
    dirs d' = {[ "./modes_semi_vec/" ]} ∪ dirs Demo.empty_disk /\
    mode_files d' = ∅ /\ mode_plots d' = [].
Proof.
  destruct (write_modes_to_file (tools := Demo.tools) "mode.dat" true true
              (boot Demo.sv) Demo.empty_disk) as [o d'] eqn:H.
  destruct (write_modes_frame (tools := Demo.tools) (boot Demo.sv) _ _ "Ex"
              _ _ _ _ eq_refl H) as (Hd & _ & _ & Hnone).
  destruct (Hnone eq_refl) as (-> & Hf & Hp).
  by exists d'.
Defined.

(** X24 on the second engine: on structure 23 the engine returns two modes
    and one effective index. *)
Lemma write_modes_index_error_witness :
  exists r w' d',
    solve (lib := Demo.edge_lib) 23%nat (3 / 2) (boot Demo.sv)
      = (Return r, w') /\
    write_modes_to_file (tools := Demo.tools) "mode.dat" true true w'
      Demo.empty_disk = (Raise IndexError, d') /\
    mode_files d' !! _get_mode_filename "Ex" 1
                       ("./modes_semi_vec/" +:+ "mode.dat")
      = Some (flip_rows (np_abs Demo.zero_field)) /\
    length (mode_plots d') = 1%nat.
Proof.
  destruct (DemoFacts.edge_sv_solves (boot Demo.sv) "Ex" 23 (3 / 2)
              [Cplx.of_real 3] Demo.field_3_4i [Demo.zero_field]
              eq_refl eq_refl eq_refl) as (r1 & w1 & H1 & _).
  destruct (write_modes_index_error (tools := Demo.tools)
              (lib := Demo.edge_lib)
              (boot Demo.sv) w1 Demo.empty_disk "Ex" 23%nat (3 / 2) r1
              [Cplx.of_real 3] [Demo.field_3_4i; Demo.zero_field] "mode.dat"
              true eq_refl H1 eq_refl)
    as (d' & jobs & Hrun & Hfiles & _ & Hplots & Hlen); [done|simpl; lia|].
  exists r1, w1, d'. split_and!; try done.
  - apply (Hfiles 1%nat Demo.zero_field eq_refl). simpl. lia.
  - by rewrite Hplots.
Defined.
